(** * ConeFrustum.js: a truncated cone and its intersection with a ray

    A shallow embedding of [src/ConeFrustum.js].  The class [ConeFrustum]
    and the method [Ray.prototype.intersectsConeFrustum] are written against
    three.js objects ([Vector3], [Box3], [Ray]) that live on the JavaScript
    heap and are passed by reference, so the embedding is a state-and-error
    monad over a store of objects.  Numbers are kept abstract behind the
    class [Number]: the instance [float_number] is IEEE-754 binary64 (what a
    JavaScript engine computes), the instance [real_number] is exact real
    arithmetic (what the geometry is stated in). *)

From Stdlib Require Import ZArith Reals Lra Lia Psatz Floats.
From stdpp Require Import gmap.

(** * The program *)

(** ** JavaScript numbers *)

(** The operations the source applies to numbers, and the absolute value
    its documentation speaks of. *)
Class Number := {
  num : Type;
  num_lit : Z -> num;
  num_add : num -> num -> num;
  num_sub : num -> num -> num;
  num_mul : num -> num -> num;
  num_div : num -> num -> num;
  num_neg : num -> num;
  num_sqrt : num -> num;
  num_abs : num -> num;
  num_min : num -> num -> num;
  num_max : num -> num -> num;
  num_eqb : num -> num -> bool;
  num_ltb : num -> num -> bool;
  num_leb : num -> num -> bool
}.

Declare Scope num_scope.
Delimit Scope num_scope with num.
Notation "a + b" := (num_add a b) : num_scope.
Notation "a - b" := (num_sub a b) : num_scope.
Notation "a * b" := (num_mul a b) : num_scope.
Notation "a / b" := (num_div a b) : num_scope.
Notation "- a" := (num_neg a) : num_scope.
Notation "a === b" := (num_eqb a b) (at level 70, no associativity) : num_scope.
Notation "a !== b" := (negb (num_eqb a b)) (at level 70, no associativity) : num_scope.
Notation "a <? b" := (num_ltb a b) : num_scope.
Notation "a >? b" := (num_ltb b a)
  (at level 70, no associativity, only parsing) : num_scope.
Notation "a <=? b" := (num_leb a b) : num_scope.
Notation "a >=? b" := (num_leb b a)
  (at level 70, no associativity, only parsing) : num_scope.
Notation "0" := (num_lit 0%Z) : num_scope.
Notation "1" := (num_lit 1%Z) : num_scope.
Notation "2" := (num_lit 2%Z) : num_scope.

(** *** Doubles *)

Module Double.

(** An integer literal of the source as a double (exact below 2^53). *)
Definition of_Z (z : Z) : float :=
  match z with
  | Z0 => PrimFloat.zero
  | Zpos p => PrimFloat.of_uint63 (Uint63.of_Z (Zpos p))
  | Zneg p => PrimFloat.opp (PrimFloat.of_uint63 (Uint63.of_Z (Zpos p)))
  end.

Definition is_nan (a : float) : bool := negb (PrimFloat.eqb a a).

Definition is_neg_zero (a : float) : bool :=
  match PrimFloat.classify a with NZero => true | _ => false end.

(** [Math.min]: [NaN] if either argument is, and [-0] below [+0]. *)
Definition min (a b : float) : float :=
  if is_nan a then a
  else if is_nan b then b
  else if PrimFloat.ltb a b then a
  else if PrimFloat.ltb b a then b
  else if is_neg_zero a then a else b.

(** [Math.max]: [NaN] if either argument is, and [+0] above [-0]. *)
Definition max (a b : float) : float :=
  if is_nan a then a
  else if is_nan b then b
  else if PrimFloat.ltb a b then b
  else if PrimFloat.ltb b a then a
  else if is_neg_zero a then b else a.

End Double.

#[export] Instance float_number : Number := {|
  num := float;
  num_lit := Double.of_Z;
  num_add := PrimFloat.add;
  num_sub := PrimFloat.sub;
  num_mul := PrimFloat.mul;
  num_div := PrimFloat.div;
  num_neg := PrimFloat.opp;
  num_sqrt := PrimFloat.sqrt;
  num_abs := PrimFloat.abs;
  num_min := Double.min;
  num_max := Double.max;
  num_eqb := PrimFloat.eqb;
  num_ltb := PrimFloat.ltb;
  num_leb := PrimFloat.leb
|}.

(** *** Exact reals *)

Module Exact.

Definition eqb (a b : R) : bool := if Req_dec_T a b then true else false.
Definition ltb (a b : R) : bool := if Rlt_dec a b then true else false.
Definition leb (a b : R) : bool := if Rle_dec a b then true else false.

End Exact.

#[export] Instance real_number : Number := {|
  num := R;
  num_lit := IZR;
  num_add := Rplus;
  num_sub := Rminus;
  num_mul := Rmult;
  num_div := Rdiv;
  num_neg := Ropp;
  num_sqrt := R_sqrt.sqrt;
  num_abs := Rabs;
  num_min := Rmin;
  num_max := Rmax;
  num_eqb := Exact.eqb;
  num_ltb := Exact.ltb;
  num_leb := Exact.leb
|}.

(** ** The JavaScript heap *)

Definition loc := positive.

Section Heap.
Context {N : Number}.
Local Open Scope num_scope.

(** [ToBoolean] of a number: false for [0], [-0] and [NaN]. *)
Definition truthy (n : num) : bool := (n !== 0) && (n === n).

(** [n || d] where [n] is a number. *)
Definition num_or (n d : num) : num := if truthy n then n else d.

(** [n || d] where [n] is a parameter of type [?number]: [None] is an
    omitted ([undefined]) or [null] argument. *)
Definition arg_or (n : option num) (d : num) : num :=
  match n with Some n => num_or n d | None => d end.

(** The fields of a three.js [Vector3]. *)
Record vec3 := Vec3 { x : num; y : num; z : num }.

(** The fields of a [ConeFrustum]; [base] and [axis] hold references. *)
Record frustum := Frustum {
  base : loc;
  axis : loc;
  height : num;
  radius0 : num;
  radius1 : num
}.

(** A three.js [Box3] holds references to two vectors; the code never
    reassigns them, so a box is the pair of references. *)
Record box3 := Box3 { min : loc; max : loc }.

(** A three.js [Ray], likewise. *)
Record ray := Ray { origin : loc; direction : loc }.

Inductive object :=
| OVector3 (v : vec3)
| OConeFrustum (f : frustum).

Abbreviation heap := (gmap loc object).

(** What a call can evaluate to where the source returns something that
    is not always an object. *)
Inductive value :=
| VUndefined
| VNull
| VObject (l : loc).

(** A call either completes with a result and a new heap or throws a
    [TypeError] (a property read on [undefined] or on the wrong object). *)
Inductive outcome (A : Type) :=
| Ok (a : A) (h : heap)
| TypeError.
Global Arguments Ok {A} a h.
Global Arguments TypeError {A}.

Definition js (A : Type) := heap -> outcome A.

(** What a caller sees of a completed call. *)
Definition result {A} (o : outcome A) : option A :=
  match o with Ok a _ => Some a | TypeError => None end.

Definition ret {A} (a : A) : js A := fun h => Ok a h.

Definition bind {A B} (c : js A) (k : A -> js B) : js B :=
  fun h => match c h with Ok a h' => k a h' | TypeError => TypeError end.

Definition throw {A} : js A := fun _ => TypeError.

Definition alloc (o : object) : js loc :=
  fun h => let l := fresh (dom h) in Ok l (<[l := o]> h).

Definition get_vec (l : loc) : js vec3 :=
  fun h => match h !! l with Some (OVector3 v) => Ok v h | _ => TypeError end.

Definition set_vec (l : loc) (v : vec3) : js unit :=
  fun h => match h !! l with
           | Some (OVector3 _) => Ok tt (<[l := OVector3 v]> h)
           | _ => TypeError
           end.

Definition get_frustum (l : loc) : js frustum :=
  fun h => match h !! l with Some (OConeFrustum f) => Ok f h | _ => TypeError end.

Definition set_frustum (l : loc) (f : frustum) : js unit :=
  fun h => match h !! l with
           | Some (OConeFrustum _) => Ok tt (<[l := OConeFrustum f]> h)
           | _ => TypeError
           end.

End Heap.

Abbreviation heap := (gmap loc object).

Notation "'let*' v ':=' c 'in' k" := (bind c (fun v => k))
  (at level 10, v binder, c at level 100, k at level 200,
   format "'[v' 'let*'  v  ':='  c  'in' '/' k ']'").

(** ** three.js *)

(** Modelled from the spec: the vector, box and ray types come from the
    external library [three-full] (spec sections 1 and 6 list them as
    opaque capabilities: add, subtract, dot, scale-and-add, normalize,
    length, equality, box from two corners, union).  Each method below is
    the library's: it reads its operands, combines them component by
    component and writes the receiver.  The constructor of the library
    stores [x || 0], [y || 0] and [z || 0], and [clone()] goes through the
    constructor, so a clone has 0 where the original has [NaN] or [-0]. *)
Module Vector3.
Section Vector3.
Context {N : Number}.
Local Open Scope num_scope.

(** The arithmetic of each method on field values. *)

Definition add (a b : vec3) : vec3 :=
  Vec3 (a.(x) + b.(x)) (a.(y) + b.(y)) (a.(z) + b.(z)).

Definition sub (a b : vec3) : vec3 :=
  Vec3 (a.(x) - b.(x)) (a.(y) - b.(y)) (a.(z) - b.(z)).

Definition scale (a : vec3) (s : num) : vec3 :=
  Vec3 (a.(x) * s) (a.(y) * s) (a.(z) * s).

Definition add_scaled (a v : vec3) (s : num) : vec3 :=
  Vec3 (a.(x) + v.(x) * s) (a.(y) + v.(y) * s) (a.(z) + v.(z) * s).

Definition dot_product (a v : vec3) : num :=
  a.(x) * v.(x) + a.(y) * v.(y) + a.(z) * v.(z).

Definition norm (a : vec3) : num :=
  num_sqrt (a.(x) * a.(x) + a.(y) * a.(y) + a.(z) * a.(z)).

Definition normalized (a : vec3) : vec3 :=
  scale a (1 / num_or (norm a) 1).

Definition lower (a v : vec3) : vec3 :=
  Vec3 (num_min a.(x) v.(x)) (num_min a.(y) v.(y)) (num_min a.(z) v.(z)).

Definition upper (a v : vec3) : vec3 :=
  Vec3 (num_max a.(x) v.(x)) (num_max a.(y) v.(y)) (num_max a.(z) v.(z)).

Definition same (a v : vec3) : bool :=
  (v.(x) === a.(x)) && (v.(y) === a.(y)) && (v.(z) === a.(z)).

(** What the constructor stores when it is passed the components of
    [a]: each component [c] as [c || 0]. *)
Definition stored (a : vec3) : vec3 :=
  Vec3 (num_or a.(x) 0) (num_or a.(y) 0) (num_or a.(z) 0).

(** The methods, on references. *)

(** [new Vector3( x, y, z )]; [None] is an omitted argument. *)
Definition new (x0 y0 z0 : option num) : js loc :=
  alloc (OVector3 (Vec3 (arg_or x0 0) (arg_or y0 0) (arg_or z0 0))).

(** [this.set( x, y, z )] *)
Definition set (this : loc) (x0 y0 z0 : num) : js loc :=
  let* _ := set_vec this (Vec3 x0 y0 z0) in
  ret this.

(** [this.clone()] is [new this.constructor( this.x, this.y, this.z )]. *)
Definition clone (this : loc) : js loc :=
  let* a := get_vec this in
  new (Some a.(x)) (Some a.(y)) (Some a.(z)).

(** [this.copy( v )] *)
Definition copy (this v : loc) : js loc :=
  let* w := get_vec v in
  let* _ := set_vec this w in
  ret this.

(** [this.addVectors( a, b )] *)
Definition addVectors (this a b : loc) : js loc :=
  let* va := get_vec a in
  let* vb := get_vec b in
  let* _ := set_vec this (add va vb) in
  ret this.

(** [this.subVectors( a, b )] *)
Definition subVectors (this a b : loc) : js loc :=
  let* va := get_vec a in
  let* vb := get_vec b in
  let* _ := set_vec this (sub va vb) in
  ret this.

(** [this.addScaledVector( v, s )] *)
Definition addScaledVector (this v : loc) (s : num) : js loc :=
  let* a := get_vec this in
  let* w := get_vec v in
  let* _ := set_vec this (add_scaled a w s) in
  ret this.

(** [this.multiplyScalar( scalar )] *)
Definition multiplyScalar (this : loc) (s : num) : js loc :=
  let* a := get_vec this in
  let* _ := set_vec this (scale a s) in
  ret this.

(** [this.divideScalar( scalar )] is [this.multiplyScalar( 1 / scalar )]. *)
Definition divideScalar (this : loc) (s : num) : js loc :=
  multiplyScalar this (1 / s).

(** [this.min( v )] *)
Definition min (this v : loc) : js loc :=
  let* a := get_vec this in
  let* w := get_vec v in
  let* _ := set_vec this (lower a w) in
  ret this.

(** [this.max( v )] *)
Definition max (this v : loc) : js loc :=
  let* a := get_vec this in
  let* w := get_vec v in
  let* _ := set_vec this (upper a w) in
  ret this.

(** [this.dot( v )] *)
Definition dot (this v : loc) : js num :=
  let* a := get_vec this in
  let* w := get_vec v in
  ret (dot_product a w).

(** [this.length()] *)
Definition length (this : loc) : js num :=
  let* a := get_vec this in
  ret (norm a).

(** [this.normalize()] is [this.divideScalar( this.length() || 1 )]. *)
Definition normalize (this : loc) : js loc :=
  let* len := length this in
  divideScalar this (num_or len 1).

(** [this.equals( v )] *)
Definition equals (this v : loc) : js bool :=
  let* a := get_vec this in
  let* w := get_vec v in
  ret (same a w).

End Vector3.
End Vector3.

Module Box3.
Section Box3.
Context {N : Number}.

(** [new Box3( min, max )] with both corners supplied. *)
Definition new (min0 max0 : loc) : js box3 := ret (Box3 min0 max0).

(** [this.union( box )] *)
Definition union (this box : box3) : js box3 :=
  let* _ := Vector3.min this.(min) box.(min) in
  let* _ := Vector3.max this.(max) box.(max) in
  ret this.

(** [this.copy( box )] *)
Definition copy (this box : box3) : js box3 :=
  let* _ := Vector3.copy this.(min) box.(min) in
  let* _ := Vector3.copy this.(max) box.(max) in
  ret this.

End Box3.
End Box3.

(** ** The class [ConeFrustum] *)

Module ConeFrustum.
Section ConeFrustum.
Context {N : Number}.
Local Open Scope num_scope.

(** [new ConeFrustum( base, axis, height, radius0, radius1 )].  The
    parameters are typed [?Vector3] and [?number]; [None] is an argument
    that is omitted or [null].  The new object is entered in the heap
    once its five fields are known. *)
Definition constructor (base0 axis0 : option loc)
    (height0 radius00 radius10 : option num) : js loc :=
  let* b := match base0 with
            | Some b => ret b
            | None => Vector3.new None None None
            end in
  let* a := match axis0 with
            | Some a => ret a
            | None => Vector3.new (Some 0) (Some 1) (Some 0)
            end in
  let* _ := Vector3.normalize a in
  alloc (OConeFrustum {|
    base := b;
    axis := a;
    height := arg_or height0 1;
    radius0 := arg_or radius00 0;
    radius1 := arg_or radius10 0
  |}).

(** [ConeFrustum.fromCapsule( center0, radius0, center1, radius1 )] *)
Definition fromCapsule (center0 : loc) (radius00 : num)
    (center1 : loc) (radius10 : num) : js loc :=
  let* axis0 := Vector3.new None None None in
  let* _ := Vector3.subVectors axis0 center1 center0 in
  let* unit0 := Vector3.clone axis0 in
  let* unit0 := Vector3.normalize unit0 in
  let* len := Vector3.length axis0 in
  constructor (Some center0) (Some unit0) (Some len)
    (Some radius00) (Some radius10).

(** [this.copy( frustum )]; the body has no [return], so the call
    evaluates to [undefined]. *)
Definition copy (this frustum0 : loc) : js value :=
  let* f := get_frustum frustum0 in
  let* b := Vector3.clone f.(base) in
  let* t := get_frustum this in
  let* _ := set_frustum this
              (Frustum b t.(axis) t.(height) t.(radius0) t.(radius1)) in
  let* f := get_frustum frustum0 in
  let* a := Vector3.clone f.(axis) in
  let* t := get_frustum this in
  let* _ := set_frustum this
              (Frustum t.(base) a t.(height) t.(radius0) t.(radius1)) in
  let* f := get_frustum frustum0 in
  let* t := get_frustum this in
  let* _ := set_frustum this
              (Frustum t.(base) t.(axis) f.(height) t.(radius0) t.(radius1)) in
  let* f := get_frustum frustum0 in
  let* t := get_frustum this in
  let* _ := set_frustum this
              (Frustum t.(base) t.(axis) t.(height) f.(radius0) t.(radius1)) in
  let* f := get_frustum frustum0 in
  let* t := get_frustum this in
  let* _ := set_frustum this
              (Frustum t.(base) t.(axis) t.(height) t.(radius0) f.(radius1)) in
  ret VUndefined.

(** [this.clone()] is [return new ConeFrustum().copy( this )]. *)
Definition clone (this : loc) : js value :=
  let* fresh0 := constructor None None None None None in
  copy fresh0 this.

(** [this.empty()] *)
Definition empty (this : loc) : js bool :=
  let* t := get_frustum this in
  ret ((t.(height) === 0) || ((t.(radius0) === 0) && (t.(radius1) === 0))).

(** [this.getBoundingBox( target )]; [None] is an omitted or [null]
    target. *)
Definition getBoundingBox (this : loc) (target : option box3) : js box3 :=
  let* t := get_frustum this in
  let* c := Vector3.clone t.(base) in
  let* d := Vector3.new None None None in
  let* a := get_vec t.(axis) in
  let* _ := Vector3.set d
              (num_sqrt (1 * a.(x) * a.(x)))
              (num_sqrt (1 * a.(y) * a.(y)))
              (num_sqrt (1 * a.(z) * a.(z))) in
  let* _ := Vector3.multiplyScalar d t.(radius0) in
  let* lo := Vector3.new None None None in
  let* lo := Vector3.subVectors lo c d in
  let* hi := Vector3.new None None None in
  let* hi := Vector3.addVectors hi c d in
  let* box1 := Box3.new lo hi in
  let* _ := Vector3.divideScalar d t.(radius0) in
  let* _ := Vector3.multiplyScalar d t.(radius1) in
  let* _ := Vector3.addScaledVector c t.(axis) t.(height) in
  let* lo := Vector3.new None None None in
  let* lo := Vector3.subVectors lo c d in
  let* hi := Vector3.new None None None in
  let* hi := Vector3.addVectors hi c d in
  let* box2 := Box3.new lo hi in
  let* _ := Box3.union box1 box2 in
  let* _ := match target with
            | Some tg => Box3.copy tg box1
            | None => ret box1
            end in
  ret box1.

(** [this.equals( frustum )]; the argument is whatever the caller
    passes, and reading a field of [undefined] or [null] throws. *)
Definition equals (this : loc) (frustum0 : value) : js bool :=
  match frustum0 with
  | VObject fl =>
      let* t := get_frustum this in
      let* f := get_frustum fl in
      let* eb := Vector3.equals t.(base) f.(base) in
      if eb then
        let* ea := Vector3.equals t.(axis) f.(axis) in
        ret (ea &&
             (t.(height) === f.(height)) &&
             (t.(radius0) === f.(radius0)) &&
             (t.(radius1) === f.(radius1)))
      else ret false
  | _ => throw
  end.

End ConeFrustum.
End ConeFrustum.

(** ** [Ray.prototype.intersectsConeFrustum] *)

(** The three vectors the method's closure allocates once, when the module
    is loaded, and reuses in every call. *)
Record closure := Closure { D : loc; target2 : loc; u : loc }.

Section Intersector.
Context {N : Number}.
Local Open Scope num_scope.

(** [Math.pow( b, 2 )] *)
Definition pow2 (b : num) : num := b * b.

(** [this.intersectsConeFrustum( frustum, target )]; [None] is an
    omitted or [null] target. *)
Definition intersectsConeFrustum (cl : closure) (this : ray)
    (frustum0 : loc) (target0 : option loc) : js value :=
  let target := match target0 with Some tg => tg | None => cl.(target2) end in
  let* f := get_frustum frustum0 in
  let deltaR := f.(radius1) - f.(radius0) in
  let r := 1 + pow2 (deltaR / f.(height)) in
  let R := f.(radius0) * deltaR / f.(height) in
  let* _ := Vector3.subVectors cl.(D) this.(origin) f.(base) in
  let* DdA := Vector3.dot cl.(D) f.(axis) in
  let* DdD := Vector3.dot cl.(D) cl.(D) in
  let* VdA := Vector3.dot this.(direction) f.(axis) in
  let* VdD := Vector3.dot this.(direction) cl.(D) in
  let* VdV := Vector3.dot this.(direction) this.(direction) in
  let c0 := f.(radius0) * f.(radius0) + 2 * R * DdA + r * DdA * DdA - DdD in
  let c1 := R * VdA + r * DdA * VdA - VdD in
  let c2 := r * VdA * VdA - VdV in
  if c2 !== 0 then
    let discr := c1 * c1 - c2 * c0 in
    if discr <? 0 then ret VNull
    else if discr === 0 then
      let t := (- c1) / c2 in
      let* _ := Vector3.copy cl.(u) cl.(D) in
      let* _ := Vector3.addScaledVector cl.(u) this.(direction) t in
      let* d := Vector3.dot f.(axis) cl.(u) in
      if (t >=? 0) && (d >=? 0) && (d <=? f.(height)) then
        let* _ := Vector3.addVectors cl.(target2) f.(base) cl.(u) in
        let* _ := Vector3.copy target cl.(target2) in
        ret (VObject cl.(target2))
      else ret VNull
    else
      let quantity := 0%nat in
      let root := num_sqrt discr in
      let t0 := (- c1 - root) / c2 in
      let* _ := Vector3.copy cl.(u) cl.(D) in
      let* _ := Vector3.addScaledVector cl.(u) this.(direction) t0 in
      let* d := Vector3.dot f.(axis) cl.(u) in
      let* quantity :=
        if (t0 >=? 0) && (d >=? 0) && (d <=? f.(height)) then
          let* _ := Vector3.addVectors cl.(target2) f.(base) cl.(u) in
          ret (S quantity)
        else ret quantity in
      let t1 := (- c1 + root) / c2 in
      let* _ := Vector3.copy cl.(u) cl.(D) in
      let* _ := Vector3.addScaledVector cl.(u) this.(direction) t1 in
      let* d := Vector3.dot f.(axis) cl.(u) in
      let* quantity :=
        if (t1 >=? 0) && (Nat.eqb quantity 0 || (t0 >? t1)) &&
           (d >=? 0) && (d <=? f.(height)) then
          let* _ := Vector3.addVectors cl.(target2) f.(base) cl.(u) in
          ret (S quantity)
        else ret quantity in
      let* _ := if Nat.eqb quantity 0 then ret target
                else Vector3.copy target cl.(target2) in
      ret (if Nat.eqb quantity 0 then VNull else VObject cl.(target2))
  else if c1 !== 0 then
    let t := num_neg 2 * c0 / c1 in
    let* _ := Vector3.copy cl.(u) cl.(D) in
    let* _ := Vector3.addScaledVector cl.(u) this.(direction) t in
    let* d := Vector3.dot f.(axis) cl.(u) in
    if (t >=? 0) && (d >=? 0) && (d <=? f.(height)) then
      let* _ := Vector3.addVectors cl.(target2) f.(base) cl.(u) in
      let* _ := Vector3.copy target cl.(target2) in
      ret (VObject target)
    else ret VNull
  else ret VNull.

End Intersector.

(** ** The intersection as a function of field values *)

Section Inputs.
Context {N : Number}.

(** What a call reads: the contents of the ray's origin and direction,
    of the frustum's base and axis, and the frustum's own fields. *)
Record inputs := Inputs {
  ray_origin : vec3;
  ray_direction : vec3;
  frustum_base : vec3;
  frustum_axis : vec3;
  frustum_fields : frustum
}.

End Inputs.

(** The same computation on the contents of the objects.  It serves to
    name [c0], [c1], [c2], the roots and the candidate points in the
    statements; [intersects_run] below shows the method computes it. *)
Module Quadratic.
Section Quadratic.
Context {N : Number}.
Local Open Scope num_scope.
Variable i : inputs.

Let o := i.(ray_origin).
Let v := i.(ray_direction).
Let b := i.(frustum_base).
Let a := i.(frustum_axis).
Let f := i.(frustum_fields).

Definition deltaR : num := f.(radius1) - f.(radius0).
Definition r : num := 1 + pow2 (deltaR / f.(height)).
Definition R : num := f.(radius0) * deltaR / f.(height).

(** The vector [D], from the base to the origin. *)
Definition offset : vec3 := Vector3.sub o b.

Definition DdA : num := Vector3.dot_product offset a.
Definition DdD : num := Vector3.dot_product offset offset.
Definition VdA : num := Vector3.dot_product v a.
Definition VdD : num := Vector3.dot_product v offset.
Definition VdV : num := Vector3.dot_product v v.

Definition c0 : num :=
  f.(radius0) * f.(radius0) + 2 * R * DdA + r * DdA * DdA - DdD.
Definition c1 : num := R * VdA + r * DdA * VdA - VdD.
Definition c2 : num := r * VdA * VdA - VdV.
Definition discr : num := c1 * c1 - c2 * c0.

(** The vector [u] at parameter [t], its axial coordinate [d], the test
    the method applies to a candidate, and the point it stores. *)
Definition along (t : num) : vec3 := Vector3.add_scaled offset v t.
Definition axial (t : num) : num := Vector3.dot_product a (along t).
Definition valid (t : num) : bool :=
  (t >=? 0) && (axial t >=? 0) && (axial t <=? f.(height)).
Definition point (t : num) : vec3 := Vector3.add b (along t).

Definition double_root : num := (- c1) / c2.
Definition t0 : num := (- c1 - num_sqrt discr) / c2.
Definition t1 : num := (- c1 + num_sqrt discr) / c2.
Definition linear_root : num := num_neg 2 * c0 / c1.

(** The parameter of the point the method reports, if any. *)
Definition nearest : option num :=
  if c2 !== 0 then
    if discr <? 0 then None
    else if discr === 0 then
      if valid double_root then Some double_root else None
    else if valid t1 && (negb (valid t0) || (t0 >? t1)) then Some t1
    else if valid t0 then Some t0
    else None
  else if c1 !== 0 then
    if valid linear_root then Some linear_root else None
  else None.

End Quadratic.
End Quadratic.

(** ** The bounding box as a function of field values *)

Section Corners.
Context {N : Number}.
Local Open Scope num_scope.

(** The vector [d] as [getBoundingBox] first sets it: the square roots of
    the squared components of the axis. *)
Definition spread (a : vec3) : vec3 :=
  Vec3 (num_sqrt (1 * a.(x) * a.(x)))
       (num_sqrt (1 * a.(y) * a.(y)))
       (num_sqrt (1 * a.(z) * a.(z))).

(** The two corners of the box [getBoundingBox] returns, from the
    contents [b] of the base and [a] of the axis: [d] scaled by [radius0]
    around the base, [d] scaled back and by [radius1] around the far
    center, and the union of the two boxes. *)
Definition box_corners (f : frustum) (b a : vec3) : vec3 * vec3 :=
  let d0 := Vector3.scale (spread a) f.(radius0) in
  let d1 := Vector3.scale (Vector3.scale d0 (1 / f.(radius0))) f.(radius1) in
  let c1 := Vector3.add_scaled b a f.(height) in
  (Vector3.lower (Vector3.sub b d0) (Vector3.sub c1 d1),
   Vector3.upper (Vector3.add b d0) (Vector3.add c1 d1)).

(** The box as the documentation words it: the union of two boxes, box
    [i] centered on end-cap center [i] with half-extents
    [radius_i * (|axis.x|, |axis.y|, |axis.z|)]. *)
Definition magnitudes (a : vec3) : vec3 :=
  Vec3 (num_abs a.(x)) (num_abs a.(y)) (num_abs a.(z)).

Definition centered (c e : vec3) : vec3 * vec3 :=
  (Vector3.sub c e, Vector3.add c e).

Definition union_of (p q : vec3 * vec3) : vec3 * vec3 :=
  (Vector3.lower (fst p) (fst q), Vector3.upper (snd p) (snd q)).

Definition documented_box (f : frustum) (b a : vec3) : vec3 * vec3 :=
  union_of
    (centered b (Vector3.scale (magnitudes a) f.(radius0)))
    (centered (Vector3.add_scaled b a f.(height))
       (Vector3.scale (magnitudes a) f.(radius1))).

End Corners.

(** A corner that is [NaN] in every component. *)
Definition all_nan (v : @vec3 float_number) : bool :=
  Double.is_nan v.(x) && Double.is_nan v.(y) && Double.is_nan v.(z).

(** ** The lateral surface *)

Section Surface.
Context {N : Number}.
Local Open Scope num_scope.

(** The surface the intersection is computed with: the radius grows
    linearly along the axis, from [radius0] at the base to [radius1] at
    [height].  For a point [p] with axial coordinate [d = axis . (p - base)]
    the gap is the square of its distance from the axis line (which is
    [|p - base|^2 - d^2] for an axis of length 1) less the square of the
    radius at [d]; the point is on the surface when the gap is 0. *)
Definition surface_gap (f : frustum) (b a p : vec3) : num :=
  let w := Vector3.sub p b in
  let d := Vector3.dot_product a w in
  let rho := f.(radius0) + d * ((f.(radius1) - f.(radius0)) / f.(height)) in
  Vector3.dot_product w w - d * d - rho * rho.

End Surface.

(** ** The objects of a call *)

Section Located.
Context {N : Number}.
Implicit Types (h : heap) (l : loc) (w : vec3).

(** [l] holds a vector / a frustum. *)
Definition vec_at h l w : Prop := h !! l = Some (OVector3 w).
Definition is_vec h l : Prop := exists w, vec_at h l w.
Definition frustum_at h l (f : frustum) : Prop := h !! l = Some (OConeFrustum f).

End Located.

Section Scene.
Context {N : Number}.
Local Open Scope num_scope.
Import Quadratic.
Variables (cl : closure) (ry : ray) (fl : loc) (tg : option loc) (i : inputs).

(** The vector the result is copied to: the caller's target, else the
    closure's own [target2]. *)
Definition target_of : loc :=
  match tg with Some l => l | None => cl.(target2) end.

(** The three vectors of the closure are distinct objects that the
    caller's ray and frustum do not reference. *)
Record separate : Prop := {
  separate_D_target2 : cl.(D) <> cl.(target2);
  separate_D_u : cl.(D) <> cl.(u);
  separate_u_target2 : cl.(u) <> cl.(target2);
  separate_origin :
    ry.(origin) <> cl.(D) /\ ry.(origin) <> cl.(target2) /\
    ry.(origin) <> cl.(u);
  separate_direction :
    ry.(direction) <> cl.(D) /\ ry.(direction) <> cl.(target2) /\
    ry.(direction) <> cl.(u);
  separate_base :
    i.(frustum_fields).(base) <> cl.(D) /\
    i.(frustum_fields).(base) <> cl.(target2) /\
    i.(frustum_fields).(base) <> cl.(u);
  separate_axis :
    i.(frustum_fields).(axis) <> cl.(D) /\
    i.(frustum_fields).(axis) <> cl.(target2) /\
    i.(frustum_fields).(axis) <> cl.(u)
}.

(** The heap holds the objects of the call with the contents [i]. *)
Record scene (h : heap) : Prop := {
  scene_frustum : frustum_at h fl i.(frustum_fields);
  scene_origin : vec_at h ry.(origin) i.(ray_origin);
  scene_direction : vec_at h ry.(direction) i.(ray_direction);
  scene_base : vec_at h i.(frustum_fields).(base) i.(frustum_base);
  scene_axis : vec_at h i.(frustum_fields).(axis) i.(frustum_axis);
  scene_D : is_vec h cl.(D);
  scene_target2 : is_vec h cl.(target2);
  scene_u : is_vec h cl.(u);
  scene_target : is_vec h target_of
}.

(** The object whose reference the method returns on a hit. *)
Definition reported : loc :=
  if c2 i !== 0 then cl.(target2) else target_of.

(** The caller's target, when one is passed, is none of the vectors the
    call reads. *)
Definition target_apart : Prop :=
  match tg with
  | Some l =>
      l <> ry.(origin) /\ l <> ry.(direction) /\
      l <> i.(frustum_fields).(base) /\ l <> i.(frustum_fields).(axis)
  | None => True
  end.

End Scene.

Arguments separate_D_target2 {N cl ry i} _.
Arguments separate_D_u {N cl ry i} _.
Arguments separate_u_target2 {N cl ry i} _.
Arguments separate_origin {N cl ry i} _.
Arguments separate_direction {N cl ry i} _.
Arguments separate_base {N cl ry i} _.
Arguments separate_axis {N cl ry i} _.
Arguments scene_frustum {N cl ry fl tg i} h _.
Arguments scene_origin {N cl ry fl tg i} h _.
Arguments scene_direction {N cl ry fl tg i} h _.
Arguments scene_base {N cl ry fl tg i} h _.
Arguments scene_axis {N cl ry fl tg i} h _.
Arguments scene_D {N cl ry fl tg i} h _.
Arguments scene_target2 {N cl ry fl tg i} h _.
Arguments scene_u {N cl ry fl tg i} h _.
Arguments scene_target {N cl ry fl tg i} h _.

(** ** Concrete scenes *)

(** Heaps to run the methods on.  Objects 1 to 5 are the caller's: the
    frustum's base and axis, the frustum, the ray's origin and direction;
    objects 6 to 8 are the closure's [D], [target2] and [u]. *)
Module Scenario.
Section Scenario.
Context {N : Number}.
Local Open Scope num_scope.

Definition scratch : closure := Closure 6%positive 7%positive 8%positive.
Definition the_ray : ray := Ray 4%positive 5%positive.

Definition lay (b a : vec3) (f : frustum) (o v : vec3) : heap :=
  list_to_map
    [ (1%positive, OVector3 b); (2%positive, OVector3 a);
      (3%positive, OConeFrustum f);
      (4%positive, OVector3 o); (5%positive, OVector3 v);
      (6%positive, OVector3 (Vec3 0 0 0)); (7%positive, OVector3 (Vec3 0 0 0));
      (8%positive, OVector3 (Vec3 0 0 0)) ].

(** A cylinder of radius 1 and height 2 around the y axis, and a ray that
    crosses it at height 1 from [x = 2] towards [-x]: it meets the surface
    at [t1 = 1] (the point [(1, 1, 0)]) and at [t0 = 3]. *)
Definition cylinder : frustum := Frustum 1%positive 2%positive 2 1 1.
Definition cylinder_inputs : inputs :=
  Inputs (Vec3 2 1 0) (Vec3 (num_lit (-1)) 0 0) (Vec3 0 0 0) (Vec3 0 1 0) cylinder.
Definition cylinder_heap : heap :=
  lay (Vec3 0 0 0) (Vec3 0 1 0) cylinder (Vec3 2 1 0) (Vec3 (num_lit (-1)) 0 0).

(** The same scene for a caller who built the frustum on the vector an
    earlier call returned: the frustum's base is the closure's [target2]
    (object 7, holding the origin of the coordinates). *)
Definition aliased_heap : heap :=
  <[3%positive := OConeFrustum (Frustum 7%positive 2%positive 2 1 1)]>
    cylinder_heap.

(** The call, and the contents of the vector it returns. *)
Definition hit_point (h : heap) : option (option vec3) :=
  result
    ((let* r := intersectsConeFrustum scratch the_ray 3%positive None in
      match r with
      | VObject l => let* p := get_vec l in ret (Some p)
      | _ => ret None
      end) h).

(** A cone widening from radius 1 to radius 9 over height 8, and a ray
    from [(-3, 0, 0)] along [(1, 1, 0)], parallel to the cone's slope:
    [c2 = 0], [c1 = 4], [c0 = -8]. *)
Definition cone : frustum :=
  Frustum 1%positive 2%positive (num_lit 8) 1 (num_lit 9).
Definition cone_inputs : inputs :=
  Inputs (Vec3 (num_lit (-3)) 0 0) (Vec3 1 1 0) (Vec3 0 0 0) (Vec3 0 1 0) cone.
Definition cone_heap : heap :=
  lay (Vec3 0 0 0) (Vec3 0 1 0) cone (Vec3 (num_lit (-3)) 0 0) (Vec3 1 1 0).


(** A ray that touches the cylinder: from [(1, 1, -1)] along [z], with
    [c2 = -1], [c1 = 1], [c0 = -1], a zero discriminant and [t = 1] (the
    point [(1, 1, 0)]). *)
Definition tangent_inputs : inputs :=
  Inputs (Vec3 1 1 (num_lit (-1))) (Vec3 0 0 1) (Vec3 0 0 0) (Vec3 0 1 0)
    cylinder.
Definition tangent_heap : heap :=
  lay (Vec3 0 0 0) (Vec3 0 1 0) cylinder (Vec3 1 1 (num_lit (-1))) (Vec3 0 0 1).

(** A cone with its apex at the base: [radius0 = 0], [radius1 = 1],
    height 1. *)
Definition apex : frustum := Frustum 1%positive 2%positive 1 0 1.
Definition apex_heap : heap :=
  lay (Vec3 0 0 0) (Vec3 0 1 0) apex (Vec3 2 1 0) (Vec3 (num_lit (-1)) 0 0).

(** The cylinder scene for a caller who passes a target vector of their
    own (object 9). *)
Definition target_heap : heap :=
  <[9%positive := OVector3 (Vec3 0 0 0)]> cylinder_heap.

(** The cylinder scene with a second cylinder of the same contents on
    vectors of its own (objects 9 to 11). *)
Definition twin : frustum := Frustum 9%positive 10%positive 2 1 1.
Definition twin_heap : heap :=
  <[11%positive := OConeFrustum twin]>
    (<[10%positive := OVector3 (Vec3 0 1 0)]>
       (<[9%positive := OVector3 (Vec3 0 0 0)]> cylinder_heap)).

(** [new ConeFrustum( base, axis, height, radius0, radius1 )] on two new
    vectors, and what the caller can then read: the frustum's fields and
    the contents of the two vectors it passed. *)
Definition construct_and_read (b a : vec3) (ht r0 r1 : option num)
  : js (frustum * vec3 * vec3 * loc * loc) :=
  let* lb := Vector3.new (Some b.(x)) (Some b.(y)) (Some b.(z)) in
  let* la := Vector3.new (Some a.(x)) (Some a.(y)) (Some a.(z)) in
  let* fl := ConeFrustum.constructor (Some lb) (Some la) ht r0 r1 in
  let* f := get_frustum fl in
  let* wb := get_vec lb in
  let* wa := get_vec la in
  ret (f, wb, wa, lb, la).

(** [ConeFrustum.fromCapsule( c0, r0, c1, r1 ).height] on two new vectors. *)
Definition capsule_height (c0 : vec3) (r0 : num) (c1 : vec3) (r1 : num) : js num :=
  let* l0 := Vector3.new (Some c0.(x)) (Some c0.(y)) (Some c0.(z)) in
  let* l1 := Vector3.new (Some c1.(x)) (Some c1.(y)) (Some c1.(z)) in
  let* fl := ConeFrustum.fromCapsule l0 r0 l1 r1 in
  let* f := get_frustum fl in
  ret f.(height).

(** The contents of [ConeFrustum.fromCapsule( c0, r0, c1, r1 ).axis] on
    two new vectors. *)
Definition capsule_axis (c0 : vec3) (r0 : num) (c1 : vec3) (r1 : num) : js vec3 :=
  let* l0 := Vector3.new (Some c0.(x)) (Some c0.(y)) (Some c0.(z)) in
  let* l1 := Vector3.new (Some c1.(x)) (Some c1.(y)) (Some c1.(z)) in
  let* fl := ConeFrustum.fromCapsule l0 r0 l1 r1 in
  let* f := get_frustum fl in
  get_vec f.(axis).

(** [new ConeFrustum( null, null, height, radius0, radius1 ).getBoundingBox()]
    and the contents of the box's two corners. *)
Definition bounding_corners (ht r0 r1 : num) : js (vec3 * vec3) :=
  let* fl := ConeFrustum.constructor None None (Some ht) (Some r0) (Some r1) in
  let* bx := ConeFrustum.getBoundingBox fl None in
  let* lo := get_vec bx.(min) in
  let* hi := get_vec bx.(max) in
  ret (lo, hi).

End Scenario.
End Scenario.

(** Scenes on doubles, where rounding shows. *)
Module Rounding.
Local Existing Instance float_number.
Local Open Scope float_scope.

Definition tenth : float := 0x1.999999999999ap-4.
Definition fifth : float := 0x1.999999999999ap-3.
Definition millionth : float := 0x1.0c6f7a0b5ed8dp-20.

(** A slab of the cylinder: base [(0, 0.1, 0)], height [0.2], radius 1,
    and the ray from [(2, 0.1, 0)] along [(-1, 0.2, 0)], which meets the
    surface at [t1 = 1], where the coordinate the method tests is [0.2]. *)
Definition slab : @frustum float_number :=
  Frustum (N := float_number) 1%positive 2%positive fifth 1 1.
Definition slab_heap : heap :=
  Scenario.lay (N := float_number)
    (Vec3 (N := float_number) 0 tenth 0) (Vec3 (N := float_number) 0 1 0) slab
    (Vec3 (N := float_number) 2 tenth 0)
    (Vec3 (N := float_number) (-1) fifth 0).

(** Whether the axis stored for the supplied vector [w] has a length
    within [1e-6] of 1. *)
Definition unit_within_tolerance (w : @vec3 float_number) : bool :=
  abs (Vector3.norm (N := float_number) (Vector3.normalized w) - 1)
  <=? millionth.

(** A component that is zero or of a magnitude between [2^-250] and
    [2^250]. *)
Definition moderate_number (c : float) : bool :=
  (c =? 0) || ((0x1p-250 <=? abs c) && (abs c <=? 0x1p+250)).

(** A vector of such components that are not all zero. *)
Definition moderate (w : @vec3 float_number) : bool :=
  moderate_number (x (N := float_number) w) &&
  moderate_number (y (N := float_number) w) &&
  moderate_number (z (N := float_number) w) &&
  negb ((x (N := float_number) w =? 0) && (y (N := float_number) w =? 0) &&
        (z (N := float_number) w =? 0)).

(** The vector [(a, b, c) * 2^k], for [k] from -500 to 500. *)
Definition scaled (a b c : float) (k : Z) : @vec3 float_number :=
  Vec3 (N := float_number) (Z.ldexp a k) (Z.ldexp b k) (Z.ldexp c k).
Definition exponents : list Z :=
  List.map (fun n => (Z.of_nat n - 500)%Z) (List.seq 0 1001).

End Rounding.

(** ** The reals that doubles stand for *)

(** What rounding does to the operations on doubles is stated on the
    real numbers that finite doubles stand for, read off the sign, the
    mantissa and the exponent that [Prim2SF] gives. *)

Definition bpow (e : Z) : R := powerRZ 2 e.

Definition sgn (s : bool) : R := if s then (-1)%R else 1%R.

(** The real number a finite double stands for; 0 for the others. *)
Definition val (x : spec_float) : R :=
  match x with
  | S754_finite s m e => (sgn s * (IZR (Zpos m) * bpow e))%R
  | _ => 0%R
  end.

(** The relative error of one rounded operation is at most [2^-52]. *)
Definition roundoff : R := bpow (-52).

(** Zero, or a normal number with an exponent between [lo] and [hi]. *)
Definition zn (x : spec_float) (lo hi : Z) : Prop :=
  match x with
  | S754_zero _ => True
  | S754_finite _ m e => Zpos (digits2_pos m) = 53%Z /\ (lo <= e <= hi)%Z
  | _ => False
  end.

(** A normal number with an exponent between [lo] and [hi]. *)
Definition normal (x : spec_float) (lo hi : Z) : Prop :=
  match x with
  | S754_finite _ m e => Zpos (digits2_pos m) = 53%Z /\ (lo <= e <= hi)%Z
  | _ => False
  end.

Definition nonneg (x : spec_float) : Prop :=
  match x with
  | S754_finite true _ _ => False
  | _ => True
  end.

Definition real_of (f : float) : R := val (Prim2SF f).
Definition ZN (f : float) (lo hi : Z) : Prop := zn (Prim2SF f) lo hi.
Definition NN (f : float) : Prop := nonneg (Prim2SF f).

(** [x] is within the relative distance [eps] of [y >= 0]. *)
Definition within (x y eps : R) : Prop :=
  ((1 - eps) * y <= x <= (1 + eps) * y)%R.

(** * Properties *)

(** ** Comparisons *)

(** The facts about comparisons that the proofs use.  They hold for
    doubles, where [NaN] compares false with everything, and for the
    reals. *)
Class NumberLaws (N : Number) : Prop := {
  num_ltb_asym : forall a b, num_ltb a b = true -> num_ltb b a = false;
  num_ltb_neq : forall a b, num_ltb a b = true -> num_eqb b a = false;
  num_ltb_leb : forall a b, num_ltb a b = true -> num_leb a b = true;
  num_leb_self : forall c a, num_leb c a = true -> num_leb a a = true;
  num_leb_total : forall a b,
    num_leb a a = true -> num_leb b b = true ->
    num_ltb b a = false -> num_leb a b = true
}.









Lemma real_eqb_true a b : Exact.eqb a b = true <-> a = b.
Proof. unfold Exact.eqb. destruct (Req_dec_T a b); split; congruence. Qed.

Lemma real_ltb_true a b : Exact.ltb a b = true <-> (a < b)%R.
Proof. unfold Exact.ltb. destruct (Rlt_dec a b); split; (congruence || tauto). Qed.

Lemma real_leb_true a b : Exact.leb a b = true <-> (a <= b)%R.
Proof. unfold Exact.leb. destruct (Rle_dec a b); split; (congruence || tauto). Qed.

Lemma real_eqb_false a b : Exact.eqb a b = false <-> a <> b.
Proof. unfold Exact.eqb. destruct (Req_dec_T a b); split; (congruence || tauto). Qed.

Lemma real_ltb_false a b : Exact.ltb a b = false <-> (b <= a)%R.
Proof.
  unfold Exact.ltb. destruct (Rlt_dec a b); split; try congruence; try lra.
Qed.

Lemma real_ltb_asym (a b : R) :
  Exact.ltb a b = true -> Exact.ltb b a = false.
Proof. rewrite real_ltb_true, real_ltb_false. lra. Qed.

Lemma real_ltb_neq (a b : R) :
  Exact.ltb a b = true -> Exact.eqb b a = false.
Proof. rewrite real_ltb_true, real_eqb_false. lra. Qed.

Lemma real_ltb_leb (a b : R) :
  Exact.ltb a b = true -> Exact.leb a b = true.
Proof. rewrite real_ltb_true, real_leb_true. lra. Qed.

Lemma real_leb_self (c a : R) :
  Exact.leb c a = true -> Exact.leb a a = true.
Proof. intros _. apply real_leb_true. lra. Qed.

Lemma real_leb_total (a b : R) :
  Exact.leb a a = true -> Exact.leb b b = true ->
  Exact.ltb b a = false -> Exact.leb a b = true.
Proof. intros _ _. rewrite real_ltb_false, real_leb_true. lra. Qed.

#[export] Instance real_laws : NumberLaws real_number.
Proof.
  split.
  - exact real_ltb_asym.
  - exact real_ltb_neq.
  - exact real_ltb_leb.
  - exact real_leb_self.
  - exact real_leb_total.
Qed.

(** ** Running the methods *)

Section Run.
Context {N : Number}.
Local Open Scope num_scope.
Implicit Types (h : heap) (l : loc) (w : vec3).

Lemma vec_at_is_vec h l w : vec_at h l w -> is_vec h l.
Proof. intros Hl. now exists w. Qed.

Lemma is_vec_insert h l l' w : is_vec h l -> is_vec (<[l' := OVector3 w]> h) l.
Proof.
  intros [w0 Hw]. unfold is_vec, vec_at in *.
  destruct (decide (l' = l)) as [->|Hne].
  - exists w. apply lookup_insert_eq.
  - exists w0. now rewrite lookup_insert_ne.
Qed.

Lemma vec_at_insert_eq h l w : vec_at (<[l := OVector3 w]> h) l w.
Proof. apply lookup_insert_eq. Qed.

Lemma vec_at_insert_ne h l l' w (ob : object) :
  l' <> l -> vec_at h l w -> vec_at (<[l' := ob]> h) l w.
Proof. intros Hne Hl. unfold vec_at. now rewrite lookup_insert_ne. Qed.

Lemma frustum_at_insert_eq h l (f : frustum) :
  frustum_at (<[l := OConeFrustum f]> h) l f.
Proof. apply lookup_insert_eq. Qed.

Lemma frustum_at_insert_ne h l l' (f : frustum) (ob : object) :
  l' <> l -> frustum_at h l f -> frustum_at (<[l' := ob]> h) l f.
Proof. intros Hne Hl. unfold frustum_at. now rewrite lookup_insert_ne. Qed.

Lemma frustum_at_insert_vec h l l' f w :
  is_vec h l' -> frustum_at h l f -> frustum_at (<[l' := OVector3 w]> h) l f.
Proof.
  intros [w0 Hw] Hl. unfold frustum_at, vec_at in *.
  rewrite lookup_insert_ne; [assumption|]. intros ->. congruence.
Qed.

Lemma fresh_lookup h : h !! fresh (dom h) = None.
Proof. apply not_elem_of_dom, is_fresh. Qed.

(** One equation per heap operation: what the call leaves for the rest
    of the method. *)

Lemma run_ret {A B} (x0 : A) (k : A -> js B) h :
  (let* r := ret x0 in k r) h = k x0 h.
Proof. reflexivity. Qed.

Lemma run_alloc {B} (ob : object) (k : loc -> js B) h :
  (let* l := alloc ob in k l) h = k (fresh (dom h)) (<[fresh (dom h) := ob]> h).
Proof. reflexivity. Qed.

Lemma run_get_vec {B} l w (k : vec3 -> js B) h :
  vec_at h l w -> (let* r := get_vec l in k r) h = k w h.
Proof. intros Hl. unfold bind, get_vec. now rewrite Hl. Qed.

Lemma run_set_vec {B} l w (k : unit -> js B) h :
  is_vec h l -> (let* r := set_vec l w in k r) h = k tt (<[l := OVector3 w]> h).
Proof. intros [w0 Hl]. unfold bind, set_vec. now rewrite Hl. Qed.

Lemma run_get_frustum {B} l f (k : frustum -> js B) h :
  frustum_at h l f -> (let* r := get_frustum l in k r) h = k f h.
Proof. intros Hl. unfold bind, get_frustum. now rewrite Hl. Qed.

Lemma run_set_frustum {B} l f f' (k : unit -> js B) h :
  frustum_at h l f ->
  (let* r := set_frustum l f' in k r) h = k tt (<[l := OConeFrustum f']> h).
Proof. intros Hl. unfold bind, set_frustum. now rewrite Hl. Qed.

Lemma bind_assoc {A B C} (c : js A) (k : A -> js B) (k' : B -> js C) h :
  (let* r := (let* q := c in k q) in k' r) h
  = (let* q := c in let* r := k q in k' r) h.
Proof. unfold bind. now destruct (c h). Qed.

Lemma run_new {B} x0 y0 z0 (k : loc -> js B) h :
  (let* l := Vector3.new x0 y0 z0 in k l) h
  = k (fresh (dom h))
      (<[fresh (dom h) :=
           OVector3 (Vec3 (arg_or x0 0) (arg_or y0 0) (arg_or z0 0))]> h).
Proof. reflexivity. Qed.

Lemma run_set {B} l x0 y0 z0 (k : loc -> js B) h :
  is_vec h l ->
  (let* r := Vector3.set l x0 y0 z0 in k r) h
  = k l (<[l := OVector3 (Vec3 x0 y0 z0)]> h).
Proof.
  intros Hl. unfold Vector3.set. rewrite bind_assoc, run_set_vec by assumption.
  reflexivity.
Qed.

Lemma run_clone {B} l w (k : loc -> js B) h :
  vec_at h l w ->
  (let* r := Vector3.clone l in k r) h
  = k (fresh (dom h)) (<[fresh (dom h) := OVector3 (Vector3.stored w)]> h).
Proof.
  intros Hl. unfold Vector3.clone.
  rewrite bind_assoc, (run_get_vec _ _ _ _ Hl), run_new. reflexivity.
Qed.

Lemma run_copy {B} l l' w (k : loc -> js B) h :
  is_vec h l -> vec_at h l' w ->
  (let* r := Vector3.copy l l' in k r) h = k l (<[l := OVector3 w]> h).
Proof.
  intros Hl Hl'. unfold Vector3.copy.
  rewrite bind_assoc, (run_get_vec _ _ _ _ Hl').
  rewrite bind_assoc, run_set_vec by assumption. reflexivity.
Qed.

Lemma run_addVectors {B} l la lb wa wb (k : loc -> js B) h :
  is_vec h l -> vec_at h la wa -> vec_at h lb wb ->
  (let* r := Vector3.addVectors l la lb in k r) h
  = k l (<[l := OVector3 (Vector3.add wa wb)]> h).
Proof.
  intros Hl Ha Hb. unfold Vector3.addVectors.
  rewrite bind_assoc, (run_get_vec _ _ _ _ Ha).
  rewrite bind_assoc, (run_get_vec _ _ _ _ Hb).
  rewrite bind_assoc, run_set_vec by assumption. reflexivity.
Qed.

Lemma run_subVectors {B} l la lb wa wb (k : loc -> js B) h :
  is_vec h l -> vec_at h la wa -> vec_at h lb wb ->
  (let* r := Vector3.subVectors l la lb in k r) h
  = k l (<[l := OVector3 (Vector3.sub wa wb)]> h).
Proof.
  intros Hl Ha Hb. unfold Vector3.subVectors.
  rewrite bind_assoc, (run_get_vec _ _ _ _ Ha).
  rewrite bind_assoc, (run_get_vec _ _ _ _ Hb).
  rewrite bind_assoc, run_set_vec by assumption. reflexivity.
Qed.

Lemma run_addScaledVector {B} l l' w w' s (k : loc -> js B) h :
  vec_at h l w -> vec_at h l' w' ->
  (let* r := Vector3.addScaledVector l l' s in k r) h
  = k l (<[l := OVector3 (Vector3.add_scaled w w' s)]> h).
Proof.
  intros Hl Hl'. unfold Vector3.addScaledVector.
  rewrite bind_assoc, (run_get_vec _ _ _ _ Hl).
  rewrite bind_assoc, (run_get_vec _ _ _ _ Hl').
  rewrite bind_assoc, run_set_vec by (eapply vec_at_is_vec; eassumption).
  reflexivity.
Qed.

Lemma run_multiplyScalar {B} l w s (k : loc -> js B) h :
  vec_at h l w ->
  (let* r := Vector3.multiplyScalar l s in k r) h
  = k l (<[l := OVector3 (Vector3.scale w s)]> h).
Proof.
  intros Hl. unfold Vector3.multiplyScalar.
  rewrite bind_assoc, (run_get_vec _ _ _ _ Hl).
  rewrite bind_assoc, run_set_vec by (eapply vec_at_is_vec; eassumption).
  reflexivity.
Qed.

Lemma run_divideScalar {B} l w s (k : loc -> js B) h :
  vec_at h l w ->
  (let* r := Vector3.divideScalar l s in k r) h
  = k l (<[l := OVector3 (Vector3.scale w (1 / s))]> h).
Proof. intros Hl. unfold Vector3.divideScalar. now apply run_multiplyScalar. Qed.

Lemma run_min {B} l l' w w' (k : loc -> js B) h :
  vec_at h l w -> vec_at h l' w' ->
  (let* r := Vector3.min l l' in k r) h
  = k l (<[l := OVector3 (Vector3.lower w w')]> h).
Proof.
  intros Hl Hl'. unfold Vector3.min.
  rewrite bind_assoc, (run_get_vec _ _ _ _ Hl).
  rewrite bind_assoc, (run_get_vec _ _ _ _ Hl').
  rewrite bind_assoc, run_set_vec by (eapply vec_at_is_vec; eassumption).
  reflexivity.
Qed.

Lemma run_max {B} l l' w w' (k : loc -> js B) h :
  vec_at h l w -> vec_at h l' w' ->
  (let* r := Vector3.max l l' in k r) h
  = k l (<[l := OVector3 (Vector3.upper w w')]> h).
Proof.
  intros Hl Hl'. unfold Vector3.max.
  rewrite bind_assoc, (run_get_vec _ _ _ _ Hl).
  rewrite bind_assoc, (run_get_vec _ _ _ _ Hl').
  rewrite bind_assoc, run_set_vec by (eapply vec_at_is_vec; eassumption).
  reflexivity.
Qed.

Lemma run_dot {B} l l' w w' (k : num -> js B) h :
  vec_at h l w -> vec_at h l' w' ->
  (let* r := Vector3.dot l l' in k r) h = k (Vector3.dot_product w w') h.
Proof.
  intros Hl Hl'. unfold Vector3.dot.
  rewrite bind_assoc, (run_get_vec _ _ _ _ Hl).
  rewrite bind_assoc, (run_get_vec _ _ _ _ Hl'). reflexivity.
Qed.

Lemma run_length {B} l w (k : num -> js B) h :
  vec_at h l w ->
  (let* r := Vector3.length l in k r) h = k (Vector3.norm w) h.
Proof.
  intros Hl. unfold Vector3.length.
  rewrite bind_assoc, (run_get_vec _ _ _ _ Hl). reflexivity.
Qed.

Lemma run_normalize {B} l w (k : loc -> js B) h :
  vec_at h l w ->
  (let* r := Vector3.normalize l in k r) h
  = k l (<[l := OVector3 (Vector3.normalized w)]> h).
Proof.
  intros Hl. unfold Vector3.normalize.
  rewrite bind_assoc, (run_length _ _ _ _ Hl).
  now rewrite (run_divideScalar _ _ _ _ _ Hl).
Qed.

Lemma run_equals {B} l l' w w' (k : bool -> js B) h :
  vec_at h l w -> vec_at h l' w' ->
  (let* r := Vector3.equals l l' in k r) h = k (Vector3.same w w') h.
Proof.
  intros Hl Hl'. unfold Vector3.equals.
  rewrite bind_assoc, (run_get_vec _ _ _ _ Hl).
  rewrite bind_assoc, (run_get_vec _ _ _ _ Hl'). reflexivity.
Qed.

Lemma bind_ret {A} (c : js A) h : (let* r := c in ret r) h = c h.
Proof. unfold bind, ret. now destruct (c h). Qed.

End Run.

(** ** The method computes [Quadratic.nearest] *)

Section SceneRun.
Context {N : Number}.
Local Open Scope num_scope.
Import Quadratic.
Variables (cl : closure) (ry : ray) (fl : loc) (tg : option loc) (i : inputs).
Hypothesis Hsep : separate cl ry i.

Local Abbreviation scene := (scene cl ry fl tg i).
Local Abbreviation target_of := (target_of cl tg).
Local Abbreviation reported := (reported cl tg i).

Lemma scene_write_D h w : scene h -> scene (<[cl.(D) := OVector3 w]> h).
Proof.
  destruct Hsep as [? ? ? (? & ? & ?) (? & ? & ?) (? & ? & ?) (? & ? & ?)].
  intros [Hf Ho Hv Hb Ha HD HT HU Htg].
  split; try (apply is_vec_insert; assumption);
    try (apply vec_at_insert_ne; [congruence | assumption]).
  now apply frustum_at_insert_vec.
Qed.

Lemma scene_write_u h w : scene h -> scene (<[cl.(u) := OVector3 w]> h).
Proof.
  destruct Hsep as [? ? ? (? & ? & ?) (? & ? & ?) (? & ? & ?) (? & ? & ?)].
  intros [Hf Ho Hv Hb Ha HD HT HU Htg].
  split; try (apply is_vec_insert; assumption);
    try (apply vec_at_insert_ne; [congruence | assumption]).
  now apply frustum_at_insert_vec.
Qed.

Lemma scene_write_target2 h w :
  scene h -> scene (<[cl.(target2) := OVector3 w]> h).
Proof.
  destruct Hsep as [? ? ? (? & ? & ?) (? & ? & ?) (? & ? & ?) (? & ? & ?)].
  intros [Hf Ho Hv Hb Ha HD HT HU Htg].
  split; try (apply is_vec_insert; assumption);
    try (apply vec_at_insert_ne; [congruence | assumption]).
  now apply frustum_at_insert_vec.
Qed.

(** Evaluating a candidate [t]: [u.copy( D )],
    [u.addScaledVector( this.direction, t )], [frustum.axis.dot( u )]. *)
Lemma run_candidate {B} h t (k : num -> js B) :
  scene h -> vec_at h cl.(D) (offset i) ->
  (let* _ := Vector3.copy cl.(u) cl.(D) in
   let* _ := Vector3.addScaledVector cl.(u) ry.(direction) t in
   let* d := Vector3.dot i.(frustum_fields).(axis) cl.(u) in
   k d) h
  = k (axial i t) (<[cl.(u) := OVector3 (along i t)]> h).
Proof.
  destruct Hsep as [? ? ? (? & ? & ?) (? & ? & ?) (? & ? & ?) (? & ? & ?)].
  intros [Hf Ho Hv Hb Ha HD HT HU Htg] HDo.
  rewrite (run_copy _ _ _ _ _ HU HDo).
  erewrite run_addScaledVector;
    [| apply vec_at_insert_eq
     | apply vec_at_insert_ne; [congruence | eassumption]].
  rewrite insert_insert_eq.
  erewrite run_dot;
    [| apply vec_at_insert_ne; [congruence | eassumption]
     | apply vec_at_insert_eq].
  reflexivity.
Qed.

(** Keeping a candidate: [target2.addVectors( frustum.base, u )]. *)
Lemma run_keep {B} h t (k : loc -> js B) :
  scene h -> vec_at h cl.(u) (along i t) ->
  (let* r := Vector3.addVectors cl.(target2) i.(frustum_fields).(base) cl.(u) in
   k r) h
  = k cl.(target2) (<[cl.(target2) := OVector3 (point i t)]> h).
Proof.
  intros [Hf Ho Hv Hb Ha HD HT HU Htg] Hu.
  now rewrite (run_addVectors _ _ _ _ _ _ _ HT Hb Hu).
Qed.

Lemma vec_at_insert_same (h : heap) l l' w :
  vec_at h l' w -> vec_at (<[l := OVector3 w]> h) l' w.
Proof.
  intros Hl. destruct (decide (l = l')) as [->|Hne].
  - apply vec_at_insert_eq.
  - now apply vec_at_insert_ne.
Qed.

Lemma andb_candidate (p q x y : bool) : p && q && x && y = (p && x && y) && q.
Proof. now destruct p, q, x, y. Qed.

(** What a call does, in a scene: it does not throw; it writes to the
    closure's three vectors and to the target only, and vectors stay
    vectors; it reports the point at [nearest], stored in [target2] and
    copied to the target; when it reports nothing, only [D] and [u] are
    written. *)
Lemma intersects_effect h :
  scene h ->
  match intersectsConeFrustum cl ry fl tg h with
  | Ok res h' =>
      (forall l, l <> cl.(D) -> l <> cl.(u) -> l <> cl.(target2) ->
                 l <> target_of -> h' !! l = h !! l) /\
      (forall l, is_vec h l -> is_vec h' l) /\
      match nearest i with
      | Some t =>
          res = VObject reported /\
          vec_at h' cl.(target2) (point i t) /\
          vec_at h' target_of (point i t)
      | None =>
          res = VNull /\
          (forall l, l <> cl.(D) -> l <> cl.(u) -> h' !! l = h !! l)
      end
  | TypeError => False
  end.
Proof.
  intros Hs0.
  pose proof (separate_u_target2 Hsep) as HUT.
  pose proof (separate_D_target2 Hsep) as HDT.
  pose proof (separate_D_u Hsep) as HDU.
  unfold intersectsConeFrustum.
  rewrite (run_get_frustum _ _ _ _ (scene_frustum _ Hs0)).
  cbv zeta.
  rewrite (run_subVectors _ _ _ _ _ _ _
             (scene_D _ Hs0) (scene_origin _ Hs0) (scene_base _ Hs0)).
  fold (offset i).
  assert (Hs : scene (<[cl.(D) := OVector3 (offset i)]> h))
    by now apply scene_write_D.
  assert (HD : vec_at (<[cl.(D) := OVector3 (offset i)]> h) cl.(D) (offset i))
    by apply vec_at_insert_eq.
  remember (<[cl.(D) := OVector3 (offset i)]> h) as h1 eqn:Eh1.
  rewrite (run_dot _ _ _ _ _ _ HD (scene_axis _ Hs)).
  rewrite (run_dot _ _ _ _ _ _ HD HD).
  rewrite (run_dot _ _ _ _ _ _ (scene_direction _ Hs) (scene_axis _ Hs)).
  rewrite (run_dot _ _ _ _ _ _ (scene_direction _ Hs) HD).
  rewrite (run_dot _ _ _ _ _ _ (scene_direction _ Hs) (scene_direction _ Hs)).
  fold target_of.
  fold (deltaR i) (R i) (r i) (DdA i) (DdD i) (VdA i) (VdD i) (VdV i).
  fold (c0 i) (c1 i) (c2 i). fold (discr i).
  fold (double_root i) (t0 i) (t1 i) (linear_root i).
  unfold nearest, reported.
  destruct (c2 i !== 0) eqn:Ec2.
  - destruct (discr i <? 0) eqn:Elt.
    { unfold ret. subst h1. split; [|split; [|split; [reflexivity|]]];
        intros; rewrite ?lookup_insert_ne by congruence;
        repeat apply is_vec_insert; auto. }
    destruct (discr i === 0) eqn:Eeq.
    + rewrite (run_candidate _ _ _ Hs HD).
      fold (valid i (double_root i)).
      destruct (valid i (double_root i)) eqn:Ev.
      * rewrite (run_keep _ (double_root i));
          [| now apply scene_write_u | apply vec_at_insert_eq].
        erewrite run_copy;
          [| apply is_vec_insert, is_vec_insert, (scene_target _ Hs)
           | apply vec_at_insert_eq ].
        unfold ret. subst h1. split; [|split; [|split; [reflexivity|split]]].
        -- intros; rewrite ?lookup_insert_ne by congruence; reflexivity.
        -- intros; repeat apply is_vec_insert; assumption.
        -- apply vec_at_insert_same, vec_at_insert_eq.
        -- apply vec_at_insert_eq.
      * unfold ret. subst h1. split; [|split; [|split; [reflexivity|]]];
          intros; rewrite ?lookup_insert_ne by congruence;
          repeat apply is_vec_insert; auto.
    + rewrite (run_candidate _ _ _ Hs HD).
      fold (valid i (t0 i)).
      assert (Hs1 : scene (<[cl.(u) := OVector3 (along i (t0 i))]> h1))
        by now apply scene_write_u.
      assert (HD1 : vec_at (<[cl.(u) := OVector3 (along i (t0 i))]> h1)
                      cl.(D) (offset i))
        by (apply vec_at_insert_ne; [congruence | assumption]).
      destruct (valid i (t0 i)) eqn:Ev0.
      * rewrite bind_assoc.
        rewrite (run_keep _ (t0 i)) by (assumption || apply vec_at_insert_eq).
        rewrite run_ret.
        rewrite run_candidate;
          [| now apply scene_write_target2
           | apply vec_at_insert_ne; [congruence | assumption]].
        rewrite andb_candidate. fold (valid i (t1 i)). simpl.
        destruct (valid i (t1 i) && (t1 i <? t0 i)) eqn:Ev1.
        -- rewrite bind_assoc.
           rewrite (run_keep _ (t1 i));
             [| now apply scene_write_u, scene_write_target2
              | apply vec_at_insert_eq].
           rewrite run_ret. simpl.
           erewrite run_copy;
             [| do 4 apply is_vec_insert; apply (scene_target _ Hs)
              | apply vec_at_insert_eq ].
           unfold ret. subst h1. split; [|split; [|split; [reflexivity|split]]].
           ++ intros; rewrite ?lookup_insert_ne by congruence; reflexivity.
           ++ intros; repeat apply is_vec_insert; assumption.
           ++ apply vec_at_insert_same, vec_at_insert_eq.
           ++ apply vec_at_insert_eq.
        -- rewrite run_ret. simpl.
           erewrite run_copy;
             [| do 3 apply is_vec_insert; apply (scene_target _ Hs)
              | apply vec_at_insert_ne; [assumption | apply vec_at_insert_eq] ].
           unfold ret. subst h1. split; [|split; [|split; [reflexivity|split]]].
           ++ intros; rewrite ?lookup_insert_ne by congruence; reflexivity.
           ++ intros; repeat apply is_vec_insert; assumption.
           ++ apply vec_at_insert_same, vec_at_insert_ne;
                [assumption | apply vec_at_insert_eq].
           ++ apply vec_at_insert_eq.
      * rewrite run_ret.
        rewrite run_candidate by assumption.
        rewrite andb_candidate. fold (valid i (t1 i)). simpl.
        rewrite !andb_true_r.
        destruct (valid i (t1 i)) eqn:Ev1.
        -- rewrite bind_assoc.
           rewrite (run_keep _ (t1 i));
             [| now apply scene_write_u | apply vec_at_insert_eq].
           rewrite run_ret. simpl.
           erewrite run_copy;
             [| do 3 apply is_vec_insert; apply (scene_target _ Hs)
              | apply vec_at_insert_eq ].
           unfold ret. subst h1. split; [|split; [|split; [reflexivity|split]]].
           ++ intros; rewrite ?lookup_insert_ne by congruence; reflexivity.
           ++ intros; repeat apply is_vec_insert; assumption.
           ++ apply vec_at_insert_same, vec_at_insert_eq.
           ++ apply vec_at_insert_eq.
        -- rewrite run_ret. simpl.
           unfold ret. subst h1. split; [|split; [|split; [reflexivity|]]];
             intros; rewrite ?lookup_insert_ne by congruence;
             repeat apply is_vec_insert; auto.
  - destruct (c1 i !== 0) eqn:Ec1.
    + rewrite (run_candidate _ _ _ Hs HD).
      fold (valid i (linear_root i)).
      destruct (valid i (linear_root i)) eqn:Ev.
      * rewrite (run_keep _ (linear_root i));
          [| now apply scene_write_u | apply vec_at_insert_eq].
        erewrite run_copy;
          [| apply is_vec_insert, is_vec_insert, (scene_target _ Hs)
           | apply vec_at_insert_eq ].
        unfold ret. subst h1. split; [|split; [|split; [reflexivity|split]]].
        -- intros; rewrite ?lookup_insert_ne by congruence; reflexivity.
        -- intros; repeat apply is_vec_insert; assumption.
        -- apply vec_at_insert_same, vec_at_insert_eq.
        -- apply vec_at_insert_eq.
      * unfold ret. subst h1. split; [|split; [|split; [reflexivity|]]];
          intros; rewrite ?lookup_insert_ne by congruence;
          repeat apply is_vec_insert; auto.
    + unfold ret. subst h1. split; [|split; [|split; [reflexivity|]]];
        intros; rewrite ?lookup_insert_ne by congruence;
        repeat apply is_vec_insert; auto.
Qed.

Lemma intersects_run h :
  scene h ->
  match intersectsConeFrustum cl ry fl tg h with
  | Ok res h' =>
      match nearest i with
      | Some t => res = VObject reported /\ vec_at h' reported (point i t)
      | None => res = VNull
      end
  | TypeError => False
  end.
Proof.
  intros Hs. pose proof (intersects_effect h Hs) as He.
  destruct (intersectsConeFrustum cl ry fl tg h) as [res h'|]; [|exact He].
  destruct He as (_ & _ & He).
  destruct (nearest i) as [t|]; [|exact (proj1 He)].
  destruct He as (Hres & H2 & Htg). split; [exact Hres|].
  unfold reported. now destruct (c2 i !== 0).
Qed.

End SceneRun.

Section IntersectsFacts.
Context {N : Number}.
Local Open Scope num_scope.
Import Quadratic.
Variables (cl : closure) (ry : ray) (fl : loc) (tg : option loc) (i : inputs).
Hypothesis Hsep : separate cl ry i.

Lemma intersects_hit h t :
  scene cl ry fl tg i h -> nearest i = Some t ->
  exists h',
    intersectsConeFrustum cl ry fl tg h = Ok (VObject (reported cl tg i)) h' /\
    vec_at h' (reported cl tg i) (point i t).
Proof.
  intros Hs Hn. pose proof (intersects_run cl ry fl tg i Hsep h Hs) as Hrun.
  destruct (intersectsConeFrustum cl ry fl tg h) as [res h'|]; [|contradiction].
  rewrite Hn in Hrun. destruct Hrun as [-> Hp]. now exists h'.
Qed.

Lemma intersects_miss h :
  scene cl ry fl tg i h -> nearest i = None ->
  exists h', intersectsConeFrustum cl ry fl tg h = Ok VNull h'.
Proof.
  intros Hs Hn. pose proof (intersects_run cl ry fl tg i Hsep h Hs) as Hrun.
  destruct (intersectsConeFrustum cl ry fl tg h) as [res h'|]; [|contradiction].
  rewrite Hn in Hrun. subst res. now exists h'.
Qed.

Lemma intersects_object h l h' :
  scene cl ry fl tg i h ->
  intersectsConeFrustum cl ry fl tg h = Ok (VObject l) h' ->
  exists t, nearest i = Some t /\ vec_at h' l (point i t).
Proof.
  intros Hs Hrun. pose proof (intersects_run cl ry fl tg i Hsep h Hs) as Hr.
  rewrite Hrun in Hr. destruct (nearest i) as [t|]; [|discriminate].
  destruct Hr as [[= ->] Hp]. now exists t.
Qed.

End IntersectsFacts.

Section NearestFacts.
Context {N : Number} {L : NumberLaws N}.
Local Open Scope num_scope.
Import Quadratic.
Variable i : inputs.

Lemma nearest_valid t : nearest i = Some t -> valid i t = true.
Proof.
  unfold nearest.
  destruct (c2 i !== 0).
  - destruct (discr i <? 0); [discriminate|].
    destruct (discr i === 0).
    + destruct (valid i (double_root i)) eqn:E; congruence.
    + destruct (valid i (t1 i)) eqn:E1; simpl.
      * destruct (negb (valid i (t0 i)) || (t1 i <? t0 i)); [congruence|].
        destruct (valid i (t0 i)) eqn:E0; congruence.
      * destruct (valid i (t0 i)) eqn:E0; congruence.
  - destruct (c1 i !== 0); [|discriminate].
    destruct (valid i (linear_root i)) eqn:E; congruence.
Qed.


Lemma nearest_linear :
  (c2 i === 0) = true ->
  nearest i = if (c1 i !== 0) && valid i (linear_root i)
              then Some (linear_root i) else None.
Proof.
  intros E2. unfold nearest. rewrite E2. simpl.
  now destruct (c1 i !== 0), (valid i (linear_root i)).
Qed.


End NearestFacts.

(** ** Running the methods of [ConeFrustum] *)

(** Give the location allocated last a name, and record that it differs
    from every location written so far and is not in the initial heap. *)
Ltac name_fresh :=
  match goal with
  | |- context [fresh (dom ?H)] =>
      let l := fresh "l" in
      let Hl := fresh "Hl" in
      pose proof (fresh_lookup H) as Hl;
      set (l := fresh (dom H)) in *; clearbody l;
      repeat (let Hne := fresh "Hne" in
              apply lookup_insert_None in Hl as [Hl Hne])
  end.

(** Two locations differ: by a recorded fact, or because they hold
    different things in the initial heap. *)
Ltac differ :=
  first
    [ assumption
    | apply not_eq_sym; assumption
    | let E := fresh in
      intros E; subst; unfold vec_at, frustum_at in *; congruence ].

(** What a location holds after a sequence of writes. *)
Ltac find :=
  lazymatch goal with
  | |- vec_at (<[?k := OVector3 _]> _) ?k _ => apply vec_at_insert_eq
  | |- vec_at (<[_ := _]> _) _ _ => apply vec_at_insert_ne; [differ | find]
  | |- vec_at _ _ _ => eassumption
  | |- is_vec _ _ => eapply vec_at_is_vec; find
  | |- frustum_at (<[?k := OConeFrustum _]> _) ?k _ => apply frustum_at_insert_eq
  | |- frustum_at (<[_ := _]> _) _ _ => apply frustum_at_insert_ne; [differ | find]
  | |- frustum_at _ _ _ => eassumption
  | |- <[_ := _]> _ !! _ = Some _ => rewrite lookup_insert_ne; [find | differ]
  | |- _ !! _ = Some _ => eassumption
  end.

(** Symbolic execution: rewrite the call at the head with its equation. *)
Ltac walk_step :=
  first
    [ rewrite run_ret
    | rewrite run_new; name_fresh
    | rewrite run_alloc; name_fresh
    | erewrite run_get_frustum by find
    | erewrite run_set_frustum by find
    | erewrite run_get_vec by find
    | erewrite run_set by find
    | erewrite run_clone by find; name_fresh
    | erewrite run_copy by find
    | erewrite run_addVectors by find
    | erewrite run_subVectors by find
    | erewrite run_addScaledVector by find
    | erewrite run_multiplyScalar by find
    | erewrite run_divideScalar by find
    | erewrite run_min by find
    | erewrite run_max by find
    | erewrite run_dot by find
    | erewrite run_length by find
    | erewrite run_normalize by find
    | erewrite run_equals by find
    | rewrite bind_assoc ].
Ltac walk := repeat (walk_step; cbv beta; rewrite ?insert_insert_eq).

Section Methods.
Context {N : Number}.
Local Open Scope num_scope.
Implicit Types (h : heap) (l : loc) (w : vec3) (f : frustum).

(** What the constructor leaves: a new frustum whose [base] and [axis] are
    the supplied objects, or new vectors where none is supplied (the axis
    as [new Vector3( 0, 1, 0 )] stores it), with the axis object
    normalized in place and nothing else written. *)
Lemma constructor_run base0 axis0 ht r0 r1 h :
  match axis0 with Some a => is_vec h a | None => True end ->
  exists fl f wa h',
    ConeFrustum.constructor base0 axis0 ht r0 r1 h = Ok fl h' /\
    frustum_at h' fl f /\ h !! fl = None /\
    (match base0 with
     | Some b => f.(base) = b
     | None => h !! f.(base) = None /\ vec_at h' f.(base) (Vec3 0 0 0)
     end) /\
    (match axis0 with
     | Some a => f.(axis) = a /\ vec_at h a wa
     | None => h !! f.(axis) = None /\ wa = Vector3.stored (Vec3 0 1 0)
     end) /\
    vec_at h' f.(axis) (Vector3.normalized wa) /\
    f.(height) = arg_or ht 1 /\
    f.(radius0) = arg_or r0 0 /\
    f.(radius1) = arg_or r1 0 /\
    (forall l ob, h !! l = Some ob -> l <> f.(axis) -> h' !! l = Some ob).
Proof.
  intros Ha. rewrite <- bind_ret. unfold ConeFrustum.constructor.
  destruct base0 as [b|], axis0 as [a|];
    [destruct Ha as [wa Ha]| |destruct Ha as [wa Ha]|]; walk;
    [ eexists _, _, wa, _ | eexists _, _, (Vector3.stored (Vec3 0 1 0)), _
    | eexists _, _, wa, _ | eexists _, _, (Vector3.stored (Vec3 0 1 0)), _ ];
    (split; [reflexivity|]); (split; [find|]);
    repeat split; simpl; try reflexivity; try assumption; try find;
    intros; simpl in *; find.
Qed.

(** What [fromCapsule] leaves: a new frustum on [center0] itself and a
    new axis vector; no object of the old heap is written. *)
Lemma fromCapsule_run c0 r0 c1 r1 w0 w1 h :
  vec_at h c0 w0 -> vec_at h c1 w1 ->
  exists fl f h',
    ConeFrustum.fromCapsule c0 r0 c1 r1 h = Ok fl h' /\
    frustum_at h' fl f /\ h !! fl = None /\
    f.(base) = c0 /\
    h !! f.(axis) = None /\
    vec_at h' f.(axis)
      (Vector3.normalized
         (Vector3.normalized (Vector3.stored (Vector3.sub w1 w0)))) /\
    f.(height) = arg_or (Some (Vector3.norm (Vector3.sub w1 w0))) 1 /\
    f.(radius0) = arg_or (Some r0) 0 /\
    f.(radius1) = arg_or (Some r1) 0 /\
    (forall l ob, h !! l = Some ob -> h' !! l = Some ob).
Proof.
  intros H0 H1. rewrite <- bind_ret.
  unfold ConeFrustum.fromCapsule, ConeFrustum.constructor. walk.
  eexists _, _, _. split; [reflexivity|]. split; [find|].
  repeat split; simpl; try reflexivity; try assumption; try find.
  intros; find.
Qed.

(** What [copy] leaves when [this] is another object than [frustum]:
    [this] refers to new vectors holding the contents of the other
    frustum's base and axis, and has its three numbers; the call evaluates
    to [undefined]. *)
Lemma copy_run this fr t f wb wa h :
  this <> fr ->
  frustum_at h this t -> frustum_at h fr f ->
  vec_at h f.(base) wb -> vec_at h f.(axis) wa ->
  exists t' h',
    ConeFrustum.copy this fr h = Ok VUndefined h' /\
    frustum_at h' this t' /\
    h !! t'.(base) = None /\ h !! t'.(axis) = None /\
    vec_at h' t'.(base) (Vector3.stored wb) /\
    vec_at h' t'.(axis) (Vector3.stored wa) /\
    t'.(height) = f.(height) /\
    t'.(radius0) = f.(radius0) /\
    t'.(radius1) = f.(radius1) /\
    (forall l ob, h !! l = Some ob -> l <> this -> h' !! l = Some ob).
Proof.
  intros Hne Ht Hf Hb Ha. rewrite <- bind_ret. unfold ConeFrustum.copy.
  walk.
  eexists _, _. split; [reflexivity|]. split; [find|].
  repeat split; simpl; try reflexivity; try assumption; try find.
  intros; find.
Qed.

(** [clone] allocates a default frustum, copies [this] into it, and
    evaluates to what [copy] evaluates to. *)
Lemma clone_run this f wb wa h :
  frustum_at h this f ->
  vec_at h f.(base) wb -> vec_at h f.(axis) wa ->
  exists l' f' h',
    ConeFrustum.clone this h = Ok VUndefined h' /\
    h !! l' = None /\ frustum_at h' l' f' /\
    h !! f'.(base) = None /\ h !! f'.(axis) = None /\
    vec_at h' f'.(base) (Vector3.stored wb) /\
    vec_at h' f'.(axis) (Vector3.stored wa) /\
    f'.(height) = f.(height) /\
    f'.(radius0) = f.(radius0) /\
    f'.(radius1) = f.(radius1) /\
    (forall l ob, h !! l = Some ob -> h' !! l = Some ob).
Proof.
  intros Hf Hb Ha. unfold ConeFrustum.clone.
  destruct (constructor_run None None None None None h I)
    as (fl & d & wd & h1 & Hrun & Hfl & Hnew & _ & (Hax & _) & _ & _ & _ & _ & Hkeep).
  unfold bind. rewrite Hrun.
  assert (Hold : forall l ob, h !! l = Some ob -> h1 !! l = Some ob).
  { intros l ob Hl. apply Hkeep; [assumption|]. intros ->. congruence. }
  assert (Hgone : forall l, h1 !! l = None -> h !! l = None).
  { intros l Hl. destruct (h !! l) as [ob|] eqn:E; [|reflexivity].
    apply Hold in E. congruence. }
  assert (Hthis : fl <> this).
  { intros ->. unfold frustum_at in Hf. congruence. }
  destruct (copy_run fl this d f wb wa h1 Hthis Hfl (Hold _ _ Hf)
              (Hold _ _ Hb) (Hold _ _ Ha))
    as (t' & h' & Hcopy & Ht' & Hb' & Ha' & Hwb & Hwa & Hh & Hr0 & Hr1 & Hkeep').
  exists fl, t', h'. repeat split; try assumption; try (now apply Hgone).
  intros l ob Hl. apply Hkeep'; [now apply Hold|]. intros ->. congruence.
Qed.

(** What [getBoundingBox] leaves: a new box on two new vectors holding
    [box_corners] of the cloned base; a supplied target with two distinct
    corner vectors ends with the same contents, and the new box is
    returned either way. *)
Lemma getBoundingBox_run this f b a tg h :
  frustum_at h this f -> vec_at h f.(base) b -> vec_at h f.(axis) a ->
  match tg with
  | Some t => is_vec h t.(min) /\ is_vec h t.(max) /\ t.(min) <> t.(max)
  | None => True
  end ->
  exists bx h',
    ConeFrustum.getBoundingBox this tg h = Ok bx h' /\
    h !! bx.(min) = None /\ h !! bx.(max) = None /\
    vec_at h' bx.(min) (fst (box_corners f (Vector3.stored b) a)) /\
    vec_at h' bx.(max) (snd (box_corners f (Vector3.stored b) a)) /\
    match tg with
    | Some t => vec_at h' t.(min) (fst (box_corners f (Vector3.stored b) a)) /\
                vec_at h' t.(max) (snd (box_corners f (Vector3.stored b) a))
    | None => True
    end.
Proof.
  intros Hf Hb Ha Htg. rewrite <- bind_ret.
  unfold ConeFrustum.getBoundingBox, Box3.new, Box3.union, Box3.copy.
  destruct tg as [[tmin tmax]|].
  - simpl in Htg. destruct Htg as ([wmin Hmin] & [wmax Hmax] & Hne).
    walk. simpl. walk.
    eexists _, _. split; [reflexivity|]. simpl.
    repeat split; try assumption; try find.
  - walk. simpl. walk.
    eexists _, _. split; [reflexivity|]. simpl.
    repeat split; try assumption; try find.
Qed.

End Methods.

(** ** Exact arithmetic *)

Section ExactArithmetic.
Local Open Scope R_scope.
Implicit Types (w : @vec3 real_number) (i : @inputs real_number).

Lemma real_truthy (n : R) : n <> 0 -> truthy (N := real_number) n = true.
Proof.
  intros Hn. unfold truthy. simpl.
  apply andb_true_intro. split.
  - apply negb_true_iff, real_eqb_false. exact Hn.
  - now apply real_eqb_true.
Qed.

Lemma real_num_or (n d : R) : n <> 0 -> num_or (N := real_number) n d = n.
Proof. intros Hn. unfold num_or. now rewrite real_truthy. Qed.

Lemma real_num_or_zero (n : R) : num_or (N := real_number) n 0 = n.
Proof.
  unfold num_or, truthy. simpl.
  destruct (Exact.eqb n 0) eqn:E; simpl.
  - apply real_eqb_true in E. now subst.
  - destruct (Exact.eqb n n) eqn:E'; [reflexivity|].
    apply real_eqb_false in E'. congruence.
Qed.

(** On reals the constructor stores the components as they are. *)
Lemma real_stored w : Vector3.stored w = w.
Proof.
  destruct w as [a b c]. unfold Vector3.stored. simpl.
  now rewrite !real_num_or_zero.
Qed.

Lemma sum_squares_nonneg (a b c : R) : 0 <= a * a + b * b + c * c.
Proof. nra. Qed.

Lemma norm_squared w :
  Vector3.norm w * Vector3.norm w = x w * x w + y w * y w + z w * z w.
Proof. unfold Vector3.norm. simpl. apply sqrt_sqrt, sum_squares_nonneg. Qed.

Lemma norm_nonzero w : w <> Vec3 0 0 0 -> Vector3.norm w <> 0.
Proof.
  intros Hw Hn. apply Hw. pose proof (norm_squared w) as Hs.
  rewrite Hn in Hs. destruct w as [a b c]. simpl in *.
  assert (a = 0) by nra. assert (b = 0) by nra. assert (c = 0) by nra.
  now subst.
Qed.

Lemma scaled_squares (a b c n : R) :
  n <> 0 -> n * n = a * a + b * b + c * c ->
  a * (1 / n) * (a * (1 / n)) + b * (1 / n) * (b * (1 / n))
  + c * (1 / n) * (c * (1 / n)) = 1.
Proof.
  intros Hn Hs.
  transitivity ((a * a + b * b + c * c) / (n * n)).
  - field. exact Hn.
  - rewrite <- Hs. field. exact Hn.
Qed.

(** A vector of non-zero length is normalized to length one. *)
Lemma norm_normalized w :
  Vector3.norm w <> 0 -> Vector3.norm (Vector3.normalized w) = 1.
Proof.
  intros Hn. pose proof (norm_squared w) as Hs.
  unfold Vector3.normalized. rewrite (real_num_or _ _ Hn).
  set (n := Vector3.norm w) in *.
  change (R_sqrt.sqrt
            (x w * (1 / n) * (x w * (1 / n)) + y w * (1 / n) * (y w * (1 / n))
             + z w * (1 / n) * (z w * (1 / n))) = 1).
  rewrite (scaled_squares _ _ _ _ Hn Hs). apply sqrt_1.
Qed.

(** Normalizing a vector of length one leaves it as it is. *)
Lemma normalized_unit w : Vector3.norm w = 1 -> Vector3.normalized w = w.
Proof.
  intros Hn. unfold Vector3.normalized. rewrite Hn.
  rewrite real_num_or by (simpl; lra).
  destruct w as [a b c]. unfold Vector3.scale. simpl.
  f_equal; change (@num real_number) with R; field.
Qed.

Lemma normalized_twice w :
  Vector3.norm w <> 0 ->
  Vector3.normalized (Vector3.normalized w) = Vector3.normalized w.
Proof. intros Hn. now apply normalized_unit, norm_normalized. Qed.

Lemma norm_default_axis : Vector3.norm (N := real_number) (Vec3 0 1 0) = 1.
Proof.
  unfold Vector3.norm. simpl.
  replace (0 * 0 + 1 * 1 + 0 * 0) with 1 by ring. apply sqrt_1.
Qed.

(** The stored point is the point of the ray at parameter [t]. *)
Lemma point_on_ray i t :
  Quadratic.point i t = Vector3.add_scaled i.(ray_origin) i.(ray_direction) t.
Proof.
  unfold Quadratic.point, Quadratic.along, Quadratic.offset, Vector3.add,
    Vector3.sub, Vector3.add_scaled.
  simpl. f_equal; change (@num real_number) with R; ring.
Qed.

(** The axial coordinate of the stored point is the [d] that was tested. *)
Lemma axial_of_point i t :
  Vector3.dot_product i.(frustum_axis)
    (Vector3.sub (Quadratic.point i t) i.(frustum_base))
  = Quadratic.axial i t.
Proof.
  unfold Quadratic.axial, Quadratic.point, Quadratic.along, Quadratic.offset, Vector3.dot_product,
    Vector3.add, Vector3.sub, Vector3.add_scaled.
  simpl. change (@num real_number) with R. ring.
Qed.

Lemma valid_real i t :
  Quadratic.valid i t = true ->
  0 <= t /\ 0 <= Quadratic.axial i t <= i.(frustum_fields).(height).
Proof.
  unfold Quadratic.valid. intros Hv.
  apply andb_prop in Hv as [Hv Hh]. apply andb_prop in Hv as [Ht Hd].
  simpl in *. apply real_leb_true in Ht, Hd, Hh. auto.
Qed.

Lemma sqrt_of_square (a : R) : R_sqrt.sqrt (1 * a * a) = Rabs a.
Proof.
  replace (1 * a * a) with (Rsqr a) by (unfold Rsqr; ring).
  apply sqrt_Rsqr_abs.
Qed.

Lemma spread_magnitudes (a : vec3) : spread a = magnitudes a.
Proof.
  unfold spread, magnitudes. simpl. now rewrite !sqrt_of_square.
Qed.

Lemma rescaled (s : vec3) (r0 r1 : R) :
  r0 <> 0 ->
  Vector3.scale (Vector3.scale (Vector3.scale s r0) (1 / r0)) r1
  = Vector3.scale s r1.
Proof.
  intros Hr. destruct s as [a b c]. unfold Vector3.scale. simpl.
  f_equal; change (@num real_number) with R; field; exact Hr.
Qed.

(** With [radius0] not zero, the corners computed are the documented
    ones. *)
Lemma box_corners_documented (f : frustum) (b a : vec3) :
  f.(radius0) <> 0 -> box_corners f b a = documented_box f b a.
Proof.
  intros Hr. unfold box_corners, documented_box, union_of, centered.
  cbv zeta. rewrite (rescaled _ _ _ Hr), spread_magnitudes. reflexivity.
Qed.

(** In exact arithmetic and with [radius0] not zero, [getBoundingBox]
    returns a new box holding the documented union, and overwrites a
    supplied target (on two distinct corner vectors) with it. *)
Lemma bounding_box_with_radius0 (h : heap) this (f : frustum) b a tg :
  frustum_at h this f -> vec_at h f.(base) b -> vec_at h f.(axis) a ->
  match tg with
  | Some t => is_vec h t.(min) /\ is_vec h t.(max) /\ t.(min) <> t.(max)
  | None => True
  end ->
  f.(radius0) <> 0 ->
  exists bx h',
    ConeFrustum.getBoundingBox this tg h = Ok bx h' /\
    h !! bx.(min) = None /\ h !! bx.(max) = None /\
    vec_at h' bx.(min) (fst (documented_box f b a)) /\
    vec_at h' bx.(max) (snd (documented_box f b a)) /\
    match tg with
    | Some t => vec_at h' t.(min) (fst (documented_box f b a)) /\
                vec_at h' t.(max) (snd (documented_box f b a))
    | None => True
    end.
Proof.
  intros Hf Hb Ha Htg Hr.
  pose proof (getBoundingBox_run this f b a tg h Hf Hb Ha Htg) as Hrun.
  rewrite real_stored, (box_corners_documented f b a Hr) in Hrun.
  exact Hrun.
Qed.

End ExactArithmetic.

(** ** Rounding on doubles *)

(** Every operation on doubles whose result is a normal number rounds
    with a relative error of at most [2^-52].  The lemmas follow the
    library's specification of the operations ([SpecFloat]): what the
    shifts leave of a mantissa, then each operation, then the errors
    through [Vector3.normalize] and [Vector3.length]. *)

Section RoundingOnDoubles.

Local Open Scope Z_scope.

(** *** Mantissas *)

Lemma digits_bounds (p : positive) :
  2 ^ (Zpos (digits2_pos p) - 1) <= Zpos p < 2 ^ Zpos (digits2_pos p).
Proof.
  induction p as [p IH|p IH|]; simpl digits2_pos.
  - rewrite Pos2Z.inj_succ.
    replace (Z.succ (Z.pos (digits2_pos p)) - 1) with (Z.pos (digits2_pos p) - 1 + 1) by lia.
    rewrite !Z.pow_succ_r by lia.
    rewrite Z.pow_add_r by lia. lia.
  - rewrite Pos2Z.inj_succ.
    replace (Z.succ (Z.pos (digits2_pos p)) - 1) with (Z.pos (digits2_pos p) - 1 + 1) by lia.
    rewrite !Z.pow_succ_r by lia.
    rewrite Z.pow_add_r by lia. lia.
  - simpl. lia.
Qed.

Lemma digits_unique (p : positive) (d : Z) :
  2 ^ (d - 1) <= Zpos p < 2 ^ d -> Zpos (digits2_pos p) = d.
Proof.
  intros [Hl Hu]. pose proof (digits_bounds p) as [Bl Bu].
  assert (0 < d).
  { destruct (Z_lt_le_dec 0 d) as [|Hd]; [assumption|].
    exfalso. assert (2 ^ d <= 2 ^ 0) by (apply Z.pow_le_mono_r; lia).
    simpl in *. lia. }
  destruct (Z.lt_trichotomy (Zpos (digits2_pos p)) d) as [Hlt|[Heq|Hgt]];
    [|assumption|]; exfalso.
  - assert (2 ^ Zpos (digits2_pos p) <= 2 ^ (d - 1))
      by (apply Z.pow_le_mono_r; lia). lia.
  - assert (2 ^ d <= 2 ^ (Zpos (digits2_pos p) - 1))
      by (apply Z.pow_le_mono_r; lia). lia.
Qed.

Lemma shr_m_1 (r : shr_record) :
  0 <= shr_m r -> shr_m (shr_1 r) = shr_m r / 2.
Proof.
  destruct r as [m r s]. simpl. intros Hm.
  destruct m as [|[p|p|]|p]; simpl shr_m; try reflexivity; try lia.
  - apply Z.div_unique with 1; lia.
  - apply Z.div_unique with 0; lia.
Qed.

Lemma pow2_xO (p : positive) : 2 ^ Zpos p~0 = 2 ^ Zpos p * 2 ^ Zpos p.
Proof. rewrite <- Z.pow_add_r by lia. f_equal. lia. Qed.

Lemma pow2_xI (p : positive) : 2 ^ Zpos p~1 = 2 * (2 ^ Zpos p * 2 ^ Zpos p).
Proof.
  rewrite <- Z.pow_add_r, <- Z.pow_succ_r by lia. f_equal. lia.
Qed.

Lemma shr_m_iter (p : positive) (r : shr_record) :
  0 <= shr_m r -> shr_m (SpecFloat.iter_pos shr_1 p r) = shr_m r / 2 ^ Zpos p.
Proof.
  revert r. induction p as [p IH|p IH|]; intros r Hr; simpl SpecFloat.iter_pos.
  - assert (H1 : 0 <= shr_m (shr_1 r))
      by (rewrite shr_m_1 by assumption; apply Z.div_pos; lia).
    assert (H2 : 0 <= shr_m (SpecFloat.iter_pos shr_1 p (shr_1 r)))
      by (rewrite IH by assumption; apply Z.div_pos; lia).
    rewrite IH, IH, shr_m_1 by assumption.
    rewrite !Z.div_div by lia.
    now rewrite pow2_xI.
  - assert (H2 : 0 <= shr_m (SpecFloat.iter_pos shr_1 p r))
      by (rewrite IH by assumption; apply Z.div_pos; lia).
    rewrite IH, IH by assumption.
    rewrite !Z.div_div by lia.
    now rewrite pow2_xO.
  - now rewrite shr_m_1.
Qed.

Lemma shr_m_of_loc m l : shr_m (shr_record_of_loc m l) = m.
Proof. now destruct l as [|[]]. Qed.

Lemma round_nearest_even_cases m l :
  round_nearest_even m l = m \/ round_nearest_even m l = m + 1.
Proof. destruct l as [|[]]; simpl; auto. destruct (Z.even m); auto. Qed.

(** What [shr] leaves of the mantissa. *)
Lemma shr_spec (r : shr_record) (e n : Z) :
  0 <= shr_m r -> 0 <= n ->
  shr_m (fst (shr r e n)) = shr_m r / 2 ^ n /\ snd (shr r e n) = e + n.
Proof.
  intros Hr Hn. destruct n as [|p|p]; simpl; try lia.
  - rewrite Z.div_1_r. split; [reflexivity|lia].
  - split; [now apply shr_m_iter|reflexivity].
Qed.

Lemma fexp_normal (k : Z) : -1074 <= k - 53 -> fexp prec emax k = k - 53.
Proof. intros H. unfold fexp, emin, prec, emax. lia. Qed.

(** Rounding a mantissa of at least 53 digits in the normal range. *)
Lemma round_aux_normal (s : bool) (m : positive) (e : Z) (l : location) :
  let d := Zpos (digits2_pos m) in
  53 <= d -> -1074 <= d + e - 53 -> d + e <= 1023 ->
  exists (m2 : positive) (e2 q : Z),
    binary_round_aux prec emax s (Zpos m) e l = S754_finite s m2 e2 /\
    Zpos (digits2_pos m2) = 53 /\
    (q = Zpos m / 2 ^ (d - 53) \/ q = Zpos m / 2 ^ (d - 53) + 1) /\
    (e2 = d + e - 53 \/ e2 = d + e - 52) /\
    Zpos m2 * 2 ^ (e2 - (d + e - 53)) = q.
Proof.
  intros d Hd Hlo Hhi.
  pose proof (digits_bounds m) as [Bl Bu]. fold d in Bl, Bu.
  set (n := d - 53). set (q1 := Zpos m / 2 ^ n).
  assert (Hq1 : 2 ^ 52 <= q1 < 2 ^ 53).
  { unfold q1. split.
    - apply Z.div_le_lower_bound; [lia|].
      rewrite <- Z.pow_add_r by lia. replace (n + 52) with (d - 1) by lia. lia.
    - apply Z.div_lt_upper_bound; [lia|].
      rewrite <- Z.pow_add_r by lia. replace (n + 53) with d by lia. lia. }
  unfold binary_round_aux, shr_fexp.
  change (Zdigits2 (Zpos m)) with d.
  rewrite fexp_normal by lia.
  replace (d + e - 53 - e) with n by lia.
  destruct (shr (shr_record_of_loc (Zpos m) l) e n) as [mrs' e'] eqn:E1.
  pose proof (shr_spec (shr_record_of_loc (Zpos m) l) e n) as S1.
  rewrite E1, shr_m_of_loc in S1. simpl fst in S1. simpl snd in S1.
  destruct S1 as [S1m S1e]; [lia|lia|]. fold q1 in S1m.
  set (r := round_nearest_even (shr_m mrs') (loc_of_shr_record mrs')).
  assert (Hr : r = q1 \/ r = q1 + 1).
  { unfold r. rewrite <- S1m. apply round_nearest_even_cases. }
  assert (Hrpos : 0 < r) by lia.
  destruct r as [|pr|pr] eqn:Er; try lia.
  destruct (Z_lt_le_dec (Zpos pr) (2 ^ 53)) as [Hlt|Hge].
  - (* no carry *)
    assert (Hdr : Zpos (digits2_pos pr) = 53) by (apply digits_unique; lia).
    simpl Zdigits2. rewrite Hdr.
    rewrite fexp_normal by lia.
    replace (53 + e' - 53 - e') with 0 by lia. simpl shr.
    cbn [shr_m].
    assert (Hle : (e' <=? emax - prec) = true)
      by (apply Z.leb_le; unfold emax, prec; lia).
    rewrite Hle.
    exists pr, e', (Zpos pr). split; [reflexivity|]. split; [exact Hdr|].
    split; [fold n; fold q1; lia|]. split; [lia|].
    replace (e' - (d + e - 53)) with 0 by lia. simpl. lia.
  - (* the mantissa was rounded up to 2^53 *)
    assert (Hpr : Zpos pr = 2 ^ 53) by lia.
    assert (Hdr : Zpos (digits2_pos pr) = 54)
      by (apply digits_unique; rewrite Hpr; simpl; lia).
    simpl Zdigits2. rewrite Hdr.
    rewrite fexp_normal by lia.
    replace (54 + e' - 53 - e') with 1 by lia.
    destruct (shr (shr_record_of_loc (Zpos pr) loc_Exact) e' 1) as [mrs'' e''] eqn:E2.
    pose proof (shr_spec (shr_record_of_loc (Zpos pr) loc_Exact) e' 1) as S2.
    rewrite E2, shr_m_of_loc in S2. simpl fst in S2. simpl snd in S2.
    destruct S2 as [S2m S2e]; [lia|lia|].
    rewrite Hpr in S2m. change (2 ^ 53 / 2 ^ 1) with (2 ^ 52) in S2m.
    rewrite S2m. change (2 ^ 52) with (Zpos (2 ^ 52)%positive).
    assert (Hle : (e'' <=? emax - prec) = true)
      by (apply Z.leb_le; unfold emax, prec; lia).
    rewrite Hle.
    exists (2 ^ 52)%positive, e'', (Zpos pr).
    split; [reflexivity|]. split; [reflexivity|].
    split; [fold n; fold q1; lia|]. split; [lia|].
    replace (e'' - (d + e - 53)) with 1 by lia. rewrite Hpr. reflexivity.
Qed.

Lemma digits_range (p : positive) (a b : Z) :
  0 <= a -> 2 ^ a <= Zpos p < 2 ^ b -> a < Zpos (digits2_pos p) <= b.
Proof.
  intros Ha [Hl Hu]. pose proof (digits_bounds p) as [Bl Bu].
  set (d := Zpos (digits2_pos p)) in *.
  split.
  - apply (Z.pow_lt_mono_r_iff 2); lia.
  - assert (d - 1 < b); [|lia].
    assert (0 <= b).
    { destruct (Z_lt_le_dec b 0) as [Hb|]; [|assumption].
      rewrite Z.pow_neg_r in Hu by assumption. lia. }
    apply (Z.pow_lt_mono_r_iff 2); lia.
Qed.

Lemma iter_xO (m k : positive) :
  Zpos (Pos.iter xO m k) = Zpos m * 2 ^ Zpos k.
Proof.
  induction k as [|k IH] using Pos.peano_ind.
  - simpl. lia.
  - rewrite Pos.iter_succ, Pos2Z.inj_xO, IH, Pos2Z.inj_succ, Z.pow_succ_r by lia.
    lia.
Qed.

(** [shl_align] scales the mantissa and keeps the value. *)
Lemma shl_align_spec (m : positive) (e e' : Z) :
  let r := shl_align m e e' in
  snd r = Z.min e e' /\ Zpos (fst r) = Zpos m * 2 ^ (e - snd r).
Proof.
  unfold shl_align. change (@PosDef.Pos.iter) with (@Pos.iter).
  destruct (e' - e) as [|p|p] eqn:E; simpl fst; simpl snd.
  - split; [lia|]. replace (e - e) with 0 by lia. simpl. lia.
  - split; [lia|]. replace (e - e) with 0 by lia. simpl. lia.
  - split; [lia|]. rewrite iter_xO. f_equal. f_equal. lia.
Qed.

Local Open Scope R_scope.

(** *** Values *)

Lemma bpow_pos e : 0 < bpow e.
Proof. apply powerRZ_lt. lra. Qed.

Lemma bpow_add a b : bpow (a + b) = bpow a * bpow b.
Proof. apply powerRZ_add. lra. Qed.

Lemma bpow_0 : bpow 0 = 1.
Proof. reflexivity. Qed.

Lemma bpow_IZR (n : Z) : (0 <= n)%Z -> IZR (2 ^ n) = bpow n.
Proof.
  intros Hn. unfold bpow. destruct n as [|p|p]; try lia; [reflexivity|].
  simpl powerRZ. rewrite pow_IZR, positive_nat_Z. reflexivity.
Qed.

Lemma bpow_le a b : (a <= b)%Z -> bpow a <= bpow b.
Proof.
  intros H. replace b with (a + (b - a))%Z by lia. rewrite bpow_add.
  rewrite <- (bpow_IZR (b - a)) by lia.
  assert (1 <= IZR (2 ^ (b - a))).
  { apply IZR_le. assert (0 < 2 ^ (b - a))%Z by (apply Z.pow_pos_nonneg; lia). lia. }
  pose proof (bpow_pos a). nra.
Qed.

Lemma bpow_lt a b : (a < b)%Z -> bpow a < bpow b.
Proof.
  intros H. replace b with (a + (b - a))%Z by lia. rewrite bpow_add.
  rewrite <- (bpow_IZR (b - a)) by lia.
  assert (2 <= IZR (2 ^ (b - a))).
  { apply IZR_le. replace (b - a)%Z with (Z.succ (b - a - 1)) by lia.
    rewrite Z.pow_succ_r by lia.
    assert (0 < 2 ^ (b - a - 1))%Z by (apply Z.pow_pos_nonneg; lia). lia. }
  pose proof (bpow_pos a). nra.
Qed.

Lemma bpow_opp a : bpow a * bpow (- a) = 1.
Proof. rewrite <- bpow_add. replace (a + - a)%Z with 0%Z by lia. reflexivity. Qed.

Lemma sgn_xorb a b : sgn (xorb a b) = sgn a * sgn b.
Proof. destruct a, b; simpl; lra. Qed.

Lemma sgn_abs s r : Rabs (sgn s * r) = Rabs r.
Proof.
  destruct s; simpl.
  - replace (-1 * r) with (- r) by lra. apply Rabs_Ropp.
  - now rewrite Rmult_1_l.
Qed.

Lemma roundoff_pos : 0 < roundoff.
Proof. apply bpow_pos. Qed.

Lemma zn_weaken x lo hi lo' hi' :
  zn x lo hi -> (lo' <= lo)%Z -> (hi <= hi')%Z -> zn x lo' hi'.
Proof. destruct x; simpl; intuition lia. Qed.

Lemma mantissa_bounds (m : positive) :
  Zpos (digits2_pos m) = 53%Z -> (2 ^ 52 <= Zpos m < 2 ^ 53)%Z.
Proof. intros H. pose proof (digits_bounds m) as B. rewrite H in B. exact B. Qed.

(** The rounding step on reals: a result within [roundoff] of any [x] that the
    truncated mantissa brackets. *)
Lemma round_aux_real (s : bool) (m : positive) (e : Z) (l : location) (x : R) :
  let d := Zpos (digits2_pos m) in
  (53 <= d)%Z -> (-1074 <= d + e - 53)%Z -> (d + e <= 1023)%Z ->
  IZR (Zpos m) * bpow e <= x <= (IZR (Zpos m) + 1) * bpow e ->
  exists (m2 : positive) (e2 : Z),
    binary_round_aux prec emax s (Zpos m) e l = S754_finite s m2 e2 /\
    Zpos (digits2_pos m2) = 53%Z /\
    (d + e - 53 <= e2 <= d + e - 52)%Z /\
    Rabs (IZR (Zpos m2) * bpow e2 - x) <= roundoff * x.
Proof.
  intros d Hd Hlo Hhi Hx.
  destruct (round_aux_normal s m e l Hd Hlo Hhi) as (m2 & e2 & q & E & D2 & Hq & He2 & Hm2).
  fold d in Hq, He2, Hm2.
  exists m2, e2. split; [exact E|]. split; [exact D2|]. split; [lia|].
  set (e1 := (d + e - 53)%Z) in *. set (n := (d - 53)%Z) in *.
  set (q1 := (Zpos m / 2 ^ n)%Z) in *.
  pose proof (digits_bounds m) as [Bl Bu]. fold d in Bl, Bu.
  assert (Hq1 : (2 ^ 52 <= q1)%Z).
  { apply Z.div_le_lower_bound; [lia|].
    rewrite <- Z.pow_add_r by lia. replace (n + 52)%Z with (d - 1)%Z by lia. lia. }
  assert (Hdiv : (q1 * 2 ^ n <= Zpos m /\ Zpos m + 1 <= (q1 + 1) * 2 ^ n)%Z).
  { assert (0 < 2 ^ n)%Z by (apply Z.pow_pos_nonneg; lia).
    pose proof (Z.mul_div_le (Zpos m) (2 ^ n) ltac:(lia)).
    pose proof (Z.mul_succ_div_gt (Zpos m) (2 ^ n) ltac:(lia)).
    fold q1 in H0, H1. lia. }
  destruct Hdiv as [Dl Du].
  apply IZR_le in Dl, Du, Hq1.
  rewrite mult_IZR, bpow_IZR in Dl by lia.
  rewrite plus_IZR in Du. rewrite mult_IZR, plus_IZR, bpow_IZR in Du by lia.
  rewrite bpow_IZR in Hq1 by lia.
  assert (Hval : IZR (Zpos m2) * bpow e2 = IZR q * bpow e1).
  { rewrite <- Hm2, mult_IZR, bpow_IZR by lia.
    rewrite Rmult_assoc, <- bpow_add. f_equal. f_equal. lia. }
  rewrite Hval.
  assert (He : bpow e = bpow e1 * bpow (- n)).
  { rewrite <- bpow_add. f_equal. lia. }
  pose proof (bpow_pos e1) as Pe1. pose proof (bpow_pos n) as Pn.
  pose proof (bpow_pos (- n)) as Pn'. pose proof (bpow_opp n) as On.
  set (A := bpow e1) in *. set (Q1 := IZR q1) in *.
  assert (Xl : Q1 * A <= x).
  { apply Rle_trans with (2 := proj1 Hx). rewrite He.
    replace (Q1 * A) with (Q1 * bpow n * (A * bpow (- n))).
    - apply Rmult_le_compat_r; [nra|exact Dl].
    - transitivity (Q1 * A * (bpow n * bpow (- n))); [ring|].
      rewrite On. ring. }
  assert (Xu : x <= (Q1 + 1) * A).
  { apply Rle_trans with (1 := proj2 Hx). rewrite He.
    replace ((Q1 + 1) * A) with ((Q1 + 1) * bpow n * (A * bpow (- n))).
    - apply Rmult_le_compat_r; [nra|exact Du].
    - transitivity ((Q1 + 1) * A * (bpow n * bpow (- n))); [ring|].
      rewrite On. ring. }
  assert (Hu : roundoff * bpow 52 = 1).
  { unfold roundoff. rewrite Rmult_comm. apply bpow_opp. }
  assert (HA : A <= roundoff * x).
  { assert (bpow 52 * A <= x) by nra.
    pose proof roundoff_pos.
    replace A with (roundoff * (bpow 52 * A)) by (rewrite <- Rmult_assoc, Hu; ring).
    apply Rmult_le_compat_l; lra. }
  apply Rle_trans with (2 := HA).
  apply Rabs_le.
  destruct Hq as [-> | ->]; [fold Q1|rewrite plus_IZR; fold Q1]; lra.
Qed.

Lemma normal_zn x lo hi : normal x lo hi -> zn x lo hi.
Proof. destruct x; simpl; tauto. Qed.

Lemma signed_close (s : bool) (r x : R) :
  0 <= x -> Rabs (r - x) <= roundoff * x ->
  Rabs (sgn s * r - sgn s * x) <= roundoff * Rabs (sgn s * x).
Proof.
  intros Hx H. rewrite <- Rmult_minus_distr_l, !sgn_abs.
  now rewrite (Rabs_pos_eq x).
Qed.

Lemma zero_close : Rabs (0 - 0) <= roundoff * Rabs 0.
Proof. rewrite Rminus_0_r, Rabs_R0. lra. Qed.

Lemma mantissa_pos (m : positive) (e : Z) : 0 < IZR (Zpos m) * bpow e.
Proof.
  apply Rmult_lt_0_compat; [apply IZR_lt; lia|apply bpow_pos].
Qed.

(** *** Multiplication *)

Lemma SFmul_ok (x y : spec_float) (lx hx ly hy : Z) :
  zn x lx hx -> zn y ly hy -> (-1126 <= lx + ly)%Z -> (hx + hy <= 917)%Z ->
  zn (SFmul prec emax x y) (lx + ly + 52) (hx + hy + 54) /\
  Rabs (val (SFmul prec emax x y) - val x * val y) <= roundoff * Rabs (val x * val y).
Proof.
  intros Hx Hy Hl Hh.
  destruct x as [sx|sx| |sx mx ex], y as [sy|sy| |sy my ey];
    simpl in Hx, Hy; try contradiction;
    try (split; [exact I|]; simpl val;
         rewrite ?Rmult_0_l, ?Rmult_0_r; apply zero_close).
  destruct Hx as [Dx Ex], Hy as [Dy Ey].
  pose proof (mantissa_bounds mx Dx) as Bx.
  pose proof (mantissa_bounds my Dy) as By.
  assert (Hd : (104 < Zpos (digits2_pos (mx * my)) <= 106)%Z).
  { apply digits_range; [lia|]. rewrite Pos2Z.inj_mul.
    change (2 ^ 104)%Z with (2 ^ 52 * 2 ^ 52)%Z.
    change (2 ^ 106)%Z with (2 ^ 53 * 2 ^ 53)%Z. nia. }
  unfold SFmul.
  destruct (round_aux_real (xorb sx sy) (mx * my) (ex + ey) loc_Exact
              (IZR (Zpos (mx * my)) * bpow (ex + ey)))
    as (m2 & e2 & E & D2 & He2 & Hr); try lia.
  { pose proof (bpow_pos (ex + ey)). split; [lra|nra]. }
  rewrite E. split; [simpl; split; [exact D2|lia]|].
  assert (Hv : val (S754_finite sx mx ex) * val (S754_finite sy my ey)
               = sgn (xorb sx sy) * (IZR (Zpos (mx * my)) * bpow (ex + ey))).
  { simpl val. rewrite sgn_xorb, Pos2Z.inj_mul, mult_IZR, bpow_add. ring. }
  rewrite Hv. simpl val. apply signed_close; [|exact Hr].
  left. apply mantissa_pos.
Qed.

(** *** Addition and subtraction *)

Lemma binary_round_real (s : bool) (m : positive) (e : Z) :
  let d := Zpos (digits2_pos m) in
  (-1074 <= d + e - 53)%Z -> (d + e <= 1023)%Z ->
  exists (m2 : positive) (e2 : Z),
    binary_round prec emax s m e = S754_finite s m2 e2 /\
    Zpos (digits2_pos m2) = 53%Z /\
    (d + e - 53 <= e2 <= d + e - 52)%Z /\
    Rabs (IZR (Zpos m2) * bpow e2 - IZR (Zpos m) * bpow e)
    <= roundoff * (IZR (Zpos m) * bpow e).
Proof.
  intros d Hlo Hhi. unfold binary_round. fold d.
  rewrite fexp_normal by lia.
  pose proof (shl_align_spec m e (d + e - 53)) as [Se Sm].
  destruct (shl_align m e (d + e - 53)) as [mz ez].
  simpl fst in *; simpl snd in *.
  pose proof (digits_bounds m) as [Bl Bu]. fold d in Bl, Bu.
  assert (Hz : (53 <= Zpos (digits2_pos mz))%Z /\
               (Zpos (digits2_pos mz) + ez = d + e)%Z).
  { destruct (Z_lt_le_dec d 53) as [Hd|Hd].
    - assert (Ez : ez = (d + e - 53)%Z) by lia.
      replace (e - ez)%Z with (53 - d)%Z in Sm by lia.
      assert (0 < d)%Z by (unfold d; lia).
      assert (Zpos (digits2_pos mz) = 53%Z).
      { apply digits_unique. rewrite Sm.
        assert (0 < 2 ^ (53 - d))%Z by (apply Z.pow_pos_nonneg; lia).
        replace (2 ^ (53 - 1))%Z with (2 ^ (d - 1) * 2 ^ (53 - d))%Z
          by (rewrite <- Z.pow_add_r by lia; f_equal; lia).
        replace (2 ^ 53)%Z with (2 ^ d * 2 ^ (53 - d))%Z
          by (rewrite <- Z.pow_add_r by lia; f_equal; lia).
        nia. }
      lia.
    - assert (Ez : ez = e) by lia.
      replace (e - ez)%Z with 0%Z in Sm by lia.
      assert (mz = m) by (simpl in Sm; lia). subst mz. fold d. lia. }
  destruct Hz as [Dz Hsum].
  assert (Hv : IZR (Zpos mz) * bpow ez = IZR (Zpos m) * bpow e).
  { rewrite Sm, mult_IZR, bpow_IZR by lia.
    rewrite Rmult_assoc, <- bpow_add. f_equal. f_equal. lia. }
  destruct (round_aux_real s mz ez loc_Exact (IZR (Zpos m) * bpow e))
    as (m2 & e2 & E & D2 & He2 & Hr); try lia.
  { rewrite <- Hv. pose proof (bpow_pos ez). split; [lra|nra]. }
  exists m2, e2. rewrite Hsum in He2. auto.
Qed.

Lemma binary_normalize_real (M e j k : Z) :
  (0 <= j)%Z -> (M <> 0 -> 2 ^ j <= Z.abs M)%Z -> (Z.abs M < 2 ^ k)%Z ->
  (-1074 <= j + e - 52)%Z -> (k + e <= 1023)%Z ->
  let r := binary_normalize prec emax M e false in
  zn r (j + e - 52) (k + e - 52) /\
  Rabs (val r - IZR M * bpow e) <= roundoff * Rabs (IZR M * bpow e) /\
  ((0 <= M)%Z -> nonneg r).
Proof.
  intros Hj Hlo Hk He Hhi. unfold binary_normalize.
  destruct M as [|m|m].
  - simpl. split; [exact I|]. split; [|intros _; exact I].
    rewrite Rmult_0_l. apply zero_close.
  - assert (Hd : (j < Zpos (digits2_pos m) <= k)%Z).
    { apply digits_range; [lia|]. simpl Z.abs in Hk, Hlo. split; [apply Hlo|]; lia. }
    destruct (binary_round_real false m e) as (m2 & e2 & E & D2 & He2 & Hr); try lia.
    cbv zeta. rewrite E. split; [simpl; split; [exact D2|lia]|].
    split; [|intros _; exact I].
    simpl val. rewrite Rmult_1_l.
    rewrite (Rabs_pos_eq (IZR (Zpos m) * bpow e)); [exact Hr|].
    left. apply mantissa_pos.
  - assert (Hd : (j < Zpos (digits2_pos m) <= k)%Z).
    { apply digits_range; [lia|]. simpl Z.abs in Hk, Hlo. split; [apply Hlo|]; lia. }
    destruct (binary_round_real true m e) as (m2 & e2 & E & D2 & He2 & Hr); try lia.
    cbv zeta. rewrite E. split; [simpl; split; [exact D2|lia]|].
    split; [|lia].
    cbn [val]. change (Z.neg m) with (- Zpos m)%Z. rewrite opp_IZR.
    replace (- IZR (Zpos m) * bpow e) with (sgn true * (IZR (Zpos m) * bpow e))
      by (simpl; ring).
    apply signed_close; [|exact Hr]. left. apply mantissa_pos.
Qed.

Lemma exact_close (v w : R) : v = w -> Rabs (v - w) <= roundoff * Rabs w.
Proof.
  intros ->. replace (w - w) with 0 by ring. rewrite Rabs_R0.
  apply Rmult_le_pos; [left; apply roundoff_pos|apply Rabs_pos].
Qed.

Lemma IZR_cond_Zopp (s : bool) (z : Z) : IZR (cond_Zopp s z) = sgn s * IZR z.
Proof. destruct s; simpl; [rewrite opp_IZR|]; ring. Qed.

Lemma abs_cond_Zopp (s : bool) (z : Z) : Z.abs (cond_Zopp s z) = Z.abs z.
Proof. destruct s; simpl; [apply Z.abs_opp|reflexivity]. Qed.

Lemma mul_bound_lt (m a P T : Z) :
  (0 <= m < T)%Z -> (0 < a <= P)%Z -> (m * a < T * P)%Z.
Proof. nia. Qed.

Lemma mul_bound_le (m a T : Z) :
  (T <= m)%Z -> (0 < a)%Z -> (T * a <= m * a)%Z.
Proof. nia. Qed.

(** The sum of two normal numbers is the rounding of an integer at the
    smaller exponent. *)
Lemma SFadd_finite (sx : bool) (mx : positive) (ex : Z)
      (sy : bool) (my : positive) (ey : Z) :
  Zpos (digits2_pos mx) = 53%Z -> Zpos (digits2_pos my) = 53%Z ->
  let ez := Z.min ex ey in
  let em := Z.max ex ey in
  exists M : Z,
    SFadd prec emax (S754_finite sx mx ex) (S754_finite sy my ey)
    = binary_normalize prec emax M ez false /\
    (Z.abs M < 2 ^ (54 + em - ez))%Z /\
    IZR M * bpow ez = val (S754_finite sx mx ex) + val (S754_finite sy my ey) /\
    (sx = false -> sy = false -> (2 ^ (52 + em - ez) <= M)%Z).
Proof.
  intros Dx Dy ez em.
  pose proof (mantissa_bounds mx Dx) as Bx.
  pose proof (mantissa_bounds my Dy) as By.
  cbn [SFadd]. change IntDef.Z.min with Z.min. fold ez.
  pose proof (shl_align_spec mx ex ez) as [Sx1 Sx2].
  pose proof (shl_align_spec my ey ez) as [Sy1 Sy2].
  destruct (shl_align mx ex ez) as [mx' ex'].
  destruct (shl_align my ey ez) as [my' ey'].
  simpl fst in *; simpl snd in *.
  assert (ex' = ez) by lia. assert (ey' = ez) by lia.
  clear Sx1 Sy1. subst ex' ey'.
  set (P := (2 ^ (em - ez))%Z).
  set (a := (2 ^ (ex - ez))%Z) in *. set (b := (2 ^ (ey - ez))%Z) in *.
  assert (Pa : (0 < a <= P)%Z).
  { split; [apply Z.pow_pos_nonneg; lia|apply Z.pow_le_mono_r; lia]. }
  assert (Pb : (0 < b <= P)%Z).
  { split; [apply Z.pow_pos_nonneg; lia|apply Z.pow_le_mono_r; lia]. }
  assert (Pab : (a = P \/ b = P)%Z).
  { destruct (Z_le_dec ey ex).
    - left. unfold a, P. f_equal. lia.
    - right. unfold b, P. f_equal. lia. }
  assert (Hk : (2 ^ (54 + em - ez) = 2 ^ 54 * P)%Z).
  { unfold P. rewrite <- Z.pow_add_r by lia. f_equal. lia. }
  assert (Hj : (2 ^ (52 + em - ez) = 2 ^ 52 * P)%Z).
  { unfold P. rewrite <- Z.pow_add_r by lia. f_equal. lia. }
  exists (cond_Zopp sx (Zpos mx') + cond_Zopp sy (Zpos my'))%Z.
  split; [reflexivity|]. split; [|split].
  - rewrite Hk.
    pose proof (Z.abs_triangle (cond_Zopp sx (Zpos mx')) (cond_Zopp sy (Zpos my'))) as T.
    rewrite !abs_cond_Zopp in T. simpl Z.abs in T.
    pose proof (mul_bound_lt (Zpos mx) a P (2 ^ 53) ltac:(lia) Pa).
    pose proof (mul_bound_lt (Zpos my) b P (2 ^ 53) ltac:(lia) Pb).
    lia.
  - rewrite plus_IZR, !IZR_cond_Zopp, Sx2, Sy2, !mult_IZR.
    unfold a, b. rewrite !bpow_IZR by lia. simpl val.
    replace (bpow ex) with (bpow (ex - ez) * bpow ez)
      by (rewrite <- bpow_add; f_equal; lia).
    replace (bpow ey) with (bpow (ey - ez) * bpow ez)
      by (rewrite <- bpow_add; f_equal; lia).
    ring.
  - intros -> ->. rewrite Hj. simpl cond_Zopp.
    pose proof (mul_bound_le (Zpos mx) a (2 ^ 52) ltac:(lia) ltac:(lia)).
    pose proof (mul_bound_le (Zpos my) b (2 ^ 52) ltac:(lia) ltac:(lia)).
    destruct Pab as [<- | <-]; lia.
Qed.

Lemma SFadd_ok (x y : spec_float) (lx hx ly hy : Z) :
  zn x lx hx -> zn y ly hy ->
  (-1022 <= lx)%Z -> (-1022 <= ly)%Z -> (hx <= 969)%Z -> (hy <= 969)%Z ->
  let r := SFadd prec emax x y in
  zn r (Z.min lx ly - 52) (Z.max hx hy + 2) /\
  Rabs (val r - (val x + val y)) <= roundoff * Rabs (val x + val y).
Proof.
  intros Hx Hy Llx Lly Hhx Hhy.
  destruct x as [sx|sx| |sx mx ex], y as [sy|sy| |sy my ey];
    simpl in Hx, Hy; try contradiction.
  - cbv zeta. split; [destruct sx, sy; exact I|].
    destruct sx, sy; simpl; apply exact_close; ring.
  - cbv zeta. cbn [SFadd]. split; [simpl; split; [tauto|lia]|].
    apply exact_close. simpl. ring.
  - cbv zeta. cbn [SFadd]. split; [simpl; split; [tauto|lia]|].
    apply exact_close. simpl. ring.
  - destruct Hx as [Dx Ex], Hy as [Dy Ey].
    destruct (SFadd_finite sx mx ex sy my ey Dx Dy) as (M & E & Hk & Hv & _).
    cbv zeta. rewrite E, <- Hv.
    destruct (binary_normalize_real M (Z.min ex ey)
                0 (54 + Z.max ex ey - Z.min ex ey)) as (Z1 & V1 & _);
      try lia.
    split; [|exact V1]. eapply zn_weaken; [exact Z1|lia|lia].
Qed.

Lemma SFadd_nonneg_ok (x y : spec_float) (lx hx ly hy : Z) :
  zn x lx hx -> zn y ly hy -> nonneg x -> nonneg y ->
  (-1074 <= lx)%Z -> (-1074 <= ly)%Z -> (hx <= 969)%Z -> (hy <= 969)%Z ->
  let r := SFadd prec emax x y in
  zn r (Z.min lx ly) (Z.max hx hy + 2) /\ nonneg r /\
  Rabs (val r - (val x + val y)) <= roundoff * Rabs (val x + val y).
Proof.
  intros Hx Hy Nx Ny Llx Lly Hhx Hhy.
  destruct x as [sx|sx| |sx mx ex], y as [sy|sy| |sy my ey];
    simpl in Hx, Hy; try contradiction.
  - cbv zeta. split; [destruct sx, sy; exact I|].
    split; [destruct sx, sy; exact I|].
    destruct sx, sy; simpl; apply exact_close; ring.
  - cbv zeta. cbn [SFadd]. split; [simpl; split; [tauto|lia]|].
    split; [exact Ny|]. apply exact_close. simpl. ring.
  - cbv zeta. cbn [SFadd]. split; [simpl; split; [tauto|lia]|].
    split; [exact Nx|]. apply exact_close. simpl. ring.
  - destruct Hx as [Dx Ex], Hy as [Dy Ey].
    destruct sx, sy; simpl in Nx, Ny; try contradiction.
    destruct (SFadd_finite false mx ex false my ey Dx Dy) as (M & E & Hk & Hv & Hj).
    specialize (Hj eq_refl eq_refl).
    assert (0 < 2 ^ (52 + Z.max ex ey - Z.min ex ey))%Z
      by (apply Z.pow_pos_nonneg; lia).
    cbv zeta. rewrite E, <- Hv.
    destruct (binary_normalize_real M (Z.min ex ey)
                (52 + Z.max ex ey - Z.min ex ey)
                (54 + Z.max ex ey - Z.min ex ey)) as (Z1 & V1 & N1);
      try lia.
    split; [eapply zn_weaken; [exact Z1|lia|lia]|].
    split; [apply N1; lia|exact V1].
Qed.

Lemma SFsub_finite sx mx ex sy my ey :
  SFsub prec emax (S754_finite sx mx ex) (S754_finite sy my ey)
  = SFadd prec emax (S754_finite sx mx ex) (S754_finite (negb sy) my ey).
Proof.
  cbn [SFsub SFadd]. f_equal. destruct sy; simpl; lia.
Qed.

Lemma SFsub_ok (x y : spec_float) (lx hx ly hy : Z) :
  normal x lx hx -> normal y ly hy ->
  (-1022 <= lx)%Z -> (-1022 <= ly)%Z -> (hx <= 969)%Z -> (hy <= 969)%Z ->
  let r := SFsub prec emax x y in
  zn r (Z.min lx ly - 52) (Z.max hx hy + 2) /\
  Rabs (val r - (val x - val y)) <= roundoff * Rabs (val x - val y).
Proof.
  intros Hx Hy Llx Lly Hhx Hhy.
  destruct x as [sx|sx| |sx mx ex], y as [sy|sy| |sy my ey];
    simpl in Hx, Hy; try contradiction.
  cbv zeta. rewrite SFsub_finite.
  destruct (SFadd_ok (S754_finite sx mx ex) (S754_finite (negb sy) my ey)
              lx hx ly hy) as (Z1 & V1); try assumption.
  split; [exact Z1|].
  replace (val (S754_finite sx mx ex) - val (S754_finite sy my ey))
    with (val (S754_finite sx mx ex) + val (S754_finite (negb sy) my ey));
    [exact V1|].
  simpl. destruct sy; simpl; ring.
Qed.

Lemma shift_match (m s : Z) :
  (0 < s)%Z ->
  match s with
  | 0%Z => m
  | Z.pos _ => IntDef.Z.shiftl m s
  | Z.neg _ => 0%Z
  end = (m * 2 ^ s)%Z.
Proof.
  intros Hs. destruct s; try lia.
  change IntDef.Z.shiftl with Z.shiftl. apply Z.shiftl_mul_pow2. lia.
Qed.

(** *** Square root *)

Lemma sqrt_bracket (q m : Z) (e : Z) :
  (0 <= q)%Z -> (q * q <= m < (q + 1) * (q + 1))%Z ->
  IZR q * bpow e <= R_sqrt.sqrt (IZR m * bpow (2 * e)) <= (IZR q + 1) * bpow e.
Proof.
  intros Hq [Hl Hu]. pose proof (bpow_pos e) as Pe.
  assert (Hb : bpow (2 * e) = bpow e * bpow e).
  { rewrite <- bpow_add. f_equal. lia. }
  apply IZR_le in Hl, Hq. apply IZR_lt in Hu.
  rewrite mult_IZR in Hl. rewrite mult_IZR, plus_IZR in Hu.
  set (Q := IZR q) in *. set (B := bpow e) in *.
  assert (S1 : Q * B = R_sqrt.sqrt ((Q * B) * (Q * B))).
  { rewrite sqrt_square; [reflexivity|]. apply Rmult_le_pos; lra. }
  assert (S2 : (Q + 1) * B = R_sqrt.sqrt (((Q + 1) * B) * ((Q + 1) * B))).
  { rewrite sqrt_square; [reflexivity|]. apply Rmult_le_pos; lra. }
  rewrite Hb. split.
  - rewrite S1. apply sqrt_le_1_alt.
    replace (Q * B * (Q * B)) with (Q * Q * (B * B)) by ring.
    apply Rmult_le_compat_r; [nra|exact Hl].
  - rewrite S2. apply sqrt_le_1_alt.
    replace ((Q + 1) * B * ((Q + 1) * B)) with ((Q + 1) * (Q + 1) * (B * B)) by ring.
    apply Rmult_le_compat_r; [nra|lra].
Qed.

Lemma sqrt_mantissa (q m : Z) :
  (0 <= q)%Z -> (q * q <= m < (q + 1) * (q + 1))%Z ->
  (2 ^ 104 <= m < 2 ^ 106)%Z -> (2 ^ 52 <= q < 2 ^ 53)%Z.
Proof.
  intros Hq [Hl Hu] [Ml Mu].
  change (2 ^ 104)%Z with (2 ^ 52 * 2 ^ 52)%Z in Ml.
  change (2 ^ 106)%Z with (2 ^ 53 * 2 ^ 53)%Z in Mu.
  set (a := (2 ^ 52)%Z) in *. set (b := (2 ^ 53)%Z) in *.
  assert (0 < a)%Z by (unfold a; lia). assert (0 < b)%Z by (unfold b; lia).
  clearbody a b. split.
  - destruct (Z_lt_le_dec q a); [|assumption]. exfalso.
    assert ((q + 1) * (q + 1) <= a * a)%Z by nia. lia.
  - destruct (Z_lt_le_dec q b); [assumption|]. exfalso.
    assert (b * b <= q * q)%Z by nia. lia.
Qed.

Lemma SFsqrt_ok (x : spec_float) (l h : Z) :
  zn x l h -> nonneg x -> (-1074 <= l)%Z -> (h <= 971)%Z ->
  let r := SFsqrt prec emax x in
  zn r (l / 2 - 26) (h / 2 - 25) /\ nonneg r /\
  Rabs (val r - R_sqrt.sqrt (val x)) <= roundoff * R_sqrt.sqrt (val x).
Proof.
  intros Hx Nx Hl Hh.
  destruct x as [sx|sx| |sx mx ex]; simpl in Hx; try contradiction.
  - cbv zeta. cbn [SFsqrt val]. split; [exact I|]. split; [exact I|].
    rewrite sqrt_0, Rmult_0_r, Rminus_0_r, Rabs_R0. lra.
  - destruct sx; simpl in Nx; [contradiction|]. destruct Hx as [Dx Ex].
    pose proof (mantissa_bounds mx Dx) as Bx.
    cbv zeta. cbn [SFsqrt]. unfold SFsqrt_core_binary.
    change (Zdigits2 (Zpos mx)) with (Zpos (digits2_pos mx)). rewrite Dx.
    change IntDef.Z.div2 with Z.div2. change IntDef.Z.min with Z.min.
    rewrite !Z.div2_div.
    set (e' := (ex / 2 - 26)%Z).
    assert (He' : Z.min (fexp prec emax ((53 + ex + 1) / 2)) (ex / 2) = e').
    { rewrite fexp_normal; unfold e'; Z.div_mod_to_equations; lia. }
    cbv zeta. rewrite He'.
    assert (Hs : (ex - 2 * e' = 52 \/ ex - 2 * e' = 53)%Z)
      by (unfold e'; Z.div_mod_to_equations; lia).
    rewrite shift_match by lia.
    set (m' := (Zpos mx * 2 ^ (ex - 2 * e'))%Z).
    assert (Hm' : (2 ^ 104 <= m' < 2 ^ 106)%Z).
    { unfold m'. destruct Hs as [-> | ->].
      - change (2 ^ 104)%Z with (2 ^ 52 * 2 ^ 52)%Z.
        change (2 ^ 106)%Z with (2 ^ 53 * (2 * 2 ^ 52))%Z. lia.
      - change (2 ^ 104)%Z with (2 ^ 52 * 2 ^ 52)%Z.
        change (2 ^ 106)%Z with (2 ^ 53 * 2 ^ 53)%Z. lia. }
    change IntDef.Z.sqrtrem with Z.sqrtrem.
    pose proof (Z.sqrtrem_spec m' ltac:(lia)) as Sq.
    destruct (Z.sqrtrem m') as [q r].
    destruct Sq as [Sq1 Sq2].
    assert (Hq0 : (0 <= q)%Z) by lia.
    assert (Hqm : (q * q <= m' < (q + 1) * (q + 1))%Z) by lia.
    pose proof (sqrt_mantissa q m' Hq0 Hqm Hm') as Bq.
    destruct q as [|pq|pq]; try lia.
    assert (Dq : Zpos (digits2_pos pq) = 53%Z) by (apply digits_unique; exact Bq).
    assert (Hv : val (S754_finite false mx ex) = IZR m' * bpow (2 * e')).
    { simpl val. unfold m'. rewrite mult_IZR, bpow_IZR by lia.
      rewrite Rmult_assoc, <- bpow_add, Rmult_1_l. f_equal. f_equal. lia. }
    rewrite Hv.
    pose proof (sqrt_bracket (Zpos pq) m' e' Hq0 Hqm) as Hb.
    match goal with
    | |- context [binary_round_aux _ _ _ _ _ ?l] =>
        destruct (round_aux_real false pq e' l (R_sqrt.sqrt (IZR m' * bpow (2 * e'))))
          as (m2 & e2 & E & D2 & He2 & Hr); try (rewrite Dq; unfold e'; Z.div_mod_to_equations; lia);
        [exact Hb|rewrite E]
    end.
    rewrite Dq in He2.
    split; [simpl; split; [exact D2|]|].
    { unfold e' in He2. Z.div_mod_to_equations. lia. }
    split; [exact I|]. simpl val. rewrite Rmult_1_l. exact Hr.
Qed.

(** *** Division *)

Lemma SFdiv_ok (x y : spec_float) (lx hx ly hy : Z) :
  normal x lx hx -> normal y ly hy ->
  (-1021 <= lx - hy)%Z -> (hx - ly <= 1022)%Z ->
  let r := SFdiv prec emax x y in
  normal r (lx - hy - 53) (hx - ly - 51) /\
  Rabs (val r - val x / val y) <= roundoff * Rabs (val x / val y).
Proof.
  intros Hx Hy Hl Hh.
  destruct x as [sx|sx| |sx mx ex], y as [sy|sy| |sy my ey];
    simpl in Hx, Hy; try contradiction.
  destruct Hx as [Dx Ex], Hy as [Dy Ey].
  pose proof (mantissa_bounds mx Dx) as Bx.
  pose proof (mantissa_bounds my Dy) as By.
  cbv zeta. cbn [SFdiv]. unfold SFdiv_core_binary.
  change (Zdigits2 (Zpos mx)) with (Zpos (digits2_pos mx)).
  change (Zdigits2 (Zpos my)) with (Zpos (digits2_pos my)).
  rewrite Dx, Dy. change IntDef.Z.min with Z.min.
  set (e' := (ex - ey - 53)%Z).
  assert (He' : Z.min (fexp prec emax (53 + ex - (53 + ey))) (ex - ey) = e').
  { rewrite fexp_normal; unfold e'; lia. }
  cbv zeta. rewrite He'.
  replace (ex - ey - e')%Z with 53%Z by (unfold e'; lia).
  change IntDef.Z.shiftl with Z.shiftl.
  rewrite Z.shiftl_mul_pow2 by lia.
  set (m' := (Zpos mx * 2 ^ 53)%Z).
  change IntDef.Z.div_eucl with Z.div_eucl.
  pose proof (Z_div_mod m' (Zpos my) ltac:(lia)) as Dv.
  destruct (Z.div_eucl m' (Zpos my)) as [q r].
  destruct Dv as [Dv1 Dv2].
  assert (Bq : (2 ^ 52 <= q < 2 ^ 54)%Z).
  { unfold m' in Dv1.
    change (2 ^ 54)%Z with (2 * 2 ^ 53)%Z.
    set (a := (2 ^ 52)%Z) in *. set (b := (2 ^ 53)%Z) in *.
    assert (b = 2 * a)%Z by reflexivity.
    assert (0 < a)%Z by (unfold a; lia). clearbody a b.
    split.
    - destruct (Z_lt_le_dec q a); [|assumption]. exfalso.
      assert (Zpos my * q + r < Zpos my * a)%Z by nia.
      assert (Zpos my * a <= b * a)%Z by nia.
      assert (a * b <= Zpos mx * b)%Z by nia. lia.
    - destruct (Z_lt_le_dec q (2 * b)); [assumption|]. exfalso.
      assert (Zpos my * (2 * b) <= Zpos my * q)%Z by nia.
      assert (a * (2 * b) <= Zpos my * (2 * b))%Z by nia.
      assert (Zpos mx * b < b * b)%Z by nia. nia. }
  destruct q as [|pq|pq]; try lia.
  assert (Dq : (52 < Zpos (digits2_pos pq) <= 54)%Z)
    by (apply digits_range; [lia|exact Bq]).
  set (X := IZR (Zpos mx) * bpow ex). set (Y := IZR (Zpos my) * bpow ey).
  assert (PX : 0 < X) by apply mantissa_pos.
  assert (PY : 0 < Y) by apply mantissa_pos.
  assert (Hb : IZR (Zpos pq) * bpow e' <= X / Y <= (IZR (Zpos pq) + 1) * bpow e').
  { assert (HX : X = IZR m' * bpow e' * bpow ey).
    { unfold X, m'. rewrite mult_IZR, bpow_IZR by lia.
      rewrite !Rmult_assoc, <- !bpow_add. f_equal. f_equal. unfold e'. lia. }
    pose proof (bpow_pos e') as Pe. pose proof (bpow_pos ey) as Py.
    assert (Pm : 0 < IZR (Zpos my)) by (apply IZR_lt; lia).
    assert (HXY : X / Y = IZR m' * bpow e' * / IZR (Zpos my)).
    { rewrite HX. unfold Y. field. split; lra. }
    rewrite HXY.
    assert (Dl : IZR (Zpos my) * IZR (Zpos pq) <= IZR m').
    { rewrite <- mult_IZR. apply IZR_le. lia. }
    assert (Du : IZR m' <= IZR (Zpos my) * (IZR (Zpos pq) + 1)).
    { rewrite <- (plus_IZR _ 1), <- mult_IZR. apply IZR_le. lia. }
    set (t := / IZR (Zpos my)).
    assert (Pt : 0 < t) by (apply Rinv_0_lt_compat; exact Pm).
    assert (Ht : IZR (Zpos my) * t = 1) by (unfold t; field; lra).
    set (Q := IZR (Zpos pq)) in *. set (B := bpow e') in *.
    set (My := IZR (Zpos my)) in *. set (Mm := IZR m') in *.
    assert (PBt : 0 < B * t) by (apply Rmult_lt_0_compat; assumption).
    split.
    - replace (Q * B) with (My * Q * (B * t))
        by (transitivity (Q * B * (My * t)); [ring|rewrite Ht; ring]).
      replace (Mm * B * t) with (Mm * (B * t)) by ring.
      apply Rmult_le_compat_r; lra.
    - replace ((Q + 1) * B) with (My * (Q + 1) * (B * t))
        by (transitivity ((Q + 1) * B * (My * t)); [ring|rewrite Ht; ring]).
      replace (Mm * B * t) with (Mm * (B * t)) by ring.
      apply Rmult_le_compat_r; lra. }
  match goal with
  | |- context [binary_round_aux _ _ _ _ _ ?l] =>
      destruct (round_aux_real (xorb sx sy) pq e' l (X / Y))
        as (m2 & e2 & E & D2 & He2 & Hr); try (unfold e'; lia);
      [exact Hb|rewrite E]
  end.
  split; [simpl; split; [exact D2|unfold e' in He2; lia]|].
  assert (PXY : 0 < X / Y) by (apply Rdiv_lt_0_compat; assumption).
  assert (Hv : val (S754_finite sx mx ex) / val (S754_finite sy my ey)
               = sgn (xorb sx sy) * (X / Y)).
  { simpl val. fold X Y. rewrite sgn_xorb.
    destruct sx, sy; simpl; field; lra. }
  rewrite Hv. cbn [val]. apply signed_close; [lra|exact Hr].
Qed.

Lemma SFmul_self_nonneg (x : spec_float) (l h : Z) :
  zn x l h -> (-1126 <= l + l)%Z -> (h + h <= 917)%Z ->
  nonneg (SFmul prec emax x x).
Proof.
  intros Hx Hl Hh. destruct x as [sx|sx| |sx mx ex]; simpl in Hx; try contradiction.
  - exact I.
  - destruct Hx as [Dx Ex]. pose proof (mantissa_bounds mx Dx) as Bx.
    assert (Hd : (104 < Zpos (digits2_pos (mx * mx)) <= 106)%Z).
    { apply digits_range; [lia|]. rewrite Pos2Z.inj_mul.
      change (2 ^ 104)%Z with (2 ^ 52 * 2 ^ 52)%Z.
      change (2 ^ 106)%Z with (2 ^ 53 * 2 ^ 53)%Z. nia. }
    cbn [SFmul].
    destruct (round_aux_real (xorb sx sx) (mx * mx) (ex + ex) loc_Exact
                (IZR (Zpos (mx * mx)) * bpow (ex + ex)))
      as (m2 & e2 & E & _); try lia.
    { pose proof (bpow_pos (ex + ex)). split; [lra|nra]. }
    rewrite E. now destruct sx.
Qed.

Lemma zn_normal (x : spec_float) (lo hi : Z) :
  zn x lo hi -> val x <> 0 -> normal x lo hi.
Proof. destruct x; simpl; tauto. Qed.

Lemma normal_nonzero (x : spec_float) (lo hi : Z) :
  normal x lo hi -> val x <> 0.
Proof.
  destruct x as [| | |s m e]; simpl; try tauto. intros _.
  pose proof (mantissa_pos m e). destruct s; simpl; lra.
Qed.

Lemma nonneg_val (x : spec_float) : nonneg x -> 0 <= val x.
Proof.
  destruct x as [| | |s m e]; simpl; try lra.
  pose proof (mantissa_pos m e). destruct s; simpl; [tauto|lra].
Qed.

Lemma SFabs_val (x : spec_float) : val (SFabs x) = Rabs (val x).
Proof.
  destruct x as [| | |s m e]; simpl; rewrite ?Rabs_R0; try reflexivity.
  rewrite sgn_abs, Rmult_1_l. symmetry. apply Rabs_pos_eq.
  left. apply mantissa_pos.
Qed.

(** A normal number of magnitude at most [2^k] has an exponent at most
    [k - 52]. *)
Lemma exponent_of_bound (s : bool) (m : positive) (e k : Z) :
  Zpos (digits2_pos m) = 53%Z ->
  IZR (Zpos m) * bpow e <= bpow k -> (e <= k - 52)%Z.
Proof.
  intros D H. pose proof (mantissa_bounds m D) as [Bl _].
  destruct (Z_le_gt_dec e (k - 52)) as [|Hgt]; [assumption|exfalso].
  apply IZR_le in Bl. rewrite bpow_IZR in Bl by lia.
  assert (bpow k < bpow (52 + e)) by (apply bpow_lt; lia).
  rewrite bpow_add in H0. pose proof (bpow_pos e). nra.
Qed.

(** *** The operations on doubles *)

Lemma mul_ok (x y : float) (lx hx ly hy : Z) :
  ZN x lx hx -> ZN y ly hy -> (-1126 <= lx + ly)%Z -> (hx + hy <= 917)%Z ->
  ZN (x * y) (lx + ly + 52) (hx + hy + 54) /\
  Rabs (real_of (x * y) - real_of x * real_of y) <= roundoff * Rabs (real_of x * real_of y).
Proof. unfold ZN, real_of. rewrite mul_spec. apply SFmul_ok. Qed.

Lemma square_ok (x : float) (l h : Z) :
  ZN x l h -> (-563 <= l)%Z -> (h <= 458)%Z ->
  ZN (x * x) (l + l + 52) (h + h + 54) /\ NN (x * x) /\
  Rabs (real_of (x * x) - real_of x * real_of x) <= roundoff * (real_of x * real_of x).
Proof.
  intros Hx Hl Hh.
  destruct (mul_ok x x l h l h Hx Hx) as [Z1 V1]; try lia.
  split; [exact Z1|]. split.
  - unfold NN. rewrite mul_spec. apply (SFmul_self_nonneg _ l h); [exact Hx|lia|lia].
  - rewrite (Rabs_pos_eq (real_of x * real_of x)) in V1; [exact V1|nra].
Qed.

Lemma add_ok (x y : float) (lx hx ly hy : Z) :
  ZN x lx hx -> ZN y ly hy -> NN x -> NN y ->
  (-1074 <= lx)%Z -> (-1074 <= ly)%Z -> (hx <= 969)%Z -> (hy <= 969)%Z ->
  ZN (x + y) (Z.min lx ly) (Z.max hx hy + 2) /\ NN (x + y) /\
  Rabs (real_of (x + y) - (real_of x + real_of y)) <= roundoff * (real_of x + real_of y).
Proof.
  intros Hx Hy Nx Ny Llx Lly Hhx Hhy. unfold ZN, NN, real_of in *.
  rewrite add_spec.
  destruct (SFadd_nonneg_ok (Prim2SF x) (Prim2SF y) lx hx ly hy)
    as (Z2 & N2 & V1); try assumption.
  split; [exact Z2|]. split; [exact N2|].
  pose proof (nonneg_val _ Nx). pose proof (nonneg_val _ Ny).
  rewrite (Rabs_pos_eq (val (Prim2SF x) + val (Prim2SF y))) in V1; [exact V1|lra].
Qed.

Lemma sub_ok (x y : float) (lx hx ly hy : Z) :
  normal (Prim2SF x) lx hx -> normal (Prim2SF y) ly hy ->
  (-1022 <= lx)%Z -> (-1022 <= ly)%Z -> (hx <= 969)%Z -> (hy <= 969)%Z ->
  ZN (x - y) (Z.min lx ly - 52) (Z.max hx hy + 2) /\
  Rabs (real_of (x - y) - (real_of x - real_of y)) <= roundoff * Rabs (real_of x - real_of y).
Proof. unfold ZN, real_of. rewrite sub_spec. apply SFsub_ok. Qed.

Lemma sqrt_ok (x : float) (l h : Z) :
  ZN x l h -> NN x -> (-1074 <= l)%Z -> (h <= 971)%Z ->
  ZN (PrimFloat.sqrt x) (l / 2 - 26) (h / 2 - 25) /\ NN (PrimFloat.sqrt x) /\
  Rabs (real_of (PrimFloat.sqrt x) - R_sqrt.sqrt (real_of x)) <= roundoff * R_sqrt.sqrt (real_of x).
Proof. unfold ZN, NN, real_of. rewrite sqrt_spec. apply SFsqrt_ok. Qed.

Lemma div_ok (x y : float) (lx hx ly hy : Z) :
  normal (Prim2SF x) lx hx -> normal (Prim2SF y) ly hy ->
  (-1021 <= lx - hy)%Z -> (hx - ly <= 1022)%Z ->
  normal (Prim2SF (x / y)) (lx - hy - 53) (hx - ly - 51) /\
  Rabs (real_of (x / y) - real_of x / real_of y) <= roundoff * Rabs (real_of x / real_of y).
Proof. unfold real_of. rewrite div_spec. apply SFdiv_ok. Qed.

(** *** Comparisons of doubles *)

Lemma valid_normal (s : bool) (m : positive) (e : Z) :
  valid_binary (S754_finite s m e) = true -> (-1074 < e)%Z ->
  Zpos (digits2_pos m) = 53%Z.
Proof.
  simpl. unfold bounded, canonical_mantissa. intros H He.
  apply andb_prop in H as [H _]. apply Z.eqb_eq in H.
  unfold fexp, emin, prec, emax in H. lia.
Qed.

(** A double that is zero or of magnitude between [2^-250] and [2^250]. *)
Lemma moderate_double (c : float) :
  ((c =? 0) || ((0x1p-250 <=? abs c) && (abs c <=? 0x1p+250)))%float = true ->
  ZN c (-302) 198.
Proof.
  rewrite FloatAxioms.eqb_spec, !leb_spec, abs_spec.
  change (Prim2SF 0) with (S754_zero false).
  change (Prim2SF 0x1p-250) with (S754_finite false 4503599627370496 (-302)).
  change (Prim2SF 0x1p+250) with (S754_finite false 4503599627370496 198).
  pose proof (Prim2SF_valid c) as Hv. unfold ZN.
  destruct (Prim2SF c) as [s|s| |s m e]; intros H.
  { exact I. }
  { destruct s; discriminate H. }
  { discriminate H. }
  assert (H' : SFleb (S754_finite false 4503599627370496 (-302))
                 (S754_finite false m e)
               && SFleb (S754_finite false m e)
                    (S754_finite false 4503599627370496 198) = true)
    by (destruct s; exact H).
  clear H. unfold SFleb, SFcompare in H'.
  change PosDef.Pos.compare_cont with Pos.compare_cont in H'.
  apply andb_prop in H' as [H1 H2].
  assert (He1 : (-302 <= e)%Z).
  { destruct (Z.compare_spec (-302) e); [lia|lia|discriminate]. }
  assert (He2 : (e <= 198)%Z).
  { destruct (Z.compare_spec e 198); [lia|lia|discriminate]. }
  simpl. split; [|lia]. apply (valid_normal s m e Hv). lia.
Qed.

Lemma eqb_zero_false (c : float) (lo hi : Z) :
  ZN c lo hi -> (c =? 0)%float = false -> normal (Prim2SF c) lo hi.
Proof.
  unfold ZN. rewrite FloatAxioms.eqb_spec.
  change (Prim2SF 0) with (S754_zero false).
  destruct (Prim2SF c); simpl; try tauto. discriminate.
Qed.

Lemma eqb_zero_true (c : float) (lo hi : Z) :
  ZN c lo hi -> (c =? 0)%float = true -> real_of c = 0.
Proof.
  unfold ZN, real_of. rewrite FloatAxioms.eqb_spec.
  change (Prim2SF 0) with (S754_zero false).
  destruct (Prim2SF c) as [| | |s m e]; simpl; try tauto.
  destruct s; discriminate.
Qed.

(** A normal double is taken by [||] as it is. *)
Lemma normal_truthy (n : float) (lo hi : Z) :
  normal (Prim2SF n) lo hi ->
  (n =? 0)%float = false /\ (n =? n)%float = true.
Proof.
  rewrite !FloatAxioms.eqb_spec.
  change (Prim2SF 0) with (S754_zero false).
  destruct (Prim2SF n) as [| | |s m e]; simpl; try tauto. intros _.
  unfold SFeqb, SFcompare. change PosDef.Pos.compare_cont with Pos.compare_cont.
  rewrite Z.compare_refl.
  assert (Pos.compare_cont Eq m m = Eq) by apply Pos.compare_cont_refl.
  rewrite H. destruct s; auto.
Qed.

(** A double of magnitude at most [2^-40] is within the tolerance. *)
Lemma small_within_tolerance (r : float) (lo hi : Z) :
  ZN r lo hi -> Rabs (real_of r) <= bpow (-40) ->
  (abs r <=? 0x1.0c6f7a0b5ed8dp-20)%float = true.
Proof.
  unfold ZN, real_of. rewrite leb_spec, abs_spec.
  change (Prim2SF 0x1.0c6f7a0b5ed8dp-20)
    with (S754_finite false 4722366482869645 (-72)).
  destruct (Prim2SF r) as [s|s| |s m e]; simpl; try tauto.
  intros [D _] H. rewrite sgn_abs, Rabs_pos_eq in H by (left; apply mantissa_pos).
  pose proof (exponent_of_bound s m e (-40) D H) as He.
  unfold SFleb, SFcompare.
  destruct (Z.compare_spec e (-72)); first [reflexivity|lia].
Qed.

(** *** Error propagation *)

Lemma Rabs_bound (a b : R) : Rabs a <= b -> - b <= a <= b.
Proof.
  intros H. pose proof (Rle_abs a). pose proof (Rle_abs (- a)) as H1.
  rewrite Rabs_Ropp in H1. lra.
Qed.

Lemma close_within (x y eps : R) :
  0 <= y -> Rabs (x - y) <= eps * y -> within x y eps.
Proof.
  intros Hy H. apply Rabs_bound in H. unfold within. split; lra.
Qed.

Lemma within_weaken (x y e1 e2 : R) :
  0 <= y -> e1 <= e2 -> within x y e1 -> within x y e2.
Proof. unfold within. intros Hy He [Hl Hu]. split; nra. Qed.

Lemma within_add (x1 y1 x2 y2 eps : R) :
  within x1 y1 eps -> within x2 y2 eps -> within (x1 + x2) (y1 + y2) eps.
Proof. unfold within. intros [] []. split; lra. Qed.

Lemma within_scale (c x y eps : R) :
  0 <= c -> within x y eps -> within (c * x) (c * y) eps.
Proof. unfold within. intros Hc [Hl Hu]. split; nra. Qed.

Lemma within_trans (x y z e1 e2 e3 : R) :
  0 <= z -> 0 <= e1 <= 1 -> 0 <= e2 -> e1 + e2 + e1 * e2 <= e3 ->
  within x y e1 -> within y z e2 -> within x z e3.
Proof.
  unfold within. intros Hz He1 He2 He3 [Hl1 Hu1] [Hl2 Hu2].
  assert (0 <= e1 * e2) by nra.
  split.
  - apply Rle_trans with ((1 - e1) * ((1 - e2) * z)); [nra|].
    apply Rle_trans with ((1 - e1) * y); [|exact Hl1].
    apply Rmult_le_compat_l; lra.
  - apply Rle_trans with ((1 + e1) * y); [exact Hu1|].
    apply Rle_trans with ((1 + e1) * ((1 + e2) * z)); [|nra].
    apply Rmult_le_compat_l; lra.
Qed.

Lemma within_nonneg (x y eps : R) :
  0 <= y -> eps <= 1 -> within x y eps -> 0 <= x.
Proof. unfold within. intros Hy He [Hl _]. nra. Qed.

Lemma within_pos (x y eps : R) :
  0 < y -> eps < 1 -> within x y eps -> 0 < x.
Proof. unfold within. intros Hy He [Hl _]. nra. Qed.

Lemma within_sq (x y eps : R) :
  0 <= y -> 0 <= eps <= 1 -> within x y eps ->
  within (x * x) (y * y) (3 * eps).
Proof.
  intros Hy He W. pose proof (within_nonneg x y eps Hy (proj2 He) W) as Hx.
  destruct W as [Hl Hu]. unfold within.
  assert (0 <= y * y) by nra. assert (0 <= eps * eps <= eps) by nra.
  split.
  - apply Rle_trans with (((1 - eps) * y) * ((1 - eps) * y)); [nra|].
    apply Rmult_le_compat; nra.
  - apply Rle_trans with (((1 + eps) * y) * ((1 + eps) * y)); [|nra].
    apply Rmult_le_compat; nra.
Qed.

Lemma close_sq (x y eps : R) :
  0 <= eps <= 1 -> Rabs (x - y) <= eps * Rabs y ->
  within (x * x) (y * y) (3 * eps).
Proof.
  intros He H.
  assert (W : within (Rabs x) (Rabs y) eps).
  { apply close_within; [apply Rabs_pos|].
    apply Rle_trans with (2 := H). apply Rabs_triang_inv2. }
  apply within_sq in W; [|apply Rabs_pos|exact He].
  replace (x * x) with (Rabs x * Rabs x); [replace (y * y) with (Rabs y * Rabs y)|];
    [exact W| |]; rewrite <- Rabs_mult; apply Rabs_pos_eq; nra.
Qed.

Lemma within_sqrt (x y eps : R) :
  0 <= y -> 0 <= eps <= 1 -> within x y eps ->
  within (R_sqrt.sqrt x) (R_sqrt.sqrt y) eps.
Proof.
  intros Hy He W. pose proof (within_nonneg x y eps Hy (proj2 He) W) as Hx.
  destruct W as [Hl Hu]. unfold within.
  pose proof (sqrt_pos y) as Sy.
  split.
  - rewrite <- (sqrt_square (1 - eps)) by lra.
    rewrite <- sqrt_mult_alt by nra.
    apply sqrt_le_1_alt. apply Rle_trans with (2 := Hl).
    apply Rmult_le_compat_r; nra.
  - rewrite <- (sqrt_square (1 + eps)) by lra.
    rewrite <- sqrt_mult_alt by nra.
    apply sqrt_le_1_alt. apply Rle_trans with (1 := Hu).
    apply Rmult_le_compat_r; nra.
Qed.

Lemma within_inv (x y eps : R) :
  0 < y -> 0 <= eps <= / 2 -> within x y eps ->
  within (/ x) (/ y) (2 * eps).
Proof.
  intros Hy He W.
  assert (Hx : 0 < x) by (apply (within_pos x y eps); [assumption|lra|assumption]).
  destruct W as [Hl Hu]. unfold within.
  set (ix := / x). set (iy := / y).
  assert (Pix : 0 < ix) by (apply Rinv_0_lt_compat; assumption).
  assert (Piy : 0 < iy) by (apply Rinv_0_lt_compat; assumption).
  assert (Ex : x * ix = 1) by (unfold ix; field; lra).
  assert (Ey : y * iy = 1) by (unfold iy; field; lra).
  assert (Pxy : 0 <= ix * iy) by nra.
  assert (H1 : (1 - eps) * ix <= iy).
  { replace ((1 - eps) * ix) with ((1 - eps) * y * (ix * iy))
      by (transitivity ((1 - eps) * ix * (y * iy)); [ring|rewrite Ey; ring]).
    replace iy with (x * (ix * iy)) at 2
      by (transitivity (iy * (x * ix)); [ring|rewrite Ex; ring]).
    apply Rmult_le_compat_r; assumption. }
  assert (H2 : iy <= (1 + eps) * ix).
  { replace ((1 + eps) * ix) with ((1 + eps) * y * (ix * iy))
      by (transitivity ((1 + eps) * ix * (y * iy)); [ring|rewrite Ey; ring]).
    replace iy with (x * (ix * iy)) at 1
      by (transitivity (iy * (x * ix)); [ring|rewrite Ex; ring]).
    apply Rmult_le_compat_r; assumption. }
  assert (0 <= eps * eps <= eps / 2) by nra.
  split.
  - (* (1 - 2 eps) iy <= ix *)
    assert ((1 - 2 * eps) * iy <= (1 - 2 * eps) * ((1 + eps) * ix))
      by (apply Rmult_le_compat_l; lra).
    assert ((1 - 2 * eps) * (1 + eps) <= 1) by nra.
    nra.
  - assert ((1 - eps) * ix <= (1 - eps) * ((1 + 2 * eps) * iy)); [|nra].
    apply Rle_trans with (1 := H1).
    assert (1 <= (1 - eps) * (1 + 2 * eps)) by nra. nra.
Qed.

(** *** The unit round-off *)

Lemma roundoff_value : roundoff * 4503599627370496 = 1.
Proof.
  unfold roundoff. change 4503599627370496 with (IZR (2 ^ 52)).
  rewrite bpow_IZR by lia. rewrite Rmult_comm. apply bpow_opp.
Qed.

Lemma roundoff_small : 0 < roundoff /\ roundoff * roundoff <= roundoff / 1000000 /\ roundoff <= / 1000000.
Proof.
  pose proof roundoff_pos. pose proof roundoff_value.
  assert (roundoff <= / 1000000) by lra. repeat split; try assumption. nra.
Qed.

Lemma bpow_m40 : bpow (-40) = roundoff * 4096.
Proof.
  unfold roundoff. change 4096 with (IZR (2 ^ 12)). rewrite bpow_IZR by lia.
  rewrite <- bpow_add. reflexivity.
Qed.

Lemma ZN_weaken (x : float) (lo hi lo' hi' : Z) :
  ZN x lo hi -> (lo' <= lo)%Z -> (hi <= hi')%Z -> ZN x lo' hi'.
Proof. apply zn_weaken. Qed.

(** The length the program computes, against the length. *)
Lemma norm_ok (a b c : float) (l h : Z) :
  ZN a l h -> ZN b l h -> ZN c l h -> (-563 <= l)%Z -> (h <= 456)%Z ->
  let n := PrimFloat.sqrt (a * a + b * b + c * c)%float in
  ZN n l (h + 4) /\ NN n /\
  within (real_of n) (R_sqrt.sqrt (real_of a * real_of a + real_of b * real_of b + real_of c * real_of c)) (7 * roundoff).
Proof.
  intros Ha Hb Hc Hl Hh.
  destruct (square_ok a l h Ha) as (Za & Na & Va); try lia.
  destruct (square_ok b l h Hb) as (Zb & Nb & Vb); try lia.
  destruct (square_ok c l h Hc) as (Zc & Nc & Vc); try lia.
  destruct (add_ok _ _ _ _ _ _ Za Zb Na Nb) as (Zt & Nt & Vt); try lia.
  destruct (add_ok _ _ _ _ _ _ Zt Zc Nt Nc) as (Zs & Ns & Vs); try lia.
  destruct (sqrt_ok _ _ _ Zs Ns) as (Zn & Nn & Vn); try lia.
  cbv zeta. split; [|split; [exact Nn|]].
  { eapply ZN_weaken; [exact Zn| |]; Z.div_mod_to_equations; lia. }
  destruct roundoff_small as (Pu & Hu2 & Hu).
  set (A2 := real_of a * real_of a) in *. set (B2 := real_of b * real_of b) in *.
  set (C2 := real_of c * real_of c) in *.
  assert (PA : 0 <= A2) by (unfold A2; nra).
  assert (PB : 0 <= B2) by (unfold B2; nra).
  assert (PC : 0 <= C2) by (unfold C2; nra).
  pose proof (nonneg_val _ Na) as Pa. pose proof (nonneg_val _ Nb) as Pb.
  pose proof (nonneg_val _ Nc) as Pc. pose proof (nonneg_val _ Nt) as Pt.
  pose proof (nonneg_val _ Ns) as Ps.
  fold (real_of (a * a)) in Pa. fold (real_of (b * b)) in Pb. fold (real_of (c * c)) in Pc.
  fold (real_of (a * a + b * b)) in Pt. fold (real_of (a * a + b * b + c * c)) in Ps.
  assert (Wa : within (real_of (a * a)) A2 roundoff) by (apply close_within; assumption).
  assert (Wb : within (real_of (b * b)) B2 roundoff) by (apply close_within; assumption).
  assert (Wc : within (real_of (c * c)) C2 roundoff) by (apply close_within; assumption).
  assert (Wt : within (real_of (a * a + b * b)) (A2 + B2) (3 * roundoff)).
  { apply (within_trans _ (real_of (a * a) + real_of (b * b)) _ roundoff roundoff); try lra.
    - apply close_within; [lra|exact Vt].
    - apply within_add; assumption. }
  assert (Ws : within (real_of (a * a + b * b + c * c)) (A2 + B2 + C2) (5 * roundoff)).
  { apply (within_trans _ (real_of (a * a + b * b) + real_of (c * c)) _ roundoff (3 * roundoff)); try lra.
    - apply close_within; [lra|exact Vs].
    - apply within_add; [exact Wt|].
      apply (within_weaken _ _ roundoff); [assumption|lra|assumption]. }
  apply (within_trans _ (R_sqrt.sqrt (real_of (a * a + b * b + c * c))) _ roundoff (5 * roundoff));
    try lra.
  - apply sqrt_pos.
  - apply close_within; [apply sqrt_pos|exact Vn].
  - apply within_sqrt; [lra|lra|exact Ws].
Qed.

Lemma real_of_one : real_of 1%float = 1.
Proof.
  unfold real_of. change (Prim2SF 1) with (S754_finite false 4503599627370496 (-52)).
  simpl val. change 4503599627370496 with (IZR (2 ^ 52)).
  rewrite bpow_IZR by lia. rewrite Rmult_1_l. apply bpow_opp.
Qed.

Lemma normal_one : normal (Prim2SF 1%float) (-52) (-52).
Proof.
  change (Prim2SF 1) with (S754_finite false 4503599627370496 (-52)).
  simpl. split; [reflexivity|lia].
Qed.

(** The scaled component, squared, against the component of the unit
    vector, squared. *)
Lemma scaled_square (a k : float) (A S : R) :
  ZN a (-302) 198 -> normal (Prim2SF k) (-307) 199 -> 0 < S ->
  real_of a = A ->
  within (real_of k) (/ R_sqrt.sqrt S) (16 * roundoff) ->
  ZN (a * k) (-557) 451 /\
  within (real_of (a * k) * real_of (a * k)) (A * A * / S) (52 * roundoff).
Proof.
  intros Ha Hk HS <- Wk.
  destruct (mul_ok a k _ _ _ _ Ha (normal_zn _ _ _ Hk)) as [Zm Vm]; try lia.
  split; [eapply ZN_weaken; [exact Zm|lia|lia]|].
  destruct roundoff_small as (Pu & Hu2 & Hu).
  pose proof (sqrt_lt_R0 S HS) as PN.
  assert (PiN : 0 < / R_sqrt.sqrt S) by (apply Rinv_0_lt_compat; exact PN).
  assert (HiS : / R_sqrt.sqrt S * / R_sqrt.sqrt S = / S).
  { rewrite <- Rinv_mult, sqrt_sqrt by lra. reflexivity. }
  assert (Pz : 0 <= real_of a * real_of a * / S).
  { assert (0 < / S) by (apply Rinv_0_lt_compat; exact HS).
    apply Rmult_le_pos; [nra|lra]. }
  apply (within_trans _ ((real_of a * real_of k) * (real_of a * real_of k)) _ (3 * roundoff) (48 * roundoff) (52 * roundoff) Pz
           ltac:(lra) ltac:(lra) ltac:(nra)).
  - apply close_sq; [lra|exact Vm].
  - replace (real_of a * real_of k * (real_of a * real_of k)) with (real_of a * real_of a * (real_of k * real_of k)) by ring.
    apply within_scale; [nra|].
    rewrite <- HiS. replace (48 * roundoff) with (3 * (16 * roundoff)) by ring.
    apply within_sq; [lra|lra|exact Wk].
Qed.

(** On doubles, a vector whose components are zero or moderate, and not
    all zero, is scaled to a length within [61 * 2^-52] of 1. *)
Lemma scaled_length_within_tolerance (a b c : float) :
  ZN a (-302) 198 -> ZN b (-302) 198 -> ZN c (-302) 198 ->
  0 < real_of a * real_of a + real_of b * real_of b + real_of c * real_of c ->
  let n := PrimFloat.sqrt (a * a + b * b + c * c)%float in
  let k := (1 / n)%float in
  ((n =? 0)%float = false /\ (n =? n)%float = true) /\
  (abs (PrimFloat.sqrt (a * k * (a * k) + b * k * (b * k) + c * k * (c * k)) - 1)
   <=? 0x1.0c6f7a0b5ed8dp-20)%float = true.
Proof.
  intros Ha Hb Hc HS n k.
  destruct roundoff_small as (Pu & Hu2 & Hu).
  destruct (norm_ok a b c (-302) 198 Ha Hb Hc) as (Zn & Nn & Wn); try lia.
  fold n in Zn, Nn, Wn. simpl Z.add in Zn.
  set (S := real_of a * real_of a + real_of b * real_of b + real_of c * real_of c) in *.
  pose proof (sqrt_lt_R0 S HS) as PN.
  assert (Pn : 0 < real_of n).
  { apply (within_pos _ _ _ PN) in Wn; [exact Wn|lra]. }
  assert (Hn : normal (Prim2SF n) (-302) 202).
  { apply zn_normal; [exact Zn|]. fold (real_of n). lra. }
  split; [exact (normal_truthy n _ _ Hn)|].
  destruct (div_ok 1 n _ _ _ _ normal_one Hn) as [Zk Vk]; try lia.
  fold k in Zk, Vk. simpl Z.sub in Zk. rewrite real_of_one in Vk.
  assert (Wk : within (real_of k) (/ R_sqrt.sqrt S) (16 * roundoff)).
  { assert (Pin : 0 < / real_of n) by (apply Rinv_0_lt_compat; exact Pn).
    assert (Pz : 0 <= / R_sqrt.sqrt S)
      by (left; apply Rinv_0_lt_compat; exact PN).
    apply (within_trans _ (/ real_of n) _ roundoff (14 * roundoff) (16 * roundoff) Pz
             ltac:(lra) ltac:(lra) ltac:(nra)).
    - apply close_within; [lra|].
      unfold Rdiv in Vk. rewrite Rmult_1_l in Vk.
      rewrite (Rabs_pos_eq (/ real_of n)) in Vk; [exact Vk|lra].
    - replace (14 * roundoff) with (2 * (7 * roundoff)) by ring.
      apply within_inv; [exact PN|lra|exact Wn]. }
  destruct (scaled_square a k (real_of a) S Ha Zk HS eq_refl Wk) as [Za Wa].
  destruct (scaled_square b k (real_of b) S Hb Zk HS eq_refl Wk) as [Zb Wb].
  destruct (scaled_square c k (real_of c) S Hc Zk HS eq_refl Wk) as [Zc Wc].
  destruct (norm_ok (a * k) (b * k) (c * k) (-557) 451 Za Zb Zc)
    as (Zn' & Nn' & Wn'); try lia.
  simpl Z.add in Zn'.
  set (n' := PrimFloat.sqrt (a * k * (a * k) + b * k * (b * k) + c * k * (c * k))%float) in *.
  assert (Wsum : within (real_of (a * k) * real_of (a * k) + real_of (b * k) * real_of (b * k)
                         + real_of (c * k) * real_of (c * k)) 1 (52 * roundoff)).
  { replace 1 with (real_of a * real_of a * / S + real_of b * real_of b * / S + real_of c * real_of c * / S)
      by (unfold S; field; unfold S in HS; lra).
    apply within_add; [apply within_add|]; assumption. }
  assert (W1 : within (real_of n') 1 (60 * roundoff)).
  { rewrite <- sqrt_1.
    apply (within_trans _ _ _ (7 * roundoff) (52 * roundoff) (60 * roundoff) ltac:(apply sqrt_pos)
             ltac:(lra) ltac:(lra) ltac:(nra) Wn').
    apply within_sqrt; [lra|lra|exact Wsum]. }
  assert (Pn' : 0 < real_of n').
  { apply (within_pos _ 1 (60 * roundoff)); [lra|lra|exact W1]. }
  assert (Hn' : normal (Prim2SF n') (-557) 455).
  { apply zn_normal; [exact Zn'|]. fold (real_of n'). lra. }
  destruct (sub_ok n' 1 _ _ _ _ Hn' normal_one) as [Zr Vr]; try lia.
  rewrite real_of_one in Vr.
  apply (small_within_tolerance _ _ _ Zr).
  rewrite bpow_m40.
  destruct W1 as [Wl Wu].
  assert (Hd : Rabs (real_of n' - 1) <= 60 * roundoff) by (apply Rabs_le; lra).
  apply Rabs_bound in Vr.
  apply Rabs_le. pose proof (Rabs_pos (real_of n' - 1)). split; nra.
Qed.

End RoundingOnDoubles.

(** * The claims *)

(** ** On any numbers *)

Section ClaimsOnAnyNumbers.
Context {N : Number}.
Local Open Scope num_scope.
Import Quadratic.


(** C8.  When [c2 === 0] the only candidate is [t = -2 * c0 / c1]: the
    method returns the target holding the point at [t] exactly when
    [c1 !== 0] and [t] passes the candidate test ([t >= 0] and the axial
    coordinate [d] in [[0, height]]), and [null] otherwise, in particular
    whenever [c1 === 0]. *)
Theorem linear_case_reported cl ry fl tg (i : inputs) (h : heap) :
  separate cl ry i -> scene cl ry fl tg i h ->
  (c2 i === 0) = true ->
  linear_root i = num_neg 2 * c0 i / c1 i /\
  valid i (linear_root i) =
    (linear_root i >=? 0) && (axial i (linear_root i) >=? 0) &&
    (axial i (linear_root i) <=? i.(frustum_fields).(height)) /\
  exists h',
    intersectsConeFrustum cl ry fl tg h
    = Ok (if (c1 i !== 0) && valid i (linear_root i)
          then VObject (target_of cl tg) else VNull) h' /\
    ((c1 i !== 0) && valid i (linear_root i) = true ->
     vec_at h' (target_of cl tg) (point i (linear_root i))).
Proof.
  intros Hsep Hs E2. split; [reflexivity|]. split; [reflexivity|].
  pose proof (nearest_linear i E2) as Hn.
  destruct ((c1 i !== 0) && valid i (linear_root i)) eqn:E.
  - destruct (intersects_hit cl ry fl tg i Hsep h _ Hs Hn) as (h' & Hrun & Hp).
    unfold reported in *. rewrite E2 in *. simpl in *. now exists h'.
  - destruct (intersects_miss cl ry fl tg i Hsep h Hs Hn) as (h' & Hrun).
    exists h'. split; [assumption | discriminate].
Qed.

(** C3.  [empty()] changes nothing and returns [true] exactly when
    [height === 0], or [radius0 === 0] and [radius1 === 0]. *)
Theorem empty_iff (h : heap) l (f : frustum) :
  frustum_at h l f ->
  exists b,
    ConeFrustum.empty l h = Ok b h /\
    (b = true <->
     (f.(height) === 0) = true \/
     ((f.(radius0) === 0) = true /\ (f.(radius1) === 0) = true)).
Proof.
  intros Hf. unfold ConeFrustum.empty.
  rewrite (run_get_frustum _ _ _ _ Hf).
  eexists. split; [reflexivity|].
  rewrite orb_true_iff, andb_true_iff. reflexivity.
Qed.

(** C4.  [clone()] builds the copy (a new frustum with the numbers of
    [this], on new vectors holding the contents of its base and axis as
    the constructor stores them) but evaluates to [undefined], because
    [copy] returns nothing; [equals] on that result throws. *)
Theorem clone_evaluates_to_undefined (h : heap) this (f : frustum) wb wa :
  frustum_at h this f ->
  vec_at h f.(base) wb -> vec_at h f.(axis) wa ->
  exists h',
    ConeFrustum.clone this h = Ok VUndefined h' /\
    ConeFrustum.equals this VUndefined h' = TypeError /\
    exists l' f',
      h !! l' = None /\ frustum_at h' l' f' /\
      vec_at h' f'.(base) (Vector3.stored wb) /\
      vec_at h' f'.(axis) (Vector3.stored wa) /\
      f'.(height) = f.(height) /\
      f'.(radius0) = f.(radius0) /\
      f'.(radius1) = f.(radius1).
Proof.
  intros Hf Hb Ha.
  destruct (clone_run this f wb wa h Hf Hb Ha)
    as (l' & f' & h' & Hrun & Hnew & Hf' & _ & _ & Hwb & Hwa & Hh & H0 & H1 & _).
  exists h'. split; [assumption|]. split; [reflexivity|].
  exists l', f'. repeat split; assumption.
Qed.

(** C9.  A number [n] with [n === 0] passed for [height], [radius0] or
    [radius1] gives the call the omitted argument gives, and the default
    is what the frustum gets: the call with such a [height] returns a
    frustum whose [height] is [1], the call with such a [radius0] one
    whose [radius0] is [0], and the call with such a [radius1] one whose
    [radius1] is [0] (the axis, if supplied, being a vector). *)
Theorem zero_argument_defaulted (h : heap) (base0 axis0 : option loc)
    (ht r0 r1 : option num) (n : num) :
  (n === 0) = true ->
  match axis0 with Some a => is_vec h a | None => True end ->
  ConeFrustum.constructor base0 axis0 (Some n) r0 r1 h
  = ConeFrustum.constructor base0 axis0 None r0 r1 h /\
  ConeFrustum.constructor base0 axis0 ht (Some n) r1 h
  = ConeFrustum.constructor base0 axis0 ht None r1 h /\
  ConeFrustum.constructor base0 axis0 ht r0 (Some n) h
  = ConeFrustum.constructor base0 axis0 ht r0 None h /\
  (exists fl f h',
     ConeFrustum.constructor base0 axis0 (Some n) r0 r1 h = Ok fl h' /\
     frustum_at h' fl f /\ f.(height) = 1) /\
  (exists fl f h',
     ConeFrustum.constructor base0 axis0 ht (Some n) r1 h = Ok fl h' /\
     frustum_at h' fl f /\ f.(radius0) = 0) /\
  (exists fl f h',
     ConeFrustum.constructor base0 axis0 ht r0 (Some n) h = Ok fl h' /\
     frustum_at h' fl f /\ f.(radius1) = 0).
Proof.
  intros Hn Ha.
  assert (Hd : forall d, arg_or (Some n) d = arg_or None d).
  { intros d. unfold arg_or, num_or, truthy. now rewrite Hn. }
  unfold ConeFrustum.constructor. rewrite !Hd.
  split; [reflexivity|]. split; [reflexivity|]. split; [reflexivity|].
  fold (ConeFrustum.constructor base0 axis0 None r0 r1).
  fold (ConeFrustum.constructor base0 axis0 ht None r1).
  fold (ConeFrustum.constructor base0 axis0 ht r0 None).
  split; [|split].
  - destruct (constructor_run base0 axis0 None r0 r1 h Ha)
      as (fl & f & w & h' & Hrun & Hf & _ & _ & _ & _ & Hh & _).
    now exists fl, f, h'.
  - destruct (constructor_run base0 axis0 ht None r1 h Ha)
      as (fl & f & w & h' & Hrun & Hf & _ & _ & _ & _ & _ & H0 & _).
    now exists fl, f, h'.
  - destruct (constructor_run base0 axis0 ht r0 None h Ha)
      as (fl & f & w & h' & Hrun & Hf & _ & _ & _ & _ & _ & _ & H1 & _).
    now exists fl, f, h'.
Qed.

(** C10, as the code has it.  The constructor keeps the vectors it is
    given: the frustum's [base] and [axis] are the caller's objects, and
    the caller's axis object is normalized in place (nothing else the
    caller has is written).  [fromCapsule] keeps [center0] itself as the
    base, gives the frustum a new axis vector, and writes to no object the
    caller has. *)
Theorem construction_shares_vectors (h : heap) b a wb wa ht r0 r1 :
  vec_at h b wb -> vec_at h a wa ->
  (exists fl f h',
     ConeFrustum.constructor (Some b) (Some a) ht r0 r1 h = Ok fl h' /\
     frustum_at h' fl f /\
     f.(base) = b /\ f.(axis) = a /\
     vec_at h' a (Vector3.normalized wa) /\
     (forall l ob, h !! l = Some ob -> l <> a -> h' !! l = Some ob)) /\
  (forall q0 q1, exists fl f h',
     ConeFrustum.fromCapsule b q0 a q1 h = Ok fl h' /\
     frustum_at h' fl f /\
     f.(base) = b /\ h !! f.(axis) = None /\
     (forall l ob, h !! l = Some ob -> h' !! l = Some ob)).
Proof.
  intros Hb Ha. split.
  - destruct (constructor_run (Some b) (Some a) ht r0 r1 h
                (vec_at_is_vec _ _ _ Ha))
      as (fl & f & w & h' & Hrun & Hf & _ & Hbase & (Haxis & Hw) & Hn
          & _ & _ & _ & Hkeep).
    exists fl, f, h'. rewrite Haxis in *.
    unfold vec_at in Hw, Ha. assert (w = wa) as -> by congruence.
    repeat split; assumption.
  - intros q0 q1.
    destruct (fromCapsule_run b q0 a q1 wb wa h Hb Ha)
      as (fl & f & h' & Hrun & Hf & _ & Hbase & Hax & _ & _ & _ & _ & Hkeep).
    exists fl, f, h'. repeat split; assumption.
Qed.

(** C2, as the code has it.  Whenever the method returns an object, the
    object holds [base + u] with [u = (origin - base) + t * direction],
    as the method computes them, for a parameter [t] that passed the
    candidate test: [t >= 0], and the axial coordinate the method tests,
    [d = axis . u], has [d >= 0] and [d <= height]. *)
Theorem hit_passes_candidate_test cl ry fl tg (i : inputs) (h h' : heap) l :
  separate cl ry i -> scene cl ry fl tg i h ->
  intersectsConeFrustum cl ry fl tg h = Ok (VObject l) h' ->
  exists t u,
    u = Vector3.add_scaled
          (Vector3.sub i.(ray_origin) i.(frustum_base)) i.(ray_direction) t /\
    vec_at h' l (Vector3.add i.(frustum_base) u) /\
    (t >=? 0) = true /\
    (Vector3.dot_product i.(frustum_axis) u >=? 0) = true /\
    (Vector3.dot_product i.(frustum_axis) u <=? i.(frustum_fields).(height))
    = true.
Proof.
  intros Hsep Hs Hrun.
  destruct (intersects_object cl ry fl tg i Hsep h l h' Hs Hrun)
    as (t & Hn & Hp).
  pose proof (nearest_valid i t Hn) as Hv. unfold valid in Hv.
  apply andb_prop in Hv as [Hv Hh]. apply andb_prop in Hv as [Ht Hd].
  exists t, (along i t). split; [reflexivity|].
  split; [exact Hp|]. split; [exact Ht|]. split; [exact Hd | exact Hh].
Qed.

(** What the constructor stores as the axis, on any numbers.  The
    constructor normalizes the axis in place by the library's rule: the
    axis of the frustum is the supplied object, or a new vector made by
    [new Vector3( 0, 1, 0 )] when none is supplied, and it ends holding
    every component multiplied by [1 / (L || 1)], where [L] is the length
    [sqrt( x * x + y * y + z * z )] as the method computes it. *)
Theorem constructed_axis_scaled (h : heap) base0 axis0 ht r0 r1 (wa : vec3) :
  match axis0 with Some a => vec_at h a wa | None => True end ->
  exists fl f h',
    ConeFrustum.constructor base0 axis0 ht r0 r1 h = Ok fl h' /\
    frustum_at h' fl f /\
    match axis0 with
    | Some a => f.(axis) = a
    | None => h !! f.(axis) = None
    end /\
    let w := match axis0 with
             | Some _ => wa
             | None => Vector3.stored (Vec3 0 1 0)
             end in
    let L := num_sqrt (w.(x) * w.(x) + w.(y) * w.(y) + w.(z) * w.(z)) in
    vec_at h' f.(axis)
      (Vec3 (w.(x) * (1 / num_or L 1))
            (w.(y) * (1 / num_or L 1))
            (w.(z) * (1 / num_or L 1))).
Proof.
  intros Ha.
  destruct (constructor_run base0 axis0 ht r0 r1 h)
    as (fl & f & w & h' & Hrun & Hf & _ & _ & Haxis & Hn & _).
  { destruct axis0 as [a|]; [now exists wa | exact I]. }
  exists fl, f, h'. split; [exact Hrun|]. split; [exact Hf|].
  destruct axis0 as [a|].
  - destruct Haxis as (Hax & Hw). split; [exact Hax|].
    unfold vec_at in Ha, Hw. assert (w = wa) as -> by congruence. exact Hn.
  - destruct Haxis as (Hnew & ->). split; [exact Hnew | exact Hn].
Qed.

(** C6, as the code has it.  [fromCapsule] returns a frustum whose base
    is [center0] itself, whose height is [L || 1] for the length [L] of
    [center1 - center0] as computed, whose axis is a new vector holding
    that difference normalized twice (once on a clone, once by the
    constructor), and whose radii are [radius0 || 0] and [radius1 || 0];
    the two centers hold what they held. *)
Theorem fromCapsule_stores (h : heap) c0 r0 c1 r1 (w0 w1 : vec3) :
  vec_at h c0 w0 -> vec_at h c1 w1 ->
  exists fl f h',
    ConeFrustum.fromCapsule c0 r0 c1 r1 h = Ok fl h' /\
    frustum_at h' fl f /\
    f.(base) = c0 /\ vec_at h' c0 w0 /\ vec_at h' c1 w1 /\
    f.(height) = num_or (Vector3.norm (Vector3.sub w1 w0)) 1 /\
    h !! f.(axis) = None /\
    vec_at h' f.(axis)
      (Vector3.normalized
         (Vector3.normalized (Vector3.stored (Vector3.sub w1 w0)))) /\
    f.(radius0) = num_or r0 0 /\ f.(radius1) = num_or r1 0.
Proof.
  intros H0 H1.
  destruct (fromCapsule_run c0 r0 c1 r1 w0 w1 h H0 H1)
    as (fl & f & h' & Hrun & Hf & _ & Hb & Hnew & Hax & Hh & Hr0 & Hr1 & Hk).
  exists fl, f, h'. repeat split; try assumption; now apply Hk.
Qed.

End ClaimsOnAnyNumbers.

(** ** On doubles *)

Section ClaimsOnDoubles.
Local Existing Instance float_number.
Local Open Scope float_scope.
Local Abbreviation vec := (Vec3 (N := float_number)).

Lemma cylinder_separate :
  separate Scenario.scratch Scenario.the_ray Scenario.cylinder_inputs.
Proof. split; simpl; repeat split; discriminate. Qed.

Lemma cylinder_scene :
  scene Scenario.scratch Scenario.the_ray 3%positive None
    Scenario.cylinder_inputs Scenario.cylinder_heap.
Proof. split; try reflexivity; eexists; reflexivity. Qed.

Lemma cone_separate :
  separate Scenario.scratch Scenario.the_ray Scenario.cone_inputs.
Proof. split; simpl; repeat split; discriminate. Qed.

Lemma cone_scene :
  scene Scenario.scratch Scenario.the_ray 3%positive None
    Scenario.cone_inputs Scenario.cone_heap.
Proof. split; try reflexivity; eexists; reflexivity. Qed.

(** On doubles, a supplied axis whose components are zero or of a
    magnitude between [2^-250] and [2^250], and not all zero, is stored
    with a length within [1e-6] of 1. *)
Lemma moderate_within_tolerance (w : @vec3 float_number) :
  Rounding.moderate w = true -> Rounding.unit_within_tolerance w = true.
Proof.
  destruct w as [a b c]. unfold Rounding.moderate. cbn [x y z].
  intros H. apply andb_prop in H as [H Hnz]. apply andb_prop in H as [H Hc].
  apply andb_prop in H as [Ha Hb].
  apply moderate_double in Ha, Hb, Hc.
  assert (HS : (0 < real_of a * real_of a + real_of b * real_of b
                    + real_of c * real_of c)%R).
  { assert (Hsq : forall t : R, (0 <= t * t)%R) by (intros t; nra).
    assert (Hpos : forall t : R, t <> 0%R -> (0 < t * t)%R) by (intros t Ht; nra).
    pose proof (Hsq (real_of a)). pose proof (Hsq (real_of b)).
    pose proof (Hsq (real_of c)).
    apply negb_true_iff in Hnz.
    destruct (PrimFloat.eqb a 0) eqn:Ea;
      [destruct (PrimFloat.eqb b 0) eqn:Eb;
       [destruct (PrimFloat.eqb c 0) eqn:Ec; [discriminate Hnz|]|]|].
    - pose proof (Hpos _ (normal_nonzero _ _ _ (eqb_zero_false c _ _ Hc Ec))).
      unfold real_of in *. lra.
    - pose proof (Hpos _ (normal_nonzero _ _ _ (eqb_zero_false b _ _ Hb Eb))).
      unfold real_of in *. lra.
    - pose proof (Hpos _ (normal_nonzero _ _ _ (eqb_zero_false a _ _ Ha Ea))).
      unfold real_of in *. lra. }
  destruct (scaled_length_within_tolerance a b c Ha Hb Hc HS)
    as [[Hn0 Hnn] Hle].
  cbv [Rounding.unit_within_tolerance Vector3.norm Vector3.normalized
       Vector3.scale num_or truthy x y z num_mul num_add num_div num_sqrt
       num_sub num_abs num_leb num_eqb num_lit float_number
       Rounding.millionth Double.of_Z].
  change PrimFloat.zero with 0%float.
  change (PrimFloat.of_uint63 (Uint63.of_Z 1)) with 1%float.
  rewrite Hn0, Hnn. exact Hle.
Qed.

(** C5, on doubles.  When the supplied axis vector has components that
    are zero or of a magnitude between [2^-250] and [2^250], and not all
    zero, or when no axis is supplied, the axis the constructor stores
    has a length, as the program computes it, within [1e-6] of 1. *)
Theorem constructed_axis_within_tolerance (h : heap) base0 axis0 ht r0 r1
        (wa : vec3) :
  match axis0 with
  | Some a => vec_at h a wa /\ Rounding.moderate wa = true
  | None => True
  end ->
  exists fl f h' w,
    ConeFrustum.constructor base0 axis0 ht r0 r1 h = Ok fl h' /\
    frustum_at h' fl f /\
    match axis0 with
    | Some a => f.(axis) = a
    | None => h !! f.(axis) = None
    end /\
    vec_at h' f.(axis) w /\
    (abs (Vector3.norm w - 1) <=? 0x1.0c6f7a0b5ed8dp-20) = true.
Proof.
  intros Ha.
  destruct (constructor_run base0 axis0 ht r0 r1 h)
    as (fl & f & w & h' & Hrun & Hf & _ & _ & Haxis & Hn & _).
  { destruct axis0 as [a|]; [exists wa; tauto | exact I]. }
  exists fl, f, h', (Vector3.normalized w).
  split; [exact Hrun|]. split; [exact Hf|].
  assert (Hm : Rounding.moderate w = true).
  { destruct axis0 as [a|].
    - destruct Ha as [Ha Hm], Haxis as [_ Hw].
      unfold vec_at in Ha, Hw. assert (w = wa) as -> by congruence. exact Hm.
    - destruct Haxis as [_ ->]. vm_compute. reflexivity. }
  split; [destruct axis0; tauto|]. split; [exact Hn|].
  exact (moderate_within_tolerance w Hm).
Qed.


(** For the ray along the cone's slope, [t = 4] passes the test and the
    method reports the point [(1, 4, 0)]. *)
Lemma linear_case_reported_witness :
  exists h',
    intersectsConeFrustum Scenario.scratch Scenario.the_ray 3%positive None
      Scenario.cone_heap
    = Ok (VObject 7%positive) h' /\
    vec_at h' 7%positive (vec 1 4 0).
Proof.
  destruct (linear_case_reported
              Scenario.scratch Scenario.the_ray 3%positive None
              Scenario.cone_inputs Scenario.cone_heap
              cone_separate cone_scene eq_refl)
    as (_ & _ & h' & Hrun & Hp).
  exists h'. split; [exact Hrun | exact (Hp eq_refl)].
Defined.

(** The cylinder of the scene is not empty. *)
Lemma empty_iff_witness :
  ConeFrustum.empty 3%positive Scenario.cylinder_heap
  = Ok false Scenario.cylinder_heap.
Proof.
  destruct (empty_iff Scenario.cylinder_heap 3%positive
              Scenario.cylinder eq_refl) as (b & Hrun & Hb).
  rewrite Hrun. f_equal. destruct b; [|reflexivity].
  destruct (proj1 Hb eq_refl) as [H|[H _]]; discriminate H.
Defined.

(** Cloning the cylinder of the scene. *)
Lemma clone_evaluates_to_undefined_witness :
  exists h',
    ConeFrustum.clone 3%positive Scenario.cylinder_heap = Ok VUndefined h' /\
    ConeFrustum.equals 3%positive VUndefined h' = TypeError.
Proof.
  destruct (clone_evaluates_to_undefined
              Scenario.cylinder_heap 3%positive Scenario.cylinder
              (vec 0 0 0) (vec 0 1 0) eq_refl eq_refl eq_refl)
    as (h' & Hrun & Heq & _).
  exists h'. split; assumption.
Defined.

(** [new ConeFrustum( null, null, -0, 0, 0 )] on the empty heap, and the
    calls with [-0] for [radius0] and for [radius1]. *)
Lemma zero_argument_defaulted_witness :
  (exists fl f h',
     ConeFrustum.constructor None None (Some (-0)) (Some 0) (Some 0) ∅
     = Ok fl h' /\
     frustum_at h' fl f /\ f.(height) = 1) /\
  (exists fl f h',
     ConeFrustum.constructor None None (Some 0) (Some (-0)) (Some 0) ∅
     = Ok fl h' /\
     frustum_at h' fl f /\ f.(radius0) = 0) /\
  (exists fl f h',
     ConeFrustum.constructor None None (Some 0) (Some 0) (Some (-0)) ∅
     = Ok fl h' /\
     frustum_at h' fl f /\ f.(radius1) = 0).
Proof.
  exact (proj2 (proj2 (proj2
    (zero_argument_defaulted ∅ None None (Some 0) (Some 0) (Some 0) (-0)
       eq_refl I)))).
Defined.

(** A frustum built on the ray's origin and direction vectors of the
    cylinder scene. *)
Lemma construction_shares_vectors_witness :
  exists fl f h',
    ConeFrustum.constructor (Some 4%positive) (Some 5%positive)
      None None None Scenario.cylinder_heap = Ok fl h' /\
    frustum_at h' fl f /\
    f.(base) = 4%positive /\ f.(axis) = 5%positive.
Proof.
  destruct (construction_shares_vectors
              Scenario.cylinder_heap 4%positive 5%positive
              (vec 2 1 0) (vec (-1) 0 0) None None None eq_refl eq_refl)
    as ((fl & f & h' & Hrun & Hf & Hb & Ha & _) & _).
  exists fl, f, h'. repeat split; assumption.
Defined.

(** On the cylinder scene the reported parameter passed the test. *)
Lemma hit_passes_candidate_test_witness :
  exists h' t u,
    intersectsConeFrustum Scenario.scratch Scenario.the_ray 3%positive None
      Scenario.cylinder_heap = Ok (VObject 7%positive) h' /\
    u = Vector3.add_scaled (Vector3.sub (vec 2 1 0) (vec 0 0 0))
          (vec (-1) 0 0) t /\
    vec_at h' 7%positive (Vector3.add (vec 0 0 0) u) /\
    (0 <=? t) = true /\
    (0 <=? Vector3.dot_product (vec 0 1 0) u) = true /\
    (Vector3.dot_product (vec 0 1 0) u <=? 2) = true.
Proof.
  destruct (intersects_hit Scenario.scratch Scenario.the_ray 3%positive None
              Scenario.cylinder_inputs cylinder_separate
              Scenario.cylinder_heap 1 cylinder_scene eq_refl)
    as (h' & Hrun & _).
  destruct (hit_passes_candidate_test
              Scenario.scratch Scenario.the_ray 3%positive None
              Scenario.cylinder_inputs Scenario.cylinder_heap h' 7%positive
              cylinder_separate cylinder_scene Hrun)
    as (t & u & Hu & Hp & Ht & Hd & Hh).
  exists h', t, u. split; [exact Hrun|]. repeat split; assumption.
Defined.

(** A frustum on the axis vector [(0, 2, 0)]: the vector ends holding
    [(0, 1, 0)]. *)
Lemma constructed_axis_scaled_witness :
  exists fl f h',
    ConeFrustum.constructor None (Some 1%positive) None None None
      (<[1%positive := OVector3 (vec 0 2 0)]> ∅) = Ok fl h' /\
    frustum_at h' fl f /\ f.(axis) = 1%positive /\
    vec_at h' 1%positive (vec 0 1 0).
Proof.
  assert (Hv : vec_at (<[1%positive := OVector3 (vec 0 2 0)]> ∅)
                 1%positive (vec 0 2 0)) by reflexivity.
  destruct (constructed_axis_scaled
              (<[1%positive := OVector3 (vec 0 2 0)]> ∅)
              None (Some 1%positive) None None None (vec 0 2 0) Hv)
    as (fl & f & h' & Hrun & Hf & Hax & Hw).
  exists fl, f, h'. split; [exact Hrun|]. split; [exact Hf|].
  split; [exact Hax|]. rewrite Hax in Hw. exact Hw.
Defined.

(** A frustum on the axis vector [(3, 4, 12)], of length 13. *)
Lemma constructed_axis_within_tolerance_witness :
  exists fl f h' w,
    ConeFrustum.constructor None (Some 1%positive) None None None
      (<[1%positive := OVector3 (vec 3 4 12)]> ∅) = Ok fl h' /\
    frustum_at h' fl f /\ f.(axis) = 1%positive /\
    vec_at h' f.(axis) w /\
    (abs (Vector3.norm w - 1) <=? 0x1.0c6f7a0b5ed8dp-20) = true.
Proof.
  apply (constructed_axis_within_tolerance
           (<[1%positive := OVector3 (vec 3 4 12)]> ∅)
           None (Some 1%positive) None None None (vec 3 4 12)).
  split; [reflexivity | vm_compute; reflexivity].
Defined.

(** The capsule from [(0, 0, 0)] to [(0, 2, 0)] with radii 1 and 3. *)
Lemma fromCapsule_stores_witness :
  exists fl f h',
    ConeFrustum.fromCapsule 1%positive 1 2%positive 3
      (<[1%positive := OVector3 (vec 0 0 0)]>
         (<[2%positive := OVector3 (vec 0 2 0)]> ∅)) = Ok fl h' /\
    frustum_at h' fl f /\
    f.(base) = 1%positive /\ f.(height) = 2 /\
    vec_at h' f.(axis) (vec 0 1 0) /\
    f.(radius0) = 1 /\ f.(radius1) = 3.
Proof.
  assert (H1 : vec_at (<[1%positive := OVector3 (vec 0 0 0)]>
                         (<[2%positive := OVector3 (vec 0 2 0)]> ∅))
                 1%positive (vec 0 0 0)) by reflexivity.
  assert (H2 : vec_at (<[1%positive := OVector3 (vec 0 0 0)]>
                         (<[2%positive := OVector3 (vec 0 2 0)]> ∅))
                 2%positive (vec 0 2 0)) by reflexivity.
  destruct (fromCapsule_stores (N := float_number)
              (<[1%positive := OVector3 (vec 0 0 0)]>
                 (<[2%positive := OVector3 (vec 0 2 0)]> ∅))
              1%positive 1 2%positive 3 (vec 0 0 0) (vec 0 2 0)
              H1 H2)
    as (fl & f & h' & Hrun & Hf & Hb & _ & _ & Hh & _ & Hax & Hr0 & Hr1).
  exists fl, f, h'. split; [exact Hrun|]. split; [exact Hf|].
  split; [exact Hb|]. split; [exact Hh|]. split; [exact Hax|].
  split; [exact Hr0 | exact Hr1].
Defined.

(** C2 fails on doubles: on the slab scene the method returns the point
    [(1, 0.30000000000000004, 0)], whose axial coordinate
    [axis . (point - base)] is [0.20000000000000004], above the height
    [0.2]. *)
Lemma recomputed_axial_exceeds_height :
  Scenario.hit_point Rounding.slab_heap
  = Some (Some (vec 1 0x1.3333333333334p-2 0)) /\
  Vector3.dot_product (vec 0 1 0)
    (Vector3.sub (vec 1 0x1.3333333333334p-2 0) (vec 0 Rounding.tenth 0))
  = 0x1.999999999999bp-3 /\
  (0x1.999999999999bp-3 <=? Rounding.fifth) = false.
Proof. repeat split; vm_compute; reflexivity. Qed.

(** C7, at a frustum with [radius0 = 0]: for base [(0, 0, 0)], axis
    [(0, 1, 0)], height 1, radius0 0 and radius1 1 the documented union of
    boxes has corners [(0, 0, 0)] and [(0, 2, 0)], and the method returns a
    box whose corners are [NaN] in every component, because it rescales [d]
    from [radius0] to [radius1] by dividing by [radius0].  (In exact
    arithmetic and with [radius0] not zero the method returns the
    documented box: [bounding_box_with_radius0].) *)
Theorem bounding_box_of_apex_is_nan :
  result (Scenario.bounding_corners 1 0 1 ∅)
  = Some (vec nan nan nan, vec nan nan nan) /\
  documented_box (Frustum 1%positive 2%positive 1 0 1) (vec 0 0 0) (vec 0 1 0)
  = (vec 0 0 0, vec 0 2 0).
Proof. split; vm_compute; reflexivity. Qed.

(** C5 fails at a zero axis: [new ConeFrustum( base, axis )] with
    [axis = (0, 0, 0)] stores an axis of length 0, which is not within
    [1e-6] of 1. *)
Lemma zero_axis_not_unit :
  exists f wb wa lb la,
    result (Scenario.construct_and_read (vec 0 0 0) (vec 0 0 0)
              None None None ∅)
    = Some (f, wb, wa, lb, la) /\
    f.(axis) = la /\
    Vector3.norm wa = 0 /\
    (abs (Vector3.norm wa - 1) <=? 0x1.0c6f7a0b5ed8dp-20) = false.
Proof.
  eexists _, _, _, _, _. split; [vm_compute; reflexivity|].
  repeat split; vm_compute; reflexivity.
Qed.

(** C6 fails at coincident centers: [fromCapsule( c, 1, c', 1 )] with
    [c] and [c'] both at [(1, 2, 3)] has [height = 1], while the distance
    between the centers is 0. *)
Lemma capsule_of_coincident_centers :
  result (Scenario.capsule_height (vec 1 2 3) 1 (vec 1 2 3) 1 ∅) = Some 1 /\
  Vector3.norm (Vector3.sub (vec 1 2 3) (vec 1 2 3)) = 0 /\
  (1 =? 0) = false.
Proof. repeat split; vm_compute; reflexivity. Qed.

(** C10 fails on the axis: after [new ConeFrustum( base, axis )] with
    [axis = (0, 2, 0)] the frustum's [base] and [axis] are the caller's two
    objects, and the caller's axis vector reads [(0, 1, 0)]. *)
Lemma constructor_normalizes_argument :
  exists f lb la,
    result (Scenario.construct_and_read (vec 0 0 0) (vec 0 2 0)
              None None None ∅)
    = Some (f, vec 0 0 0, vec 0 1 0, lb, la) /\
    f.(base) = lb /\ f.(axis) = la.
Proof.
  eexists _, _, _. split; [vm_compute; reflexivity|].
  split; reflexivity.
Qed.

(** The separation of the closure's vectors is needed.  On the cylinder
    scene the call returns the point [(1, 1, 0)]; when the frustum's base
    is the closure's [target2], keeping the [t0] candidate moves the base
    before the [t1] candidate is stored, and the call returns
    [(0, 2, 0)]. *)
Example aliased_base_moves_the_point :
  Scenario.hit_point Scenario.cylinder_heap = Some (Some (vec 1 1 0)) /\
  Scenario.hit_point Scenario.aliased_heap = Some (Some (vec 0 2 0)).
Proof. split; vm_compute; reflexivity. Qed.

(** On doubles the length is lost at the ends of the range too: the square
    of [2^600] overflows and the axis is stored as the zero vector; the
    square of [2^-600] underflows and the axis is stored as it is. *)
Example axis_out_of_range :
  exists f g wb wa wa' lb la,
    result (Scenario.construct_and_read (vec 0 0 0) (vec 0x1p+600 0 0)
              None None None ∅)
    = Some (f, wb, wa, lb, la) /\
    wa = vec 0 0 0 /\
    result (Scenario.construct_and_read (vec 0 0 0) (vec 0x1p-600 0 0)
              None None None ∅)
    = Some (g, wb, wa', lb, la) /\
    wa' = vec 0x1p-600 0 0.
Proof.
  eexists _, _, _, _, _, _, _.
  split; [vm_compute; reflexivity|]. split; [reflexivity|].
  split; vm_compute; reflexivity.
Qed.

(** On doubles the axis [fromCapsule] stores, normalized twice, is not
    the difference normalized once: for the centers [(0, 0, 0)] and
    [(1, 1, 0)] its components are [0.70710678118654757], against
    [0.70710678118654746]. *)
Example capsule_axis_normalized_twice :
  result (Scenario.capsule_axis (vec 0 0 0) 1 (vec 1 1 0) 1 ∅)
  = Some (vec 0x1.6a09e667f3bcdp-1 0x1.6a09e667f3bcdp-1 0) /\
  Vector3.normalized (vec 1 1 0)
  = vec 0x1.6a09e667f3bccp-1 0x1.6a09e667f3bccp-1 0.
Proof. split; vm_compute; reflexivity. Qed.

(** On doubles the length of the stored axis is within [1e-6] of 1 for
    the vectors [(3, 4, 12)], [(1, 1, 1)], [(-1, 0, 0)] and
    [(0.1, -7, 1e-9)] scaled by every power of two from [2^-500] to
    [2^500]. *)
Example unit_length_across_magnitudes :
  forallb (fun k =>
             Rounding.unit_within_tolerance (Rounding.scaled 3 4 12 k) &&
             Rounding.unit_within_tolerance (Rounding.scaled 1 1 1 k) &&
             Rounding.unit_within_tolerance (Rounding.scaled (-1) 0 0 k) &&
             Rounding.unit_within_tolerance
               (Rounding.scaled Rounding.tenth (-7)
                  0x1.12e0be826d695p-30 k))
    Rounding.exponents = true.
Proof. vm_compute. reflexivity. Qed.

(** On doubles the detour through [radius0] shows in ordinary boxes: for
    base [(0, 0, 0)], axis [(0, 1, 0)], height 10, [radius0 = 49] and
    [radius1 = 100] the corners are [-89.999999999999986] and
    [109.99999999999999] in [y], where the documented box has [-90] and
    [110]. *)
Example bounding_box_detour_rounds :
  result (Scenario.bounding_corners 10 49 100 ∅)
  = Some (vec 0 (-0x1.67fffffffffffp+6) 0, vec 0 0x1.b7fffffffffffp+6 0) /\
  documented_box (Frustum 1%positive 2%positive 10 49 100)
    (vec 0 0 0) (vec 0 1 0)
  = (vec 0 (-90) 0, vec 0 110 0).
Proof. split; vm_compute; reflexivity. Qed.

End ClaimsOnDoubles.

(** * Further properties *)

(** ** The intended geometry, in exact arithmetic *)

Section GeometryInExactArithmetic.
Local Existing Instance real_number.
Local Open Scope R_scope.
Local Abbreviation vec := (Vec3 (N := real_number)).

(** X19.  In exact arithmetic, whenever the method returns an object
    (for a ray of non-zero direction and a non-empty frustum of positive
    height), the object holds [origin + t * direction] for some [t >= 0],
    and the axial coordinate [axis . (point - base)] of that point is in
    [[0, height]]: there [base + ((origin - base) + t * direction)] is
    [origin + t * direction], and the coordinate the method tests is the
    coordinate of the point. *)
Theorem hit_on_ray_within_span cl ry fl tg (i : inputs) (h h' : heap) l :
  separate cl ry i -> scene cl ry fl tg i h ->
  i.(ray_direction) <> vec 0 0 0 ->
  ConeFrustum.empty fl h = Ok false h ->
  0 < i.(frustum_fields).(height) ->
  intersectsConeFrustum cl ry fl tg h = Ok (VObject l) h' ->
  exists p t,
    vec_at h' l p /\ 0 <= t /\
    p = Vector3.add_scaled i.(ray_origin) i.(ray_direction) t /\
    0 <= Vector3.dot_product i.(frustum_axis) (Vector3.sub p i.(frustum_base))
      <= i.(frustum_fields).(height).
Proof.
  intros Hsep Hs _ _ _ Hrun.
  destruct (intersects_object cl ry fl tg i Hsep h l h' Hs Hrun)
    as (t & Hn & Hp).
  apply nearest_valid, valid_real in Hn. destruct Hn as (Ht & Hd).
  exists (Quadratic.point i t), t.
  split; [assumption|]. split; [assumption|].
  split; [apply point_on_ray|]. now rewrite axial_of_point.
Qed.

(** X18.  In exact arithmetic the constructor stores an axis of length
    exactly 1 when the axis is omitted or the supplied vector is not the
    zero vector. *)
Theorem constructed_axis_unit (h : heap) base0 axis0 ht r0 r1 :
  match axis0 with
  | Some a => exists w, vec_at h a w /\ w <> vec 0 0 0
  | None => True
  end ->
  exists fl f w' h',
    ConeFrustum.constructor base0 axis0 ht r0 r1 h = Ok fl h' /\
    frustum_at h' fl f /\ vec_at h' f.(axis) w' /\ Vector3.norm w' = 1.
Proof.
  intros Ha.
  destruct (constructor_run base0 axis0 ht r0 r1 h) as
    (fl & f & w & h' & Hrun & Hf & _ & _ & Haxis & Hn & _).
  { destruct axis0 as [a|]; [|exact I].
    destruct Ha as (w & Hw & _). now exists w. }
  exists fl, f, (Vector3.normalized w), h'. repeat split; try assumption.
  apply norm_normalized. destruct axis0 as [a|].
  - destruct Ha as (w0 & Hw0 & Hnz). destruct Haxis as (_ & Hw).
    unfold vec_at in *. assert (w = w0) as -> by congruence.
    now apply norm_nonzero.
  - destruct Haxis as (_ & ->). intros He. rewrite real_stored in He.
    assert (1 = 0) by (rewrite <- norm_default_axis; exact He). lra.
Qed.

(** X20.  In exact arithmetic, for centers at different points
    [fromCapsule] returns a frustum whose base is [center0] itself
    (unchanged), whose height is the distance between the centers, whose
    axis holds the normalized difference (normalizing twice is
    normalizing once there), and whose radii are the ones given. *)
Theorem fromCapsule_fields (h : heap) c0 (r0 : R) c1 (r1 : R) w0 w1 :
  vec_at h c0 w0 -> vec_at h c1 w1 -> w1 <> w0 ->
  exists fl f h',
    ConeFrustum.fromCapsule c0 r0 c1 r1 h = Ok fl h' /\
    frustum_at h' fl f /\
    f.(base) = c0 /\ vec_at h' c0 w0 /\
    f.(height) = Vector3.norm (Vector3.sub w1 w0) /\
    vec_at h' f.(axis) (Vector3.normalized (Vector3.sub w1 w0)) /\
    f.(radius0) = r0 /\ f.(radius1) = r1.
Proof.
  intros H0 H1 Hne.
  assert (Hn : Vector3.norm (Vector3.sub w1 w0) <> 0).
  { apply norm_nonzero. intros He. apply Hne.
    destruct w0 as [a0 b0 c0'], w1 as [a1 b1 c1'].
    unfold Vector3.sub in He. simpl in He. injection He as Ha Hb Hc.
    f_equal; change (@num real_number) with R in *; lra. }
  destruct (fromCapsule_run (N := real_number) c0 r0 c1 r1 w0 w1 h H0 H1)
    as (fl & f & h' & Hrun & Hf & _ & Hb & _ & Hax & Hh & Hr0 & Hr1 & Hkeep).
  exists fl, f, h'. repeat split; try assumption.
  - apply Hkeep, H0.
  - rewrite Hh. simpl. now apply real_num_or.
  - now rewrite real_stored, normalized_twice in Hax.
  - rewrite Hr0. simpl. apply real_num_or_zero.
  - rewrite Hr1. simpl. apply real_num_or_zero.
Qed.

(** The cone scene on reals: [c2 = 0], [c1 = 4], [c0 = -8], so [t = 4]. *)

Lemma real_cone_separate :
  separate Scenario.scratch Scenario.the_ray Scenario.cone_inputs.
Proof. split; simpl; repeat split; discriminate. Qed.

Lemma real_cone_scene :
  scene Scenario.scratch Scenario.the_ray 3%positive None
    Scenario.cone_inputs Scenario.cone_heap.
Proof. split; try reflexivity; eexists; reflexivity. Qed.

Lemma real_cone_c2 : Quadratic.c2 Scenario.cone_inputs = 0.
Proof.
  unfold Quadratic.c2, Quadratic.r, Quadratic.VdA, Quadratic.VdV,
    Quadratic.deltaR, pow2, Vector3.dot_product.
  simpl. change (@num real_number) with R. field.
Qed.

Lemma real_cone_c1 : Quadratic.c1 Scenario.cone_inputs = 4.
Proof.
  unfold Quadratic.c1, Quadratic.r, Quadratic.R, Quadratic.VdA, Quadratic.VdD,
    Quadratic.DdA, Quadratic.offset, Quadratic.deltaR, pow2,
    Vector3.dot_product, Vector3.sub.
  simpl. change (@num real_number) with R. field.
Qed.

Lemma real_cone_c0 : Quadratic.c0 Scenario.cone_inputs = -8.
Proof.
  unfold Quadratic.c0, Quadratic.r, Quadratic.R, Quadratic.DdD,
    Quadratic.DdA, Quadratic.offset, Quadratic.deltaR, pow2,
    Vector3.dot_product, Vector3.sub.
  simpl. change (@num real_number) with R. field.
Qed.

Lemma real_cone_root : Quadratic.linear_root Scenario.cone_inputs = 4.
Proof.
  unfold Quadratic.linear_root. rewrite real_cone_c0, real_cone_c1.
  simpl. change (@num real_number) with R. field.
Qed.

Lemma real_cone_axial : Quadratic.axial Scenario.cone_inputs 4 = 4.
Proof.
  unfold Quadratic.axial, Quadratic.along, Quadratic.offset,
    Vector3.dot_product, Vector3.add_scaled, Vector3.sub.
  simpl. change (@num real_number) with R. ring.
Qed.

Lemma real_cone_nearest : Quadratic.nearest Scenario.cone_inputs = Some 4.
Proof.
  rewrite (nearest_linear (N := real_number)).
  - rewrite real_cone_root, real_cone_c1.
    unfold Quadratic.valid. rewrite real_cone_axial. simpl.
    assert (Exact.eqb 4 0 = false) as -> by (apply real_eqb_false; lra).
    assert (Exact.leb 0 4 = true) as -> by (apply real_leb_true; lra).
    assert (Exact.leb 4 8 = true) as -> by (apply real_leb_true; lra).
    reflexivity.
  - rewrite real_cone_c2. apply real_eqb_true. reflexivity.
Qed.

Lemma real_cone_not_empty :
  ConeFrustum.empty 3%positive Scenario.cone_heap
  = Ok false Scenario.cone_heap.
Proof.
  unfold ConeFrustum.empty.
  erewrite run_get_frustum by reflexivity. unfold ret. f_equal. simpl.
  assert (Exact.eqb 8 0 = false) as -> by (apply real_eqb_false; lra).
  assert (Exact.eqb 1 0 = false) as -> by (apply real_eqb_false; lra).
  reflexivity.
Qed.

Lemma real_cone_reported :
  reported Scenario.scratch None Scenario.cone_inputs = 7%positive.
Proof.
  unfold reported. rewrite real_cone_c2.
  assert (Exact.eqb 0 0 = true) as Hz by now apply real_eqb_true.
  simpl. now rewrite Hz.
Qed.

(** The ray along the cone's slope is reported at [t = 4], the point
    [(-3, 0, 0) + 4 (1, 1, 0)]. *)
Lemma hit_on_ray_within_span_witness :
  exists h' p t,
    intersectsConeFrustum Scenario.scratch Scenario.the_ray 3%positive None
      Scenario.cone_heap
    = Ok (VObject 7%positive) h' /\
    vec_at h' 7%positive p /\ 0 <= t /\
    p = Vector3.add_scaled (vec (-3) 0 0) (vec 1 1 0) t /\
    0 <= Vector3.dot_product (vec 0 1 0) (Vector3.sub p (vec 0 0 0)) <= 8.
Proof.
  destruct (intersects_hit Scenario.scratch Scenario.the_ray
              3%positive None Scenario.cone_inputs real_cone_separate
              Scenario.cone_heap 4 real_cone_scene real_cone_nearest)
    as (h' & Hrun & _).
  rewrite real_cone_reported in Hrun.
  destruct (hit_on_ray_within_span Scenario.scratch Scenario.the_ray 3%positive
              None Scenario.cone_inputs Scenario.cone_heap h' 7%positive
              real_cone_separate real_cone_scene)
    as (p & t & Hp & Ht & Hpt & Hd).
  - simpl. intros [= H1 _]. lra.
  - exact real_cone_not_empty.
  - simpl. lra.
  - exact Hrun.
  - exists h', p, t. repeat split; assumption || apply Hd.
Defined.

(** A frustum on the axis vector [(0, 2, 0)]. *)
Lemma constructed_axis_unit_witness :
  exists fl f w' h',
    ConeFrustum.constructor None (Some 1%positive) None None None
      (<[1%positive := OVector3 (vec 0 2 0)]> ∅) = Ok fl h' /\
    frustum_at h' fl f /\ vec_at h' f.(axis) w' /\ Vector3.norm w' = 1.
Proof.
  apply (constructed_axis_unit (<[1%positive := OVector3 (vec 0 2 0)]> ∅)
           None (Some 1%positive) None None None).
  exists (vec 0 2 0). split; [reflexivity|].
  intros [= H2]. lra.
Defined.

(** The capsule from [(0, 0, 0)] to [(0, 2, 0)] with radii 1 and 3. *)
Lemma fromCapsule_fields_witness :
  exists fl f h',
    ConeFrustum.fromCapsule 1%positive 1 2%positive 3
      (<[1%positive := OVector3 (vec 0 0 0)]>
         (<[2%positive := OVector3 (vec 0 2 0)]> ∅)) = Ok fl h' /\
    frustum_at h' fl f /\
    f.(base) = 1%positive /\ vec_at h' 1%positive (vec 0 0 0) /\
    f.(height) = Vector3.norm (Vector3.sub (vec 0 2 0) (vec 0 0 0)) /\
    vec_at h' f.(axis)
      (Vector3.normalized (Vector3.sub (vec 0 2 0) (vec 0 0 0))) /\
    f.(radius0) = 1 /\ f.(radius1) = 3.
Proof.
  apply (fromCapsule_fields
           (<[1%positive := OVector3 (vec 0 0 0)]>
              (<[2%positive := OVector3 (vec 0 2 0)]> ∅))
           1%positive 1 2%positive 3 (vec 0 0 0) (vec 0 2 0)).
  - reflexivity.
  - reflexivity.
  - intros [= H2]. lra.
Defined.

End GeometryInExactArithmetic.

(** ** The intersection, on any numbers *)

Section IntersectorOnAnyNumbers.
Context {N : Number}.
Local Open Scope num_scope.
Import Quadratic.

(** A call leaves the scene as it found it: the ray, the frustum and
    their vectors hold what they held. *)
Lemma intersects_scene cl ry fl tg (i : inputs) (h h' : heap) res :
  separate cl ry i -> scene cl ry fl tg i h -> target_apart ry tg i ->
  intersectsConeFrustum cl ry fl tg h = Ok res h' ->
  scene cl ry fl tg i h'.
Proof.
  intros Hsep Hs Hap Hrun.
  pose proof (intersects_effect cl ry fl tg i Hsep h Hs) as He.
  rewrite Hrun in He. destruct He as (Hk & Hv & _).
  destruct Hsep as [? ? ? (? & ? & ?) (? & ? & ?) (? & ? & ?) (? & ? & ?)].
  destruct Hs as [Hf Ho Hd Hb Ha [wD HD] [wT HT] [wU HU] [wG HG]].
  assert (Hto : forall l, l <> cl.(target2) ->
                  match tg with Some g => g <> l | None => True end ->
                  l <> target_of cl tg).
  { intros l Hl Hg. unfold target_of. destruct tg; congruence. }
  unfold target_apart in Hap.
  split; unfold frustum_at, vec_at, is_vec in *.
  - rewrite Hk; [assumption|intros ->; congruence..].
  - rewrite Hk; try assumption. apply Hto; [assumption|].
    destruct tg; [apply Hap|exact I].
  - rewrite Hk; try assumption. apply Hto; [assumption|].
    destruct tg; [apply Hap|exact I].
  - rewrite Hk; try assumption. apply Hto; [assumption|].
    destruct tg; [apply Hap|exact I].
  - rewrite Hk; try assumption. apply Hto; [assumption|].
    destruct tg; [apply Hap|exact I].
  - apply Hv. now exists wD.
  - apply Hv. now exists wT.
  - apply Hv. now exists wU.
  - apply Hv. now exists wG.
Qed.

(** X1.  In a scene the call completes without throwing.  It leaves
    every object other than the closure's [D], [u], [target2] and the
    target as it was, and when it returns [null] it leaves [target2] and
    the target as they were too: only [D] and [u] are written. *)
Theorem call_writes_scratch_and_target cl ry fl tg (i : inputs) (h : heap) :
  separate cl ry i -> scene cl ry fl tg i h ->
  exists res h',
    intersectsConeFrustum cl ry fl tg h = Ok res h' /\
    (forall l, l <> cl.(D) -> l <> cl.(u) -> l <> cl.(target2) ->
               l <> target_of cl tg -> h' !! l = h !! l) /\
    (res = VNull ->
     forall l, l <> cl.(D) -> l <> cl.(u) -> h' !! l = h !! l).
Proof.
  intros Hsep Hs.
  pose proof (intersects_effect cl ry fl tg i Hsep h Hs) as He.
  destruct (intersectsConeFrustum cl ry fl tg h) as [res h'|]; [|contradiction].
  destruct He as (Hk & _ & Hn).
  exists res, h'. split; [reflexivity|]. split; [exact Hk|].
  intros ->. destruct (nearest i) as [t|].
  - destruct Hn as (Hres & _). discriminate Hres.
  - exact (proj2 Hn).
Qed.

(** X2.  When the call returns an object, the closure's [target2] and the
    target both hold the reported point, and the object returned is
    [target2] in the quadratic branches ([c2 !== 0]) and the target in
    the linear branch. *)
Theorem hit_fills_target2_and_target cl ry fl tg (i : inputs) (h h' : heap) l :
  separate cl ry i -> scene cl ry fl tg i h ->
  intersectsConeFrustum cl ry fl tg h = Ok (VObject l) h' ->
  exists t,
    nearest i = Some t /\
    vec_at h' cl.(target2) (point i t) /\
    vec_at h' (target_of cl tg) (point i t) /\
    l = (if c2 i !== 0 then cl.(target2) else target_of cl tg).
Proof.
  intros Hsep Hs Hrun.
  pose proof (intersects_effect cl ry fl tg i Hsep h Hs) as He.
  rewrite Hrun in He. destruct He as (_ & _ & Hn).
  destruct (nearest i) as [t|].
  - destruct Hn as ([= ->] & H2 & Htg). now exists t.
  - destruct Hn as (Hres & _). discriminate Hres.
Qed.


(** X4.  Without a target every hit is returned in the same object, the
    closure's [target2]: after a second hit the object the first call
    returned holds the second point. *)
Theorem later_hit_overwrites_earlier_result cl ry1 fl1 (i1 : inputs)
    ry2 fl2 (i2 : inputs) (h h1 h2 : heap) l1 l2 :
  separate cl ry1 i1 -> scene cl ry1 fl1 None i1 h ->
  separate cl ry2 i2 -> scene cl ry2 fl2 None i2 h1 ->
  intersectsConeFrustum cl ry1 fl1 None h = Ok (VObject l1) h1 ->
  intersectsConeFrustum cl ry2 fl2 None h1 = Ok (VObject l2) h2 ->
  l1 = cl.(target2) /\ l2 = l1 /\
  exists t, nearest i2 = Some t /\ vec_at h2 l1 (point i2 t).
Proof.
  intros Hsep1 Hs1 Hsep2 Hs2 Hrun1 Hrun2.
  pose proof (intersects_effect cl ry1 fl1 None i1 Hsep1 h Hs1) as H1.
  pose proof (intersects_effect cl ry2 fl2 None i2 Hsep2 h1 Hs2) as H2.
  rewrite Hrun1 in H1. rewrite Hrun2 in H2.
  destruct H1 as (_ & _ & H1), H2 as (_ & _ & H2).
  destruct (nearest i1) as [t1'|]; [|destruct H1 as (? & _); discriminate].
  destruct (nearest i2) as [t2'|]; [|destruct H2 as (? & _); discriminate].
  destruct H1 as ([= ->] & _), H2 as ([= ->] & Hp & _).
  assert (Hr : forall j : inputs, reported cl None j = cl.(target2)).
  { intros j. unfold reported, target_of. now destruct (c2 j !== 0). }
  rewrite !Hr. repeat split. now exists t2'.
Qed.


(** X6.  With [c2 !== 0]: a negative discriminant gives [null]; a
    discriminant that is not negative and [=== 0] gives the single
    candidate [t = -c1 / c2], reported in [target2] exactly when it passes
    the candidate test. *)
Theorem degenerate_discriminant cl ry fl tg (i : inputs) (h : heap) :
  separate cl ry i -> scene cl ry fl tg i h ->
  (c2 i !== 0) = true ->
  double_root i = (- c1 i) / c2 i /\
  ((discr i <? 0) = true ->
   exists h', intersectsConeFrustum cl ry fl tg h = Ok VNull h') /\
  ((discr i <? 0) = false -> (discr i === 0) = true ->
   exists h',
     intersectsConeFrustum cl ry fl tg h
     = Ok (if valid i (double_root i)
           then VObject cl.(target2) else VNull) h' /\
     (valid i (double_root i) = true ->
      vec_at h' cl.(target2) (point i (double_root i)))).
Proof.
  intros Hsep Hs E2. split; [reflexivity|].
  pose proof (intersects_effect cl ry fl tg i Hsep h Hs) as He.
  destruct (intersectsConeFrustum cl ry fl tg h) as [res h'|]; [|contradiction].
  destruct He as (_ & _ & Hn). unfold nearest, reported in Hn.
  rewrite E2 in Hn. split.
  - intros El. rewrite El in Hn. destruct Hn as (-> & _). now exists h'.
  - intros El Ee. rewrite El, Ee in Hn. exists h'.
    destruct (valid i (double_root i)).
    + destruct Hn as (-> & Hp & _). split; [reflexivity | auto].
    + destruct Hn as (-> & _). split; [reflexivity | discriminate].
Qed.


End IntersectorOnAnyNumbers.

(** ** The class, on any numbers *)

Section ClassOnAnyNumbers.
Context {N : Number}.
Local Open Scope num_scope.
Implicit Types (h : heap) (l : loc) (w : vec3) (f : frustum).

(** [equals] reads the two frustums and their vectors and writes
    nothing; the axis is compared only when the bases are equal. *)
Lemma equals_run this fl t f tb ta fb fa h :
  frustum_at h this t -> frustum_at h fl f ->
  vec_at h t.(base) tb -> vec_at h t.(axis) ta ->
  vec_at h f.(base) fb -> vec_at h f.(axis) fa ->
  ConeFrustum.equals this (VObject fl) h
  = Ok (Vector3.same tb fb && Vector3.same ta fa &&
        (t.(height) === f.(height)) && (t.(radius0) === f.(radius0)) &&
        (t.(radius1) === f.(radius1))) h.
Proof.
  intros Ht Hf Htb Hta Hfb Hfa. unfold ConeFrustum.equals.
  rewrite (run_get_frustum _ _ _ _ Ht), (run_get_frustum _ _ _ _ Hf).
  rewrite (run_equals _ _ _ _ _ _ Htb Hfb).
  destruct (Vector3.same tb fb); [|reflexivity].
  rewrite (run_equals _ _ _ _ _ _ Hta Hfa). reflexivity.
Qed.

(** [F.copy( F )]: the frustum keeps its numbers and moves to two new
    vectors holding what its base and axis held. *)
Lemma copy_self_run this t wb wa h :
  frustum_at h this t ->
  vec_at h t.(base) wb -> vec_at h t.(axis) wa ->
  exists t' h',
    ConeFrustum.copy this this h = Ok VUndefined h' /\
    frustum_at h' this t' /\
    h !! t'.(base) = None /\ h !! t'.(axis) = None /\
    vec_at h' t'.(base) (Vector3.stored wb) /\
    vec_at h' t'.(axis) (Vector3.stored wa) /\
    t'.(height) = t.(height) /\
    t'.(radius0) = t.(radius0) /\
    t'.(radius1) = t.(radius1) /\
    (forall l ob, h !! l = Some ob -> l <> this -> h' !! l = Some ob).
Proof.
  intros Ht Hb Ha. rewrite <- bind_ret. unfold ConeFrustum.copy.
  repeat (walk_step; cbn [base axis height radius0 radius1];
          rewrite ?insert_insert_eq).
  eexists _, _. split; [reflexivity|]. split; [find|].
  repeat split; simpl; try reflexivity; try assumption; try find.
  intros; find.
Qed.

(** A number that is not [NaN] is [===] to what the constructor stores
    for it, and what is stored is not [NaN] either. *)
Lemma or_zero_eq (n : num) :
  (n === n) = true -> (n === num_or n 0) = true.
Proof.
  intros Hn. unfold num_or, truthy. rewrite Hn, andb_true_r.
  now destruct (n === 0) eqn:E.
Qed.

Lemma or_zero_self (n : num) :
  (0 === 0) = true -> (n === n) = true ->
  (num_or n 0 === num_or n 0) = true.
Proof.
  intros Hz Hn. unfold num_or, truthy. rewrite Hn, andb_true_r.
  now destruct (n === 0).
Qed.

Lemma stored_same w :
  Vector3.same w w = true -> Vector3.same (Vector3.stored w) w = true.
Proof.
  unfold Vector3.same, Vector3.stored. simpl. rewrite !andb_true_iff.
  intros [[Hx Hy] Hz]. repeat split; now apply or_zero_eq.
Qed.

Lemma stored_same_self w :
  (0 === 0) = true -> Vector3.same w w = true ->
  Vector3.same (Vector3.stored w) (Vector3.stored w) = true.
Proof.
  unfold Vector3.same, Vector3.stored. simpl. rewrite !andb_true_iff.
  intros H0 [[Hx Hy] Hz]. repeat split; now apply or_zero_self.
Qed.

(** X7.  [this.copy( frustum )] evaluates to [undefined] and makes a deep
    copy: [this] ends on two vectors that did not exist before, holding
    the contents of the other frustum's base and axis as the constructor
    stores them (each component [c] as [c || 0], so [0] for [NaN] and
    [-0]), with its height and radii; no other object is written, so the
    two frustums share no vector. *)
Theorem copy_takes_new_vectors this fr t f wb wa h :
  frustum_at h this t -> frustum_at h fr f ->
  vec_at h f.(base) wb -> vec_at h f.(axis) wa ->
  exists t' h',
    ConeFrustum.copy this fr h = Ok VUndefined h' /\
    frustum_at h' this t' /\
    h !! t'.(base) = None /\ h !! t'.(axis) = None /\
    vec_at h' t'.(base)
      (Vec3 (num_or wb.(x) 0) (num_or wb.(y) 0) (num_or wb.(z) 0)) /\
    vec_at h' t'.(axis)
      (Vec3 (num_or wa.(x) 0) (num_or wa.(y) 0) (num_or wa.(z) 0)) /\
    t'.(height) = f.(height) /\
    t'.(radius0) = f.(radius0) /\
    t'.(radius1) = f.(radius1) /\
    (forall l ob, h !! l = Some ob -> l <> this -> h' !! l = Some ob).
Proof.
  intros Ht Hf Hb Ha. destruct (decide (this = fr)) as [->|Hne].
  - unfold frustum_at in *. assert (t = f) as -> by congruence.
    now apply copy_self_run.
  - now apply copy_run with (t := t).
Qed.

(** X8.  After [this.copy( frustum )], [this.equals( frustum )] returns
    [true], provided no number of the frustum is [NaN] (each is [===]
    itself); for [F.copy( F )], where the clones are compared with
    themselves, provided [0] is not [NaN] either. *)
Theorem copy_then_equals this fr t f wb wa h :
  (this = fr -> (0 === 0) = true) ->
  frustum_at h this t -> frustum_at h fr f ->
  vec_at h f.(base) wb -> vec_at h f.(axis) wa ->
  Vector3.same wb wb = true -> Vector3.same wa wa = true ->
  (f.(height) === f.(height)) = true ->
  (f.(radius0) === f.(radius0)) = true ->
  (f.(radius1) === f.(radius1)) = true ->
  exists h',
    ConeFrustum.copy this fr h = Ok VUndefined h' /\
    ConeFrustum.equals this (VObject fr) h' = Ok true h'.
Proof.
  intros Hz Ht Hf Hb Ha Ewb Ewa Eh E0 E1.
  assert (Hvb : f.(base) <> this).
  { intros E. unfold vec_at, frustum_at in *. congruence. }
  assert (Hva : f.(axis) <> this).
  { intros E. unfold vec_at, frustum_at in *. congruence. }
  destruct (decide (this = fr)) as [->|Hne].
  - unfold frustum_at in Ht, Hf. assert (t = f) as -> by congruence.
    destruct (copy_self_run fr f wb wa h Hf Hb Ha)
      as (t' & h' & Hrun & Ht' & _ & _ & Hwb & Hwa & Hh & H0 & H1 & _).
    exists h'. split; [exact Hrun|].
    rewrite (equals_run fr fr t' t' _ _ _ _ h' Ht' Ht' Hwb Hwa Hwb Hwa).
    rewrite Hh, H0, H1, Eh, E0, E1, !stored_same_self by auto.
    reflexivity.
  - destruct (copy_run this fr t f wb wa h Hne Ht Hf Hb Ha)
      as (t' & h' & Hrun & Ht' & _ & _ & Hwb & Hwa & Hh & H0 & H1 & Hk).
    exists h'. split; [exact Hrun|].
    rewrite (equals_run this fr t' f _ _ wb wa h' Ht'
               (Hk _ _ Hf (not_eq_sym Hne)) Hwb Hwa);
      try (apply Hk; [assumption | congruence]).
    rewrite Hh, H0, H1, Eh, E0, E1, !stored_same by assumption.
    reflexivity.
Qed.

(** X9.  [getBoundingBox] returns a box on two new, distinct vectors and
    writes to no object that existed, the two corner vectors of a
    supplied target apart: the frustum, its base and its axis are left as
    they were. *)
Theorem bounding_box_leaves_frustum this f b a tg h :
  frustum_at h this f -> vec_at h f.(base) b -> vec_at h f.(axis) a ->
  match tg with
  | Some t => is_vec h t.(min) /\ is_vec h t.(max) /\ t.(min) <> t.(max)
  | None => True
  end ->
  exists bx h',
    ConeFrustum.getBoundingBox this tg h = Ok bx h' /\
    h !! bx.(min) = None /\ h !! bx.(max) = None /\
    bx.(min) <> bx.(max) /\
    (forall l ob,
       h !! l = Some ob ->
       match tg with
       | Some t => l <> t.(min) /\ l <> t.(max)
       | None => True
       end ->
       h' !! l = Some ob).
Proof.
  intros Hf Hb Ha Htg. rewrite <- bind_ret.
  unfold ConeFrustum.getBoundingBox, Box3.new, Box3.union, Box3.copy.
  destruct tg as [[tmin tmax]|].
  - simpl in Htg. destruct Htg as ([wmin Hmin] & [wmax Hmax] & Hne).
    walk. simpl. walk.
    eexists _, _. split; [reflexivity|]. simpl.
    repeat split; try assumption; try differ.
    intros k ob Hk (Hkmin & Hkmax). find.
  - walk. simpl. walk.
    eexists _, _. split; [reflexivity|]. simpl.
    repeat split; try assumption; try differ.
    intros k ob Hk _. find.
Qed.

(** X15.  [getBoundingBox] returns a new box holding the union of two
    boxes as the method computes them.  With [c] what the clone of the
    base holds and [d] the vector of [sqrt( 1 * x * x )] over the
    components of the axis, they are the box of half-extents
    [d * radius0] around [c] and the box of half-extents
    [d * radius0 * (1 / radius0) * radius1] around [c + axis * height];
    a supplied target (on two distinct corner vectors) is overwritten
    with the same corners. *)
Theorem bounding_box_corners this f b a tg h :
  frustum_at h this f -> vec_at h f.(base) b -> vec_at h f.(axis) a ->
  match tg with
  | Some t => is_vec h t.(min) /\ is_vec h t.(max) /\ t.(min) <> t.(max)
  | None => True
  end ->
  exists bx h',
    ConeFrustum.getBoundingBox this tg h = Ok bx h' /\
    h !! bx.(min) = None /\ h !! bx.(max) = None /\
    let c := Vector3.stored b in
    let d0 := Vector3.scale (spread a) f.(radius0) in
    let d1 :=
      Vector3.scale (Vector3.scale d0 (1 / f.(radius0))) f.(radius1) in
    let c1 := Vector3.add_scaled c a f.(height) in
    let lo := Vector3.lower (Vector3.sub c d0) (Vector3.sub c1 d1) in
    let hi := Vector3.upper (Vector3.add c d0) (Vector3.add c1 d1) in
    vec_at h' bx.(min) lo /\ vec_at h' bx.(max) hi /\
    match tg with
    | Some t => vec_at h' t.(min) lo /\ vec_at h' t.(max) hi
    | None => True
    end.
Proof.
  intros Hf Hb Ha Htg.
  destruct (getBoundingBox_run this f b a tg h Hf Hb Ha Htg)
    as (bx & h' & Hrun & Hmin & Hmax & Hlo & Hhi & Ht).
  exists bx, h'. split; [exact Hrun|]. split; [exact Hmin|].
  split; [exact Hmax|]. cbv zeta. split; [exact Hlo|]. split; [exact Hhi|].
  exact Ht.
Qed.

End ClassOnAnyNumbers.

(** ** On doubles *)

Section FurtherOnDoubles.
Local Existing Instance float_number.
Local Open Scope float_scope.
Local Abbreviation vec := (Vec3 (N := float_number)).

Lemma double_nan_spec (a : float) :
  Double.is_nan a = true <-> Prim2SF a = S754_nan.
Proof.
  unfold Double.is_nan. rewrite FloatAxioms.eqb_spec. unfold SFeqb.
  destruct (Prim2SF a) as [s|s| |s m e] eqn:E; simpl.
  - split; discriminate.
  - destruct s; split; discriminate.
  - split; reflexivity.
  - rewrite Z.compare_refl.
    assert (PosDef.Pos.compare_cont Eq m m = Eq) as ->
      by apply Pos.compare_cont_refl.
    destruct s; split; discriminate.
Qed.

Lemma double_zero_spec (a : float) :
  PrimFloat.eqb a 0 = true -> exists s, Prim2SF a = S754_zero s.
Proof.
  rewrite FloatAxioms.eqb_spec. unfold SFeqb.
  change (Prim2SF 0) with (S754_zero false).
  destruct (Prim2SF a) as [s|s| |s m e]; simpl.
  - intros _. now exists s.
  - destruct s; discriminate.
  - discriminate.
  - destruct s; discriminate.
Qed.

Lemma mul_nan_l (a b : float) :
  Double.is_nan a = true -> Double.is_nan (a * b) = true.
Proof. rewrite !double_nan_spec, mul_spec. intros ->. reflexivity. Qed.

Lemma sub_nan_r (a b : float) :
  Double.is_nan b = true -> Double.is_nan (a - b) = true.
Proof.
  rewrite !double_nan_spec, sub_spec. intros ->. now destruct (Prim2SF a).
Qed.

Lemma add_nan_r (a b : float) :
  Double.is_nan b = true -> Double.is_nan (a + b) = true.
Proof.
  rewrite !double_nan_spec, add_spec. intros ->. now destruct (Prim2SF a).
Qed.

Lemma min_nan_r (a b : float) :
  Double.is_nan b = true -> Double.is_nan (Double.min a b) = true.
Proof.
  intros Hb. unfold Double.min.
  destruct (Double.is_nan a) eqn:Ha; [exact Ha|]. now rewrite Hb.
Qed.

Lemma max_nan_r (a b : float) :
  Double.is_nan b = true -> Double.is_nan (Double.max a b) = true.
Proof.
  intros Hb. unfold Double.max.
  destruct (Double.is_nan a) eqn:Ha; [exact Ha|]. now rewrite Hb.
Qed.

(** Scaling by a zero and back: [s * z * (1 / z)] is [NaN], whatever [s]
    is ([s * z] is a zero or [NaN], and [1 / z] is an infinity). *)
Lemma rescale_by_zero (s z : float) :
  PrimFloat.eqb z 0 = true -> Double.is_nan (s * z * (1 / z)) = true.
Proof.
  intros Hz. destruct (double_zero_spec z Hz) as [sz Ez].
  rewrite double_nan_spec, !mul_spec, div_spec, Ez.
  change (Prim2SF 1) with (S754_finite false 4503599627370496 (-52)).
  destruct (Prim2SF s) as [ss|ss| |ss m e]; reflexivity.
Qed.

Lemma corners_of_zero_radius0 (f : frustum) (b a : vec3) :
  PrimFloat.eqb f.(radius0) 0 = true ->
  all_nan (fst (box_corners f b a)) = true /\
  all_nan (snd (box_corners f b a)) = true.
Proof.
  intros Hz. unfold box_corners, all_nan. cbv zeta.
  unfold Vector3.lower, Vector3.upper, Vector3.sub, Vector3.add,
    Vector3.scale. simpl.
  rewrite !min_nan_r, !max_nan_r; [split; reflexivity|..];
    first [apply add_nan_r | apply sub_nan_r];
    apply mul_nan_l, rescale_by_zero, Hz.
Qed.

Lemma double_or_one_truthy (n : float) :
  truthy (num_or (N := float_number) n (num_lit 1)) = true.
Proof.
  unfold num_or. destruct (truthy (N := float_number) n) eqn:E; [exact E|].
  vm_compute. reflexivity.
Qed.

Lemma double_or_zero_number (n : float) :
  Double.is_nan (num_or (N := float_number) n (num_lit 0)) = false.
Proof.
  unfold num_or.
  destruct (truthy (N := float_number) n) eqn:E; [|vm_compute; reflexivity].
  unfold truthy in E. apply andb_prop in E as [_ E].
  unfold Double.is_nan. simpl in E. now rewrite E.
Qed.

(** X10.  On doubles, for every frustum whose [radius0] is a zero,
    [getBoundingBox] returns a box whose two corners, and the corners of
    a supplied target, are [NaN] in every component: [d] is scaled by
    [radius0] and then divided by it. *)
Theorem zero_radius0_box_is_nan (h : heap) this (f : frustum) b a tg :
  frustum_at h this f -> vec_at h f.(base) b -> vec_at h f.(axis) a ->
  match tg with
  | Some t => is_vec h t.(min) /\ is_vec h t.(max) /\ t.(min) <> t.(max)
  | None => True
  end ->
  (f.(radius0) === 0)%num = true ->
  exists bx h' lo hi,
    ConeFrustum.getBoundingBox this tg h = Ok bx h' /\
    vec_at h' bx.(min) lo /\ vec_at h' bx.(max) hi /\
    all_nan lo = true /\ all_nan hi = true /\
    match tg with
    | Some t => vec_at h' t.(min) lo /\ vec_at h' t.(max) hi
    | None => True
    end.
Proof.
  intros Hf Hb Ha Htg Hz.
  destruct (getBoundingBox_run this f b a tg h Hf Hb Ha Htg)
    as (bx & h' & Hrun & _ & _ & Hlo & Hhi & Ht).
  destruct (corners_of_zero_radius0 f (Vector3.stored b) a Hz) as (Nlo & Nhi).
  exists bx, h', (fst (box_corners f (Vector3.stored b) a)),
    (snd (box_corners f (Vector3.stored b) a)).
  repeat split; assumption.
Qed.

(** X11.  On doubles, whatever arguments the constructor is given, the
    frustum it returns has a height that is neither a zero nor [NaN] and
    radii that are not [NaN]; [empty()] on it returns whether both radii
    are zero. *)
Theorem constructed_numbers (h : heap) (base0 axis0 : option loc)
    (ht r0 r1 : option float) :
  match axis0 with Some a => is_vec h a | None => True end ->
  exists fl f h',
    ConeFrustum.constructor (N := float_number) base0 axis0 ht r0 r1 h
    = Ok fl h' /\
    frustum_at h' fl f /\
    (f.(height) === 0)%num = false /\
    Double.is_nan f.(height) = false /\
    Double.is_nan f.(radius0) = false /\
    Double.is_nan f.(radius1) = false /\
    ConeFrustum.empty fl h'
    = Ok ((f.(radius0) === 0)%num && (f.(radius1) === 0)%num) h'.
Proof.
  intros Ha.
  destruct (constructor_run (N := float_number) base0 axis0 ht r0 r1 h Ha)
    as (fl & f & w & h' & Hrun & Hf & _ & _ & _ & _ & Hh & H0 & H1 & _).
  assert (Ht : truthy (N := float_number) f.(height) = true).
  { rewrite Hh. destruct ht as [n|]; [apply double_or_one_truthy|].
    vm_compute. reflexivity. }
  assert (Hr : forall r : option float,
            Double.is_nan (arg_or (N := float_number) r (num_lit 0)) = false).
  { intros [n|]; [apply double_or_zero_number | vm_compute; reflexivity]. }
  unfold truthy in Ht. apply andb_prop in Ht as [Hnz Hse]. simpl in Hnz, Hse.
  apply negb_true_iff in Hnz.
  exists fl, f, h'. split; [exact Hrun|]. split; [exact Hf|].
  split; [exact Hnz|]. split; [unfold Double.is_nan; now rewrite Hse|].
  split; [rewrite H0; apply Hr|]. split; [rewrite H1; apply Hr|].
  unfold ConeFrustum.empty. rewrite (run_get_frustum _ _ _ _ Hf).
  unfold ret. simpl. now rewrite Hnz.
Qed.

(** X17.  On doubles, a constructor call without base and axis makes
    both: two new, distinct vectors holding [(0, 0, 0)] and [(0, 1, 0)];
    no object that existed is written. *)
Theorem default_vectors_are_new (h : heap) (ht r0 r1 : option float) :
  exists fl f h',
    ConeFrustum.constructor (N := float_number) None None ht r0 r1 h
    = Ok fl h' /\
    frustum_at h' fl f /\
    h !! f.(base) = None /\ h !! f.(axis) = None /\
    f.(base) <> f.(axis) /\
    vec_at h' f.(base) (vec 0 0 0) /\ vec_at h' f.(axis) (vec 0 1 0) /\
    (forall l ob, h !! l = Some ob -> h' !! l = Some ob).
Proof.
  destruct (constructor_run (N := float_number) None None ht r0 r1 h I)
    as (fl & f & w & h' & Hrun & Hf & _ & (Hb & Hwb) & (Ha & ->) & Hwa
        & _ & _ & _ & Hk).
  assert (Hn : Vector3.normalized (N := float_number)
                 (Vector3.stored (Vec3 (num_lit 0) (num_lit 1) (num_lit 0)))
               = vec 0 1 0)
    by (vm_compute; reflexivity).
  rewrite Hn in Hwa.
  exists fl, f, h'. split; [exact Hrun|]. split; [exact Hf|].
  split; [exact Hb|]. split; [exact Ha|]. split; [|split; [exact Hwb|split]].
  - intros E. rewrite E in Hwb. unfold vec_at in Hwb, Hwa.
    rewrite Hwb in Hwa.
    apply (f_equal (fun o => match o with
                             | Some (OVector3 v) =>
                                 PrimFloat.eqb (y (N := float_number) v) 1
                             | _ => false
                             end)) in Hwa.
    vm_compute in Hwa. discriminate Hwa.
  - exact Hwa.
  - intros l ob Hl. apply Hk; [assumption|]. intros ->. congruence.
Qed.

(** *** Scenes *)

Lemma target_scene :
  scene Scenario.scratch Scenario.the_ray 3%positive (Some 9%positive)
    Scenario.cylinder_inputs Scenario.target_heap.
Proof. split; try reflexivity; eexists; reflexivity. Qed.



Lemma tangent_separate :
  separate Scenario.scratch Scenario.the_ray Scenario.tangent_inputs.
Proof. split; simpl; repeat split; discriminate. Qed.

Lemma tangent_scene :
  scene Scenario.scratch Scenario.the_ray 3%positive None
    Scenario.tangent_inputs Scenario.tangent_heap.
Proof. split; try reflexivity; eexists; reflexivity. Qed.

(** The ray across the cylinder hits at [(1, 1, 0)]. *)
Lemma cylinder_hit :
  exists h',
    intersectsConeFrustum Scenario.scratch Scenario.the_ray 3%positive None
      Scenario.cylinder_heap
    = Ok (VObject 7%positive) h' /\
    vec_at h' 7%positive (vec 1 1 0).
Proof.
  exact (intersects_hit Scenario.scratch Scenario.the_ray 3%positive None
           Scenario.cylinder_inputs cylinder_separate
           Scenario.cylinder_heap 1 cylinder_scene eq_refl).
Qed.

Lemma target_hit :
  exists h',
    intersectsConeFrustum Scenario.scratch Scenario.the_ray 3%positive
      (Some 9%positive) Scenario.target_heap
    = Ok (VObject 7%positive) h'.
Proof.
  destruct (intersects_hit Scenario.scratch Scenario.the_ray 3%positive
              (Some 9%positive) Scenario.cylinder_inputs cylinder_separate
              Scenario.target_heap 1 target_scene eq_refl) as (h' & Hrun & _).
  now exists h'.
Qed.

(** *** Witnesses *)

(** The call on the cylinder scene. *)
Lemma call_writes_scratch_and_target_witness :
  exists res h',
    intersectsConeFrustum Scenario.scratch Scenario.the_ray 3%positive None
      Scenario.cylinder_heap = Ok res h' /\
    (forall l, l <> 6%positive -> l <> 8%positive -> l <> 7%positive ->
               l <> 7%positive -> h' !! l = Scenario.cylinder_heap !! l) /\
    (res = VNull ->
     forall l, l <> 6%positive -> l <> 8%positive ->
               h' !! l = Scenario.cylinder_heap !! l).
Proof.
  exact (call_writes_scratch_and_target
           Scenario.scratch Scenario.the_ray 3%positive None
           Scenario.cylinder_inputs Scenario.cylinder_heap
           cylinder_separate cylinder_scene).
Defined.

(** With the target vector 9 passed, the call returns the closure's
    vector 7, and both hold the point [(1, 1, 0)]. *)
Lemma hit_fills_target2_and_target_witness :
  exists h',
    intersectsConeFrustum Scenario.scratch Scenario.the_ray 3%positive
      (Some 9%positive) Scenario.target_heap
    = Ok (VObject 7%positive) h' /\
    vec_at h' 7%positive (vec 1 1 0) /\
    vec_at h' 9%positive (vec 1 1 0).
Proof.
  destruct target_hit as (h' & Hrun).
  destruct (hit_fills_target2_and_target
              Scenario.scratch Scenario.the_ray 3%positive (Some 9%positive)
              Scenario.cylinder_inputs Scenario.target_heap h' 7%positive
              cylinder_separate target_scene Hrun)
    as (t & Hn & H2 & Htg & _).
  injection Hn as <-.
  exists h'. split; [exact Hrun|]. split; [exact H2 | exact Htg].
Defined.


(** Two calls on the cylinder scene return the same object. *)
Lemma later_hit_overwrites_earlier_result_witness :
  exists h1 h2 l1 l2,
    intersectsConeFrustum Scenario.scratch Scenario.the_ray 3%positive None
      Scenario.cylinder_heap = Ok (VObject l1) h1 /\
    intersectsConeFrustum Scenario.scratch Scenario.the_ray 3%positive None
      h1 = Ok (VObject l2) h2 /\
    l1 = 7%positive /\ l2 = l1.
Proof.
  destruct cylinder_hit as (h1 & Hrun1 & _).
  pose proof (intersects_scene Scenario.scratch Scenario.the_ray 3%positive
                None Scenario.cylinder_inputs Scenario.cylinder_heap h1 _
                cylinder_separate cylinder_scene I Hrun1) as Hs1.
  destruct (intersects_hit Scenario.scratch Scenario.the_ray 3%positive None
              Scenario.cylinder_inputs cylinder_separate h1 1 Hs1 eq_refl)
    as (h2 & Hrun2 & _).
  destruct (later_hit_overwrites_earlier_result
              Scenario.scratch Scenario.the_ray 3%positive
              Scenario.cylinder_inputs Scenario.the_ray 3%positive
              Scenario.cylinder_inputs Scenario.cylinder_heap h1 h2
              7%positive 7%positive
              cylinder_separate cylinder_scene cylinder_separate Hs1
              Hrun1 Hrun2) as (E1 & E2 & _).
  exists h1, h2, 7%positive, 7%positive.
  split; [exact Hrun1|]. split; [exact Hrun2|]. split; assumption.
Defined.



(** The ray that touches the cylinder is reported at [t = 1]. *)
Lemma degenerate_discriminant_witness :
  exists h',
    intersectsConeFrustum Scenario.scratch Scenario.the_ray 3%positive None
      Scenario.tangent_heap = Ok (VObject 7%positive) h' /\
    vec_at h' 7%positive (vec 1 1 0).
Proof.
  destruct (degenerate_discriminant
              Scenario.scratch Scenario.the_ray 3%positive None
              Scenario.tangent_inputs Scenario.tangent_heap
              tangent_separate tangent_scene eq_refl)
    as (_ & _ & Hd).
  destruct (Hd eq_refl eq_refl) as (h' & Hrun & Hp).
  exists h'. split; [exact Hrun | exact (Hp eq_refl)].
Defined.

(** Copying the second cylinder of the twin scene into the first. *)
Lemma copy_takes_new_vectors_witness :
  exists t' h',
    ConeFrustum.copy 3%positive 11%positive Scenario.twin_heap
    = Ok VUndefined h' /\
    frustum_at h' 3%positive t' /\
    Scenario.twin_heap !! t'.(base) = None /\
    Scenario.twin_heap !! t'.(axis) = None /\
    vec_at h' t'.(base) (vec 0 0 0) /\ vec_at h' t'.(axis) (vec 0 1 0).
Proof.
  destruct (copy_takes_new_vectors 3%positive 11%positive
              Scenario.cylinder Scenario.twin
              (vec 0 0 0) (vec 0 1 0) Scenario.twin_heap
              eq_refl eq_refl eq_refl eq_refl)
    as (t' & h' & Hrun & Ht & Hb & Ha & Hwb & Hwa & _).
  exists t', h'. repeat split; assumption.
Defined.

Lemma copy_then_equals_witness :
  exists h',
    ConeFrustum.copy 3%positive 11%positive Scenario.twin_heap
    = Ok VUndefined h' /\
    ConeFrustum.equals 3%positive (VObject 11%positive) h' = Ok true h'.
Proof.
  exact (copy_then_equals 3%positive 11%positive
           Scenario.cylinder Scenario.twin
           (vec 0 0 0) (vec 0 1 0) Scenario.twin_heap
           (fun _ => eq_refl) eq_refl eq_refl eq_refl eq_refl
           eq_refl eq_refl eq_refl eq_refl eq_refl).
Defined.

(** The bounding box of the cylinder of the scene. *)
Lemma bounding_box_leaves_frustum_witness :
  exists bx h',
    ConeFrustum.getBoundingBox 3%positive None Scenario.cylinder_heap
    = Ok bx h' /\
    bx.(min) <> bx.(max) /\
    frustum_at h' 3%positive Scenario.cylinder /\
    vec_at h' 1%positive (vec 0 0 0) /\ vec_at h' 2%positive (vec 0 1 0).
Proof.
  destruct (bounding_box_leaves_frustum 3%positive Scenario.cylinder
              (vec 0 0 0) (vec 0 1 0) None Scenario.cylinder_heap
              eq_refl eq_refl eq_refl I)
    as (bx & h' & Hrun & _ & _ & Hne & Hk).
  exists bx, h'. split; [exact Hrun|]. split; [exact Hne|].
  repeat split; apply Hk; (reflexivity || exact I).
Defined.

(** The box of the cylinder of the scene: from [(0, -1, 0)] to
    [(0, 3, 0)]. *)
Lemma bounding_box_corners_witness :
  exists bx h',
    ConeFrustum.getBoundingBox 3%positive None Scenario.cylinder_heap
    = Ok bx h' /\
    vec_at h' bx.(min) (vec 0 (-1) 0) /\ vec_at h' bx.(max) (vec 0 3 0).
Proof.
  destruct (bounding_box_corners 3%positive Scenario.cylinder
              (vec 0 0 0) (vec 0 1 0) None Scenario.cylinder_heap
              eq_refl eq_refl eq_refl I)
    as (bx & h' & Hrun & _ & _ & Hlo & Hhi & _).
  exists bx, h'. split; [exact Hrun|]. split; [exact Hlo | exact Hhi].
Defined.

(** The bounding box of the cone with its apex at the base. *)
Lemma zero_radius0_box_is_nan_witness :
  exists bx h' lo hi,
    ConeFrustum.getBoundingBox 3%positive None Scenario.apex_heap
    = Ok bx h' /\
    vec_at h' bx.(min) lo /\ vec_at h' bx.(max) hi /\
    all_nan lo = true /\ all_nan hi = true.
Proof.
  destruct (zero_radius0_box_is_nan Scenario.apex_heap 3%positive
              Scenario.apex (vec 0 0 0) (vec 0 1 0) None
              eq_refl eq_refl eq_refl I eq_refl)
    as (bx & h' & lo & hi & Hrun & Hlo & Hhi & Nlo & Nhi & _).
  exists bx, h', lo, hi. repeat split; assumption.
Defined.

(** [new ConeFrustum( null, null, 0, NaN )] on the empty heap. *)
Lemma constructed_numbers_witness :
  exists fl f h',
    ConeFrustum.constructor (N := float_number) None None
      (Some 0) (Some nan) None ∅ = Ok fl h' /\
    frustum_at h' fl f /\
    (f.(height) === 0)%num = false /\
    Double.is_nan f.(radius0) = false /\
    ConeFrustum.empty fl h'
    = Ok ((f.(radius0) === 0)%num && (f.(radius1) === 0)%num) h'.
Proof.
  destruct (constructed_numbers ∅ None None (Some 0) (Some nan) None I)
    as (fl & f & h' & Hrun & Hf & Hh & _ & H0 & _ & He).
  exists fl, f, h'. repeat split; assumption.
Defined.

End FurtherOnDoubles.

(** ** The surface and [equals], in exact arithmetic *)

Section FurtherInExactArithmetic.
Local Existing Instance real_number.
Local Open Scope R_scope.
Local Abbreviation vec := (Vec3 (N := real_number)).
Implicit Types (w : @vec3 real_number) (i : @inputs real_number).

(** At the point of parameter [t] the gap is the polynomial the method
    solves, [c2 t^2 + 2 c1 t + c0], with the sign changed. *)
Lemma gap_polynomial i t :
  surface_gap i.(frustum_fields) i.(frustum_base) i.(frustum_axis)
    (Quadratic.point i t)
  = - (Quadratic.c0 i + 2 * t * Quadratic.c1 i + t * t * Quadratic.c2 i).
Proof.
  destruct i as [[ox oy oz] [vx vy vz] [bx yb bz] [ax ay az] [fb fa fh f0 f1]].
  unfold surface_gap, Quadratic.point, Quadratic.along, Quadratic.offset,
    Quadratic.c0, Quadratic.c1, Quadratic.c2, Quadratic.r, Quadratic.R,
    Quadratic.deltaR, Quadratic.DdA, Quadratic.DdD, Quadratic.VdA,
    Quadratic.VdD, Quadratic.VdV, pow2, Vector3.dot_product, Vector3.add,
    Vector3.sub, Vector3.add_scaled.
  simpl. change (@num real_number) with R. unfold Rdiv. ring.
Qed.



Lemma linear_value (k0 k1 : R) :
  k1 <> 0 ->
  k0 + 2 * (- 2 * k0 / k1) * k1 + (- 2 * k0 / k1) * (- 2 * k0 / k1) * 0
  = - (3 * k0).
Proof. intros H1. field. exact H1. Qed.

(** In the linear branch the reported parameter is [-2 c0 / c1], at
    which [c0 + 2 c1 t] is [-3 c0]. *)
Lemma nearest_linear_value i t :
  Quadratic.c2 i = 0 -> Quadratic.nearest i = Some t ->
  Quadratic.c0 i + 2 * t * Quadratic.c1 i + t * t * Quadratic.c2 i
  = - (3 * Quadratic.c0 i).
Proof.
  intros H2 Hn. unfold Quadratic.nearest in Hn.
  assert (E2 : (Quadratic.c2 i === 0)%num = true) by now apply real_eqb_true.
  rewrite E2 in Hn. cbn [negb] in Hn.
  destruct (Quadratic.c1 i === 0)%num eqn:E1; [discriminate|].
  apply real_eqb_false in E1. cbn [negb] in Hn.
  destruct (Quadratic.valid i (Quadratic.linear_root i)); [|discriminate].
  injection Hn as <-. rewrite H2. unfold Quadratic.linear_root.
  now apply linear_value.
Qed.

Lemma real_same w w' : Vector3.same w w' = true <-> w = w'.
Proof.
  destruct w as [a b c], w' as [a' b' c']. unfold Vector3.same. simpl.
  rewrite !andb_true_iff, !real_eqb_true. split.
  - intros [[-> ->] ->]. reflexivity.
  - intros [= -> -> ->]. auto.
Qed.


(** X13.  In exact arithmetic, the point reported by the linear branch
    ([c2] zero) has the gap [3 * c0]: the parameter the method takes,
    [-2 * c0 / c1], is four times the root [-c0 / (2 * c1)] of
    [2 c1 t + c0], so the point is on the lateral surface only when
    [c0] is 0. *)
Theorem linear_hit_off_surface cl ry fl tg i (h h' : heap) l :
  separate cl ry i -> scene cl ry fl tg i h ->
  Quadratic.c2 i = 0 ->
  intersectsConeFrustum cl ry fl tg h = Ok (VObject l) h' ->
  exists p,
    vec_at h' l p /\
    surface_gap i.(frustum_fields) i.(frustum_base) i.(frustum_axis) p
    = 3 * Quadratic.c0 i.
Proof.
  intros Hsep Hs H2 Hrun.
  destruct (intersects_object cl ry fl tg i Hsep h l h' Hs Hrun)
    as (t & Hn & Hp).
  exists (Quadratic.point i t). split; [exact Hp|].
  rewrite gap_polynomial, (nearest_linear_value i t H2 Hn).
  apply Ropp_involutive.
Qed.

(** X14.  In exact arithmetic [equals] compares by value and writes
    nothing: it returns [true] exactly when the two bases hold the same
    components, the two axes hold the same components, and the heights
    and radii are equal, whether or not the frustums share objects. *)
Theorem equals_by_value (h : heap) this fl (t f : frustum) tb ta fb fa :
  frustum_at h this t -> frustum_at h fl f ->
  vec_at h t.(base) tb -> vec_at h t.(axis) ta ->
  vec_at h f.(base) fb -> vec_at h f.(axis) fa ->
  exists b,
    ConeFrustum.equals this (VObject fl) h = Ok b h /\
    (b = true <->
     tb = fb /\ ta = fa /\ t.(height) = f.(height) /\
     t.(radius0) = f.(radius0) /\ t.(radius1) = f.(radius1)).
Proof.
  intros Ht Hf Htb Hta Hfb Hfa.
  rewrite (equals_run this fl t f tb ta fb fa h) by assumption.
  eexists. split; [reflexivity|].
  rewrite !andb_true_iff, !real_same. simpl. rewrite !real_eqb_true. tauto.
Qed.

(** *** The cylinder scene on reals: [c2 = -1], [c1 = 2], [c0 = -3], the
    discriminant is 1, [t0 = 3] and [t1 = 1]. *)











(** *** Witnesses *)


(** The point reported on the cone, [(1, 4, 0)], is off it: the gap is
    [3 * c0 = -24]. *)
Lemma linear_hit_off_surface_witness :
  exists h' p,
    intersectsConeFrustum Scenario.scratch Scenario.the_ray 3%positive None
      Scenario.cone_heap = Ok (VObject 7%positive) h' /\
    vec_at h' 7%positive p /\
    surface_gap Scenario.cone (vec 0 0 0) (vec 0 1 0) p = -24.
Proof.
  destruct (intersects_hit Scenario.scratch Scenario.the_ray
              3%positive None Scenario.cone_inputs real_cone_separate
              Scenario.cone_heap 4 real_cone_scene real_cone_nearest)
    as (h' & Hrun & _).
  rewrite real_cone_reported in Hrun.
  destruct (linear_hit_off_surface Scenario.scratch Scenario.the_ray
              3%positive None Scenario.cone_inputs Scenario.cone_heap
              h' 7%positive real_cone_separate real_cone_scene
              real_cone_c2 Hrun)
    as (p & Hp & Hg).
  exists h', p. split; [exact Hrun|]. split; [exact Hp|].
  rewrite real_cone_c0 in Hg. transitivity (3 * -8); [exact Hg | lra].
Defined.

(** The two cylinders of the twin scene are equal, on different
    objects. *)
Lemma equals_by_value_witness :
  ConeFrustum.equals 3%positive (VObject 11%positive) Scenario.twin_heap
  = Ok true Scenario.twin_heap.
Proof.
  destruct (equals_by_value Scenario.twin_heap 3%positive 11%positive
              Scenario.cylinder Scenario.twin
              (vec 0 0 0) (vec 0 1 0) (vec 0 0 0) (vec 0 1 0)
              eq_refl eq_refl eq_refl eq_refl eq_refl eq_refl)
    as (b & Hrun & Hb).
  rewrite Hrun. f_equal. apply Hb. repeat split; reflexivity.
Defined.

(** The bounding box of the cylinder of the scene. *)
Lemma bounding_box_with_radius0_witness :
  exists bx h',
    ConeFrustum.getBoundingBox 3%positive None Scenario.cylinder_heap
    = Ok bx h' /\
    vec_at h' bx.(min)
      (fst (documented_box Scenario.cylinder (vec 0 0 0) (vec 0 1 0))) /\
    vec_at h' bx.(max)
      (snd (documented_box Scenario.cylinder (vec 0 0 0) (vec 0 1 0))).
Proof.
  destruct (bounding_box_with_radius0 Scenario.cylinder_heap 3%positive
              Scenario.cylinder (vec 0 0 0) (vec 0 1 0) None
              eq_refl eq_refl eq_refl I)
    as (bx & h' & Hrun & _ & _ & Hlo & Hhi & _).
  - simpl. lra.
  - exists bx, h'. repeat split; assumption.
Defined.

End FurtherInExactArithmetic.
